(** * PDF-Translator: the batched translation pipeline of [translator_utils.py]

    A shallow embedding of [translate_content] and [create_docx].

    - Python [str] values are [string]s; a character is its code point, here
      restricted to the code points below 256.
    - The block dictionaries [{'text': ..., 'size': ...}] live in an object
      store; lists hold references into it, so that [b.copy()] and the
      in-place assignment [results[idx]['text'] = ...] keep their aliasing.
    - The translation provider is a parameter: a transition function on a
      hidden state that either returns a string or raises.
    - Exceptions are an explicit outcome, threaded by a small state and error
      monad.  Of an exception only its class matters: the bare [except:] of
      lines 140, 148 and 184 catches every exception, [except Exception] of
      line 142 does not catch [KeyboardInterrupt], [SystemExit] and the
      other exceptions that derive from [BaseException] alone.
    - A ['size'] is a number of a type left open, with the operations
      [create_docx] applies to it. *)

From Stdlib Require Import List String Ascii Arith Bool ZArith Lia Sorted.
Import ListNotations.

Local Open Scope string_scope.
Local Open Scope list_scope.
Local Open Scope nat_scope.

(** ** Python string operations *)

Module PyStr.

(** [str.isspace] on one character (code points below 256): TAB..CR,
    FS..US, SPACE, NEL and NBSP. *)
Definition isspace (c : ascii) : bool :=
  let n := nat_of_ascii c in
  ((9 <=? n) && (n <=? 13)) || ((28 <=? n) && (n <=? 32))
  || (n =? 133) || (n =? 160).

Fixpoint lstrip (s : string) : string :=
  match s with
  | EmptyString => EmptyString
  | String c s' => if isspace c then lstrip s' else s
  end.

Fixpoint rstrip (s : string) : string :=
  match s with
  | EmptyString => EmptyString
  | String c s' =>
      match rstrip s' with
      | EmptyString => if isspace c then EmptyString else String c EmptyString
      | r => String c r
      end
  end.

(** [s.strip()] *)
Definition strip (s : string) : string := rstrip (lstrip s).

(** [not s] for a string: the empty string is falsy. *)
Definition is_empty (s : string) : bool :=
  match s with EmptyString => true | _ => false end.

(** [sep.join(l)] *)
Fixpoint join (sep : string) (l : list string) : string :=
  match l with
  | [] => EmptyString
  | [x] => x
  | x :: rest => (x ++ sep ++ join sep rest)%string
  end.

Definition rev_string (l : list ascii) : string :=
  string_of_list_ascii (rev l).

(** [s.split(sep)] for a non-empty [sep]: scan from the left, cut at each
    occurrence and resume after it.  [skip] counts the characters of a
    matched separator still to be passed over, [cur] is the part being
    read, latest character first. *)
Fixpoint split_go (sep : string) (skip : nat) (cur : list ascii)
  (s : string) : list string :=
  match s with
  | EmptyString => [rev_string cur]
  | String c s' =>
      match skip with
      | S k => split_go sep k cur s'
      | O =>
          if prefix sep s
          then rev_string cur :: split_go sep (String.length sep - 1) [] s'
          else split_go sep 0 (c :: cur) s'
      end
  end.

Definition split (sep s : string) : list string := split_go sep 0 [] s.

Definition newline : ascii := ascii_of_nat 10.

(** A string of [n] copies of [c], for test inputs. *)
Fixpoint replicate (n : nat) (c : ascii) : string :=
  match n with
  | O => EmptyString
  | S k => String c (replicate k c)
  end.

End PyStr.

(** ** The batching loop (lines 66-103) *)

(** [SEPARATOR = "\n|||\n"] *)
Definition SEPARATOR : string :=
  String PyStr.newline ("|||" ++ String PyStr.newline EmptyString)%string.

(** One entry of [batches]: [{'text': ..., 'indices': ...}]. *)
Record batch : Type := Batch {
  b_text : string;
  b_indices : list nat
}.

(** The loop variables. *)
Record bstate : Type := BState {
  batches : list batch;
  current_batch_text : list string;
  current_batch_indices : list nat;
  current_char_count : nat
}.

Definition bstate_init : bstate := BState [] [] [] 0.

(** The batch the two [batches.append] sites build from the loop variables. *)
Definition commit (st : bstate) : batch :=
  Batch (PyStr.join SEPARATOR (current_batch_text st))
        (current_batch_indices st).

(** The loop body for index [i] and the block text [raw]. *)
Definition batch_step (st : bstate) (i : nat) (raw : string) : bstate :=
  let text := PyStr.strip raw in
  if PyStr.is_empty text then st
  else if 4000 <? current_char_count st + String.length text then
    BState (batches st ++ [commit st]) [text] [i] (String.length text)
  else
    BState (batches st)
           (current_batch_text st ++ [text])
           (current_batch_indices st ++ [i])
           (current_char_count st + (String.length text
                                     + String.length SEPARATOR)).

(** [for i, block in enumerate(content_blocks)], from index [i] on. *)
Fixpoint batch_loop (i : nat) (texts : list string) (st : bstate) : bstate :=
  match texts with
  | [] => st
  | raw :: rest => batch_loop (S i) rest (batch_step st i raw)
  end.

(** The batches after the final [if current_batch_text:] commit. *)
Definition finish (st : bstate) : list batch :=
  match current_batch_text st with
  | [] => batches st
  | _ :: _ => batches st ++ [commit st]
  end.

Definition make_batches (texts : list string) : list batch :=
  finish (batch_loop 0 texts bstate_init).

(** ** Blocks and the object store *)

(** A block dictionary [{'text': str, 'size': number}].  The pipeline only
    carries [size] around, so its type is left open. *)
Record block (Size : Type) : Type := Block {
  text : string;
  size : Size
}.
Arguments Block {Size} _ _.
Arguments text {Size} _.
Arguments size {Size} _.

(** A reference to a dictionary object. *)
Definition addr : Type := nat.

(** The object store: the dictionary each reference denotes, and the first
    reference not yet in use. *)
Record heap (Size : Type) : Type := Heap {
  cells : addr -> block Size;
  next : addr
}.
Arguments Heap {Size} _ _.
Arguments cells {Size} _ _.
Arguments next {Size} _.

Definition set_cell {Size} (h : heap Size) (a : addr) (v : block Size)
  : heap Size :=
  Heap (fun x => if x =? a then v else cells h x) (next h).

(** A new dictionary object holding [v]. *)
Definition alloc {Size} (h : heap Size) (v : block Size)
  : addr * heap Size :=
  (next h, Heap (fun x => if x =? next h then v else cells h x) (S (next h))).

(** ** Outcomes, and the state the pipeline runs in *)

(** How a call ends: with a value, with an exception of class [Exception]
    ([Raises]), or with one that derives from [BaseException] without being
    an [Exception] ([RaisesBase]), such as [KeyboardInterrupt]. *)
Inductive outcome (A : Type) : Type :=
| Returns (a : A)
| Raises
| RaisesBase.
Arguments Returns {A} _.
Arguments Raises {A}.
Arguments RaisesBase {A}.

Definition outcome_map {A B} (f : A -> B) (o : outcome A) : outcome B :=
  match o with
  | Returns a => Returns (f a)
  | Raises => Raises
  | RaisesBase => RaisesBase
  end.

(** Where [translator.translate] is called from: on a batch's joined text
    (line 116) or on the text of the block at [idx] (lines 139 and 147). *)
Inductive call_site : Type :=
| WholeBatch
| Member (idx : nat).

Section Pipeline.

Context {Size St : Type}.

(** The translation provider: from its current state and the text, the
    outcome of the call and its next state. *)
Variable translate : St -> string -> outcome string * St.

(** The store, the provider's state, and the calls made to it so far. *)
Record world : Type := World {
  w_heap : heap Size;
  w_tr : St;
  w_calls : list (call_site * string)
}.

Definition M (A : Type) : Type := world -> outcome A * world.

Definition ret {A} (a : A) : M A := fun w => (Returns a, w).

Definition bind {A B} (m : M A) (k : A -> M B) : M B :=
  fun w =>
    match m w with
    | (Returns a, w') => k a w'
    | (Raises, w') => (Raises, w')
    | (RaisesBase, w') => (RaisesBase, w')
    end.

(** [try: body  except: handler], with a bare [except:], which catches every
    exception; what [body] did before raising stays. *)
Definition try_except {A} (body handler : M A) : M A :=
  fun w =>
    match body w with
    | (Returns a, w') => (Returns a, w')
    | (Raises, w') => handler w'
    | (RaisesBase, w') => handler w'
    end.

(** [try: body  except Exception: handler]: an exception that is not an
    [Exception] goes through. *)
Definition try_except_Exception {A} (body handler : M A) : M A :=
  fun w =>
    match body w with
    | (Returns a, w') => (Returns a, w')
    | (Raises, w') => handler w'
    | (RaisesBase, w') => (RaisesBase, w')
    end.

Fixpoint for_each {X} (l : list X) (body : X -> M unit) : M unit :=
  match l with
  | [] => ret tt
  | x :: rest => bind (body x) (fun _ => for_each rest body)
  end.

(** [l[i]] for an index [i >= 0]: [IndexError] out of range. *)
Definition index {A} (l : list A) (i : nat) : M A :=
  fun w =>
    match nth_error l i with
    | Some a => (Returns a, w)
    | None => (Raises, w)
    end.

(** [d['text']] for the dictionary at [a]. *)
Definition get_text (a : addr) : M string :=
  fun w => (Returns (text (cells (w_heap w) a)), w).

(** [d['text'] = t] for the dictionary at [a]. *)
Definition store_text (a : addr) (t : string) : M unit :=
  fun w =>
    let h := w_heap w in
    (Returns tt,
     World (set_cell h a (Block t (size (cells h a)))) (w_tr w) (w_calls w)).

(** [translator.translate(s)] *)
Definition call_translate (site : call_site) (s : string) : M string :=
  fun w =>
    let (r, st') := translate (w_tr w) s in
    (r, World (w_heap w) st' (w_calls w ++ [(site, s)])).

(** [d.copy()] for the dictionary at [a]. *)
Definition copy (a : addr) : M addr :=
  fun w =>
    let (r, h') := alloc (w_heap w) (cells (w_heap w) a) in
    (Returns r, World h' (w_tr w) (w_calls w)).

End Pipeline.

Arguments world : clear implicits.
Arguments M : clear implicits.

Declare Scope pym_scope.
Delimit Scope pym_scope with pym.
Notation "x <- m ;; k" := (bind m (fun x => k))
  (at level 61, m at next level, right associativity) : pym_scope.
Notation "m ;;; k" := (bind m (fun _ => k))
  (at level 61, right associativity) : pym_scope.

(** ** [translate_content] (lines 58-151) *)

Section TranslateContent.

Context {Size St : Type}.
Variable translate : St -> string -> outcome string * St.

Local Open Scope pym_scope.

(** The texts the batching loop reads, [block['text']] for each block. *)
Definition read_texts (content_blocks : list addr)
  : M Size St (list string) :=
  fun w =>
    (Returns (map (fun a => text (cells (w_heap w) a)) content_blocks), w).

(** [[b.copy() for b in content_blocks]] (line 107) *)
Fixpoint copy_all (content_blocks : list addr) : M Size St (list addr) :=
  match content_blocks with
  | [] => ret []
  | b :: rest =>
      r <- copy b ;;
      rs <- copy_all rest ;;
      ret (r :: rs)
  end.

(** [results[idx]['text'] = part] *)
Definition assign_part (results : list addr) (idx : nat) (part : string)
  : M Size St unit :=
  r <- index results idx ;;
  store_text r part.

(** [results[idx]['text'] = translator.translate(content_blocks[idx]['text'])]:
    the right-hand side first, then the target. *)
Definition assign_translation (content_blocks results : list addr)
  (idx : nat) : M Size St unit :=
  b <- index content_blocks idx ;;
  t <- get_text b ;;
  tr <- call_translate translate (Member idx) t ;;
  assign_part results idx tr.

(** The per-member loop of lines 137-141 and of lines 145-149, each member
    under a bare [except:]. *)
Definition fallback (content_blocks results : list addr)
  (indices : list nat) : M Size St unit :=
  for_each indices (fun idx =>
    try_except (assign_translation content_blocks results idx) (ret tt)).

(** The body of [for batch in batches] (lines 111-149); its handler is
    [except Exception] (line 142). *)
Definition process_batch (content_blocks results : list addr) (b : batch)
  : M Size St unit :=
  try_except_Exception
    (let full_text := b_text b in
     let indices := b_indices b in
     translated_chunk <- call_translate translate WholeBatch full_text ;;
     let parts := map PyStr.strip (PyStr.split "|||" translated_chunk) in
     if List.length parts =? List.length indices then
       for_each (combine indices parts) (fun ip =>
         assign_part results (fst ip) (snd ip))
     else
       fallback content_blocks results indices)
    (fallback content_blocks results (b_indices b)).

(** The function.  The provider object built at line 62 is [translate] with
    the state [w_tr] of the world the run starts in. *)
Definition translate_content (content_blocks : list addr)
  : M Size St (list addr) :=
  texts <- read_texts content_blocks ;;
  let batches := make_batches texts in
  results <- copy_all content_blocks ;;
  for_each batches (process_batch content_blocks results) ;;;
  ret results.

End TranslateContent.

(** What a caller sees of a list of references: the dictionaries' values. *)
Definition read_blocks {Size} (h : heap Size) (l : list addr)
  : list (block Size) :=
  map (cells h) l.

(** ** [create_docx] (lines 153-192) *)

(** The numbers a ['size'] can be, [int] or [float], with what [create_docx]
    does to them: [==] (in [set] and in [count]; taken to be equality, so
    there is no NaN), the integer literals, [+], [-], [>=] and [>]. *)
Class Number (num : Type) : Type := {
  num_eq_dec : forall x y : num, {x = y} + {x <> y};
  num_of_Z : Z -> num;
  num_add : num -> num -> num;
  num_sub : num -> num -> num;
  num_geb : num -> num -> bool;
  num_gtb : num -> num -> bool
}.

(** Sizes that are all of type [int]. *)
#[global] Instance Z_Number : Number Z := {|
  num_eq_dec := Z.eq_dec;
  num_of_Z := fun z => z;
  num_add := Z.add;
  num_sub := Z.sub;
  num_geb := fun x y => (y <=? x)%Z;
  num_gtb := fun x y => (y <? x)%Z
|}.

(** A call on the document that returned: [add_heading(text, level)] or
    [add_paragraph(text)].  The document the function builds is the list of
    these, in order. *)
Inductive element : Type :=
| Heading (level : nat) (t : string)
| Paragraph (t : string).

Section CreateDocx.

Context {num : Type} {N : Number num}.

(** The order in which [set(sizes)] is iterated: not fixed by the language. *)
Variable set_iter : list num -> list num.

(** Whether [doc.add_heading(text, level)] raises; the bare [except:] of
    line 184 catches whatever it raises. *)
Variable add_heading_raises : string -> nat -> bool.

(** How [doc.add_paragraph(text)] ends. *)
Variable add_paragraph : string -> outcome unit.

(** [sizes.count(x)] *)
Definition count (sizes : list num) (x : num) : nat :=
  count_occ num_eq_dec sizes x.

(** [max(x :: l, key=key)]: the first element whose key no later one
    exceeds. *)
Fixpoint max_from (key : num -> nat) (best : num) (l : list num) : num :=
  match l with
  | [] => best
  | x :: rest => max_from key (if key best <? key x then x else best) rest
  end.

(** [max(l, key=key)]: [ValueError] on an empty argument. *)
Definition py_max (key : num -> nat) (l : list num) : outcome num :=
  match l with
  | [] => Raises
  | x :: rest => Returns (max_from key x rest)
  end.

(** Lines 161-165. *)
Definition mode_size_of (sizes : list num) : outcome num :=
  match sizes with
  | [] => Returns (num_of_Z 12)
  | _ :: _ => py_max (count sizes) (set_iter sizes)
  end.

(** The heading level of lines 177-183, for [diff = size - mode_size]. *)
Definition heading_level (diff : num) : nat :=
  if num_gtb diff (num_of_Z 10) then 1
  else if num_gtb diff (num_of_Z 5) then 2
  else 3.

(** [doc.add_paragraph(text)], lines 185 and 187: under no [try], so that
    what it raises leaves the function. *)
Definition paragraph (t : string) : outcome element :=
  outcome_map (fun _ => Paragraph t) (add_paragraph t).

(** The loop body, lines 168-187. *)
Definition emit (mode_size : num) (b : block num) : outcome element :=
  if num_geb (size b) (num_add mode_size (num_of_Z 2)) then
    let level := heading_level (num_sub (size b) mode_size) in
    if add_heading_raises (text b) level
    then paragraph (text b)
    else Returns (Heading level (text b))
  else paragraph (text b).

(** The loop of line 167: it stops at the first block whose call raises. *)
Fixpoint emit_all (mode_size : num) (blocks : list (block num))
  : outcome (list element) :=
  match blocks with
  | [] => Returns []
  | b :: rest =>
      match emit mode_size b with
      | Returns e => outcome_map (cons e) (emit_all mode_size rest)
      | Raises => Raises
      | RaisesBase => RaisesBase
      end
  end.

(** The document body [create_docx] builds, in order; writing it out to a
    buffer (lines 189-192) is left to the document library. *)
Definition create_docx (translated_blocks : list (block num))
  : outcome (list element) :=
  match mode_size_of (map size translated_blocks) with
  | Returns mode_size => emit_all mode_size translated_blocks
  | Raises => Raises
  | RaisesBase => RaisesBase
  end.

End CreateDocx.

(** What any iteration order of a set satisfies: each member once. *)
Definition set_iter_ok {num} (set_iter : list num -> list num) : Prop :=
  forall l, NoDup (set_iter l) /\ (forall x, In x (set_iter l) <-> In x l).

(** ** [extract_text_from_pdf] (lines 6-56) *)

(** One entry of [page.extract_words(...)]: its ['text'], its ['top'], and
    its ['size'] when the key is present.  [num] is the type of the numbers
    pdfplumber reports. *)
Record word (num : Type) : Type := Word {
  wd_text : string;
  wd_top : num;
  wd_size : option num
}.
Arguments Word {num} _ _ _.
Arguments wd_text {num} _.
Arguments wd_top {num} _.
Arguments wd_size {num} _.

(** The variables of the two loops. *)
Record lstate (num : Type) : Type := LState {
  structured_content : list (block num);
  current_line_y : num;
  current_line_text : list string;
  max_size_in_line : num
}.
Arguments LState {num} _ _ _ _.
Arguments structured_content {num} _.
Arguments current_line_y {num} _.
Arguments current_line_text {num} _.
Arguments max_size_in_line {num} _.

Section Extract.

Context {num : Type}.

(** [abs(a - b) > 5], [max(a, b)] and the literal [0] on these numbers. *)
Variable far : num -> num -> bool.
Variable num_max : num -> num -> num.
Variable zero : num.

(** [word.get('size', 0)] *)
Definition size_or_zero (w : word num) : num :=
  match wd_size w with
  | Some s => s
  | None => zero
  end.

(** Committing a line (lines 33-38 and 49-54): the words joined by spaces
    and trimmed make a block, unless nothing is left. *)
Definition commit_line (content : list (block num)) (texts : list string)
  (sz : num) : list (block num) :=
  let full_line_text := PyStr.strip (PyStr.join " " texts) in
  if PyStr.is_empty full_line_text then content
  else content ++ [Block full_line_text sz].

(** The body of [for word in words] (lines 29-46). *)
Definition word_step (st : lstate num) (w : word num) : lstate num :=
  if far (wd_top w) (current_line_y st) then
    LState (commit_line (structured_content st) (current_line_text st)
              (max_size_in_line st))
           (wd_top w) [wd_text w] (size_or_zero w)
  else
    LState (structured_content st) (current_line_y st)
           (current_line_text st ++ [wd_text w])
           (num_max (max_size_in_line st) (size_or_zero w)).

(** The body of [for page in pdf.pages] (lines 15-54), given the page's
    words; a page without words is skipped.  ([current_font_size], line 26,
    is never read.) *)
Definition page_step (content : list (block num)) (words : list (word num))
  : list (block num) :=
  match words with
  | [] => content
  | w0 :: _ =>
      let st := fold_left word_step words (LState content (wd_top w0) [] zero) in
      commit_line (structured_content st) (current_line_text st)
        (max_size_in_line st)
  end.

(** The function, given the words of each page. *)
Definition extract_text_from_pdf (pages : list (list (word num)))
  : list (block num) :=
  fold_left page_step pages [].

End Extract.

(** ** [app.py], lines 19-33: the language pair of the chosen direction *)

Definition languages_of (direction : string) : string * string :=
  if (direction =? "English -> Indonesian")%string then ("en", "id")
  else if (direction =? "Indonesian -> English")%string then ("id", "en")
  else if (direction =? "Auto -> Indonesian")%string then ("auto", "id")
  else if (direction =? "Auto -> English")%string then ("auto", "en")
  else ("auto", "id").

(** ** Vocabulary of the statements *)

(** A block is sent for translation when its trimmed text is not empty. *)
Definition translatable (raw : string) : bool :=
  negb (PyStr.is_empty (PyStr.strip raw)).

(** The positions of the translatable blocks, in order. *)
Definition translatable_indices (texts : list string) : list nat :=
  filter (fun i => translatable (nth i texts EmptyString))
         (seq 0 (List.length texts)).

(** Every index the loop has placed so far, committed or not. *)
Definition all_indices (st : bstate) : list nat :=
  List.concat (map b_indices (batches st)) ++ current_batch_indices st.

(** What the loop does guarantee of a batch: at most one member, or a
    joined text within the threshold plus one separator. *)
Definition near_budget (b : batch) : Prop :=
  List.length (b_indices b) <= 1
  \/ String.length (b_text b) <= 4000 + String.length SEPARATOR.

(** The loop variables between two iterations: the count brackets the
    length of the text the pending members would join to. *)
Definition loop_inv (st : bstate) : Prop :=
  List.length (current_batch_text st) = List.length (current_batch_indices st)
  /\ match current_batch_text st with
     | [] => current_char_count st = 0
     | _ :: _ =>
         String.length (b_text (commit st)) <= current_char_count st
         /\ current_char_count st
            <= String.length (b_text (commit st)) + String.length SEPARATOR
     end
  /\ near_budget (commit st)
  /\ Forall near_budget (batches st).

(** The text of a batch is its members' trimmed texts, joined. *)
Definition joined (texts : list string) (b : batch) : Prop :=
  b_text b
  = PyStr.join SEPARATOR
      (map (fun j => PyStr.strip (nth j texts EmptyString)) (b_indices b)).

(** The same of the loop variables: the pending texts are those of the
    pending indices. *)
Definition text_inv (texts : list string) (st : bstate) : Prop :=
  current_batch_text st
  = map (fun j => PyStr.strip (nth j texts EmptyString))
      (current_batch_indices st)
  /\ Forall (joined texts) (batches st).

(** The member indices of a list of batches, in batch order. *)
Definition members (bs : list batch) : list nat :=
  List.concat (map b_indices bs).

(** A computation that never raises. *)
Definition returns {Size St A} (m : M Size St A) : Prop :=
  forall w, exists a, fst (m w) = Returns a.

(** A computation that raises, if at all, an [Exception]. *)
Definition raises_Exception_only {Size St A} (m : M Size St A) : Prop :=
  forall w, fst (m w) <> RaisesBase.

(** A computation whose effect on the state stays within the relation [R]. *)
Definition respects {Size St A} (R : world Size St -> world Size St -> Prop)
  (m : M Size St A) : Prop :=
  forall w, R w (snd (m w)).

(** From [w] to [w'] no dictionary was created, no [size] changed, the only
    dictionaries written are the results (reference [n0 + i]) of the indices
    [i] in [T], and the provider was called only on joined texts in [B] and
    for members in [T]. *)
Definition touches {Size St} (n0 : nat) (T : nat -> Prop) (B : string -> Prop)
  (w w' : world Size St) : Prop :=
  next (w_heap w') = next (w_heap w)
  /\ (forall a, size (cells (w_heap w') a) = size (cells (w_heap w) a))
  /\ (forall a, (forall i, T i -> a <> n0 + i) ->
        cells (w_heap w') a = cells (w_heap w) a)
  /\ exists l, w_calls w' = w_calls w ++ l
       /\ Forall (fun c => (fst c = WholeBatch /\ B (snd c))
                           \/ exists i, T i /\ fst c = Member i) l.

(** The texts of the input blocks, as the batching loop reads them. *)
Definition input_texts {Size St} (w : world Size St)
  (content_blocks : list addr) : list string :=
  map (fun a => text (cells (w_heap w) a)) content_blocks.

(** Every reference of the input list denotes an existing dictionary. *)
Definition well_formed {Size St} (w : world Size St)
  (content_blocks : list addr) : Prop :=
  Forall (fun a => a < next (w_heap w)) content_blocks.

(** The provider's state after the calls [args], in order. *)
Fixpoint tr_run {St} (translate : St -> string -> outcome string * St)
  (st : St) (args : list string) : St :=
  match args with
  | [] => st
  | s :: rest => tr_run translate (snd (translate st s)) rest
  end.

(** The state in which the batch after [pre] is processed. *)
Definition world_before {Size St}
  (translate : St -> string -> outcome string * St)
  (content_blocks : list addr) (pre : list batch) (w0 : world Size St)
  : world Size St :=
  snd (bind (copy_all content_blocks)
         (fun results =>
            for_each pre (process_batch translate content_blocks results))
         w0).

(** The batch after [pre] is reached: the batches [pre] were processed and
    let no exception through. *)
Definition reached {Size St}
  (translate : St -> string -> outcome string * St)
  (content_blocks : list addr) (pre : list batch) (w0 : world Size St)
  : Prop :=
  fst (bind (copy_all content_blocks)
         (fun results =>
            for_each pre (process_batch translate content_blocks results))
         w0)
  = Returns tt.

(** The call on the joined text of [b], made after the batches [pre], raises
    an exception that is not an [Exception]. *)
Definition escapes_at {Size St}
  (translate : St -> string -> outcome string * St)
  (content_blocks : list addr) (w0 : world Size St) (pre : list batch)
  (b : batch) : Prop :=
  fst (translate (w_tr (world_before translate content_blocks pre w0))
         (b_text b))
  = RaisesBase.

(** No call of the run on the joined text of a batch does. *)
Definition no_escape {Size St}
  (translate : St -> string -> outcome string * St)
  (content_blocks : list addr) (w0 : world Size St) : Prop :=
  forall pre b post,
    make_batches (input_texts w0 content_blocks) = pre ++ b :: post ->
    ~ escapes_at translate content_blocks w0 pre b.

(** How a run can end: with a result list, or with the exception, not an
    [Exception], that the provider raised on the joined text of a batch
    that was reached.  No other exception leaves the function. *)
Definition run_end {Size St}
  (translate : St -> string -> outcome string * St)
  (w0 : world Size St) (content_blocks : list addr)
  (r : outcome (list addr)) : Prop :=
  match r with
  | Returns _ => True
  | Raises => False
  | RaisesBase =>
      exists pre b post,
        make_batches (input_texts w0 content_blocks) = pre ++ b :: post
        /\ reached translate content_blocks pre w0
        /\ escapes_at translate content_blocks w0 pre b
  end.

(** The text a member ends with: the translation, or the old text when the
    call raised, whatever it raised. *)
Definition member_result (r : outcome string) (old : string) : string :=
  match r with
  | Returns t => t
  | Raises => old
  | RaisesBase => old
  end.

(** How processing the batch [b] ends in the state [w]: the only exception
    that gets out is the one the call on the joined text raises and
    [except Exception] does not catch. *)
Definition batch_outcome {Size St}
  (translate : St -> string -> outcome string * St)
  (b : batch) (w : world Size St) : outcome unit :=
  match fst (translate (w_tr w) (b_text b)) with
  | Returns _ => Returns tt
  | Raises => Returns tt
  | RaisesBase => RaisesBase
  end.

(** *** The steps as state transformers, for indices in range *)

Definition put_text {Size St} (a : addr) (t : string) (w : world Size St)
  : world Size St :=
  World (set_cell (w_heap w) a (Block t (size (cells (w_heap w) a))))
        (w_tr w) (w_calls w).

Definition note_call {Size St} (site : call_site) (s : string) (st' : St)
  (w : world Size St) : world Size St :=
  World (w_heap w) st' (w_calls w ++ [(site, s)]).

Fixpoint put_parts {Size St} (n0 : nat) (ips : list (nat * string))
  (w : world Size St) : world Size St :=
  match ips with
  | [] => w
  | ip :: rest => put_parts n0 rest (put_text (n0 + fst ip) (snd ip) w)
  end.

Definition after_member {Size St}
  (translate : St -> string -> outcome string * St)
  (n0 : nat) (content_blocks : list addr) (idx : nat) (w : world Size St)
  : world Size St :=
  let s := text (cells (w_heap w) (nth idx content_blocks 0)) in
  let w1 := note_call (Member idx) s (snd (translate (w_tr w) s)) w in
  match fst (translate (w_tr w) s) with
  | Returns t => put_text (n0 + idx) t w1
  | Raises => w1
  | RaisesBase => w1
  end.

Fixpoint after_fallback {Size St}
  (translate : St -> string -> outcome string * St)
  (n0 : nat) (content_blocks : list addr) (indices : list nat)
  (w : world Size St) : world Size St :=
  match indices with
  | [] => w
  | idx :: rest =>
      after_fallback translate n0 content_blocks rest
        (after_member translate n0 content_blocks idx w)
  end.

Definition after_batch {Size St}
  (translate : St -> string -> outcome string * St)
  (n0 : nat) (content_blocks : list addr) (b : batch) (w : world Size St)
  : world Size St :=
  let w1 := note_call WholeBatch (b_text b)
              (snd (translate (w_tr w) (b_text b))) w in
  match fst (translate (w_tr w) (b_text b)) with
  | Returns chunk =>
      let parts := map PyStr.strip (PyStr.split "|||" chunk) in
      if List.length parts =? List.length (b_indices b)
      then put_parts n0 (combine (b_indices b) parts) w1
      else after_fallback translate n0 content_blocks (b_indices b) w1
  | Raises => after_fallback translate n0 content_blocks (b_indices b) w1
  | RaisesBase => w1
  end.

Fixpoint after_batches {Size St}
  (translate : St -> string -> outcome string * St)
  (n0 : nat) (content_blocks : list addr) (bs : list batch)
  (w : world Size St) : world Size St :=
  match bs with
  | [] => w
  | b :: rest =>
      after_batches translate n0 content_blocks rest
        (after_batch translate n0 content_blocks b w)
  end.

(** The input blocks of [indices] lie below the results, which start at
    [n0], and their texts are given by [orig]. *)
Definition inputs_read {Size St} (n0 : nat) (content_blocks : list addr)
  (orig : nat -> string) (indices : list nat) (w : world Size St) : Prop :=
  forall idx, In idx indices ->
    nth idx content_blocks 0 < n0
    /\ text (cells (w_heap w) (nth idx content_blocks 0)) = orig idx.

(** Two runs, on stores that may differ, agree: the input blocks have the
    same texts and the results, which start at [n01] and at [n02], are
    equal position by position. *)
Definition agree {Size St1 St2} (n01 n02 n : nat) (cbs1 cbs2 : list addr)
  (w : world Size St1) (w' : world Size St2) : Prop :=
  (forall idx, idx < n ->
     text (cells (w_heap w) (nth idx cbs1 0))
     = text (cells (w_heap w') (nth idx cbs2 0)))
  /\ (forall i, i < n ->
        cells (w_heap w) (n01 + i) = cells (w_heap w') (n02 + i)).

(** ** Vocabulary of the further properties *)

(** The token ["|||"] occurs nowhere in [s]. *)
Fixpoint token_free (s : string) : bool :=
  match s with
  | EmptyString => true
  | String _ s' => negb (prefix "|||" s) && token_free s'
  end.

(** Where a text ends within a joined text: at its end or before the line
    feed a separator starts with. *)
Definition boundary (rest : string) : Prop :=
  rest = EmptyString \/ exists r, rest = String PyStr.newline r.

(** Nothing, or a character that is not white space, comes first. *)
Definition starts_solid (s : string) : Prop :=
  match s with
  | EmptyString => True
  | String c _ => PyStr.isspace c = false
  end.

(** The text an element of the document carries. *)
Definition element_text (e : element) : string :=
  match e with
  | Heading _ t => t
  | Paragraph t => t
  end.

(** The heading level of an element, if it is a heading. *)
Definition heading_of (e : element) : option nat :=
  match e with
  | Heading level _ => Some level
  | Paragraph _ => None
  end.

(** The heading a size stands for under the mode [mode], if any. *)
Definition heading_for {num} {N : Number num} (mode sz : num) : option nat :=
  if num_geb sz (num_add mode (num_of_Z 2))
  then Some (heading_level (num_sub sz mode))
  else None.

(** How much an element stands out: body text least, level 1 most. *)
Definition prominence (e : element) : nat :=
  match e with
  | Heading level _ => 4 - level
  | Paragraph _ => 0
  end.

(** A page cut into lines after its first: every line starts with a word far
    from the first word of the line before, whose top is [y], and goes on
    with words near its own first word. *)
Fixpoint lines_ok {num} (far : num -> num -> bool) (y : num)
  (ls : list (list (word num))) : Prop :=
  match ls with
  | [] => True
  | [] :: _ => False
  | (h :: r) :: rest =>
      far (wd_top h) y = true
      /\ (forall w, In w r -> far (wd_top w) (wd_top h) = false)
      /\ lines_ok far (wd_top h) rest
  end.

(** The size of the first line of a page: the largest met, from 0 on. *)
Definition first_line_size {num} (num_max : num -> num -> num) (zero : num)
  (l : list (word num)) : num :=
  fold_left num_max (map (size_or_zero zero) l) zero.

(** The size of a later line: the largest met, from its first word's on. *)
Definition later_line_size {num} (num_max : num -> num -> num) (zero : num)
  (l : list (word num)) : num :=
  match l with
  | [] => zero
  | h :: r => fold_left num_max (map (size_or_zero zero) r) (size_or_zero zero h)
  end.

(** ** Sample inputs and providers *)

Definition upper (c : ascii) : ascii :=
  let n := nat_of_ascii c in
  if (97 <=? n) && (n <=? 122) then ascii_of_nat (n - 32) else c.

Fixpoint map_string (f : ascii -> ascii) (s : string) : string :=
  match s with
  | EmptyString => EmptyString
  | String c s' => String (f c) (map_string f s')
  end.

(** A provider without state that upper-cases its input. *)
Definition upper_adapter (st : unit) (s : string) : outcome string * unit :=
  (Returns (map_string upper s), st).

(** A store holding the given dictionaries at references 0, 1, ... *)
Definition heap_of {Size} (dflt : block Size) (l : list (block Size))
  : heap Size :=
  Heap (fun a => nth a l dflt) (List.length l).

Definition world_of {Size St} (dflt : block Size) (l : list (block Size))
  (st : St) : world Size St :=
  World (heap_of dflt l) st [].

(** The blocks of the scenario of the specification, in a fresh store. *)
Definition scenario_world : world Z unit :=
  world_of (Block "" 0%Z)
    [Block "Hello" 24%Z; Block "world" 12%Z; Block "" 12%Z; Block "Test" 12%Z]
    tt.

(** Its only batch, and the upper-cased text the provider returns for it. *)
Definition scenario_batch : batch :=
  Batch (PyStr.join SEPARATOR ["Hello"; "world"; "Test"]) [0; 1; 3].

Definition scenario_chunk : string := map_string upper (b_text scenario_batch).

(** A provider without state that appends a separator token and a letter,
    so that no batch ever splits into as many parts as it has members. *)
Definition suffix_adapter (st : unit) (s : string) : outcome string * unit :=
  (Returns (s ++ "|||x")%string, st).

(** One block whose text has white space around it. *)
Definition padded_world : world Z unit :=
  world_of (Block "" 0%Z) [Block " a " 12%Z] tt.

(** A provider that upper-cases too, and counts its calls. *)
Definition counting_upper (st : nat) (s : string) : outcome string * nat :=
  (Returns (map_string upper s), S st).

(** The blocks of the scenario in another store, at other references. *)
Definition shuffled_world : world Z nat :=
  world_of (Block "" 0%Z)
    [Block "Test" 12%Z; Block "Hello" 24%Z; Block "world" 12%Z; Block "" 12%Z]
    7.

(** Two body lines of size 12 and a line of size 22. *)
Definition heading_blocks : list (block Z) :=
  [Block "t" 12%Z; Block "b" 12%Z; Block "h" 22%Z].

(** An iteration order: first occurrences, in list order. *)
Definition first_seen (sizes : list Z) : list Z := rev (nodup Z.eq_dec (rev sizes)).

(** A document whose [add_heading] never raises. *)
Definition never_raises (t : string) (level : nat) : bool := false.

(** Two blocks with nothing to translate. *)
Definition blank_world : world Z unit :=
  world_of (Block "" 0%Z) [Block "" 12%Z; Block "  " 10%Z] tt.

(** Three blocks of 4000, 2000 and 2000 characters. *)
Definition budget_input : list string :=
  [PyStr.replicate 4000 "a"; PyStr.replicate 2000 "b";
   PyStr.replicate 2000 "c"].

(** A provider that is down: every call raises an [Exception]. *)
Definition failing_adapter (st : unit) (s : string) : outcome string * unit :=
  (Raises, st).

(** A provider whose calls are interrupted: every call raises
    [KeyboardInterrupt]. *)
Definition interrupted_adapter (st : unit) (s : string)
  : outcome string * unit :=
  (RaisesBase, st).

(** A document whose [add_paragraph] always returns. *)
Definition paragraph_ok (t : string) : outcome unit := Returns tt.

(** What the XML of a document can hold: no control character but tab, line
    feed and carriage return. *)
Fixpoint xml_compatible (s : string) : bool :=
  match s with
  | EmptyString => true
  | String c s' =>
      let n := nat_of_ascii c in
      ((32 <=? n) || (n =? 9) || (n =? 10) || (n =? 13)) && xml_compatible s'
  end.

(** A document that refuses the other texts with [ValueError], in headings
    and in paragraphs alike. *)
Definition strict_heading (t : string) (level : nat) : bool :=
  negb (xml_compatible t).

Definition strict_paragraph (t : string) : outcome unit :=
  if xml_compatible t then Returns tt else Raises.

(** A line with a form feed in it. *)
Definition form_feed_blocks : list (block Z) :=
  [Block "t" 12%Z; Block (String (ascii_of_nat 12) "b") 12%Z].

(** Another iteration order: last occurrences, in list order. *)
Definition last_seen (sizes : list Z) : list Z := nodup Z.eq_dec sizes.

(** A document whose [add_heading] always raises. *)
Definition always_raises (t : string) (level : nat) : bool := true.

(** Integer positions and sizes, with the tolerance of 5 of line 31. *)
Definition far_z (a b : Z) : bool := (5 <? Z.abs (a - b))%Z.

(** Three words of a page, all on one line. *)
Definition line_words : list (word Z) :=
  [Word "Hello" 100%Z (Some 12%Z); Word "big" 102%Z (Some 14%Z);
   Word "world " 99%Z None].

(** The result list's values, the provider calls, or [None] on a raise. *)
Definition run_values {Size St}
  (translate : St -> string -> outcome string * St)
  (w : world Size St) (content_blocks : list addr)
  : option (list (block Size) * list (call_site * string)) :=
  match translate_content translate content_blocks w with
  | (Returns results, w') =>
      Some (read_blocks (w_heap w') results, w_calls w')
  | (Raises, _) => None
  | (RaisesBase, _) => None
  end.

Example strip_ex : PyStr.strip "  a b  " = "a b".
Proof. reflexivity. Qed.

Example split_ex : PyStr.split "|||" "a||||b|||" = ["a"; "|b"; ""].
Proof. reflexivity. Qed.

Example separator_length : String.length SEPARATOR = 5.
Proof. reflexivity. Qed.

Example batches_ex :
  make_batches ["Hello"; "world"; ""; " Test "]
  = [Batch (PyStr.join SEPARATOR ["Hello"; "world"; "Test"]) [0; 1; 3]].
Proof. reflexivity. Qed.

(** A first translatable block longer than the threshold makes the loop
    commit the still empty pending batch before it. *)
Example oversized_first_block :
  map (fun b => (b_indices b, String.length (b_text b)))
      (make_batches [PyStr.replicate 4001 "a"])
  = [([], 0); ([0], 4001)].
Proof. vm_compute. reflexivity. Qed.

(** The scenario of the specification: one call, every part in its place. *)
Example scenario_upper :
  run_values upper_adapter scenario_world [0; 1; 2; 3]
  = Some ([Block "HELLO" 24%Z; Block "WORLD" 12%Z; Block "" 12%Z;
           Block "TEST" 12%Z],
          [(WholeBatch, PyStr.join SEPARATOR ["Hello"; "world"; "Test"])]).
Proof. vm_compute. reflexivity. Qed.

(** ** The batching loop: which indices end up where *)

Section Batcher.

Lemma batch_step_lengths st i raw :
  List.length (current_batch_text st) = List.length (current_batch_indices st) ->
  List.length (current_batch_text (batch_step st i raw))
  = List.length (current_batch_indices (batch_step st i raw)).
Proof.
  intros H. unfold batch_step.
  destruct (PyStr.is_empty (PyStr.strip raw)); [exact H|].
  destruct (4000 <? _); simpl; [reflexivity|].
  rewrite !length_app, H. reflexivity.
Qed.

Lemma batch_loop_lengths texts : forall i st,
  List.length (current_batch_text st) = List.length (current_batch_indices st) ->
  List.length (current_batch_text (batch_loop i texts st))
  = List.length (current_batch_indices (batch_loop i texts st)).
Proof.
  induction texts as [|raw rest IH]; intros i st H; simpl; [exact H|].
  apply IH, batch_step_lengths, H.
Qed.

Lemma batch_step_all_indices st i raw :
  all_indices (batch_step st i raw)
  = all_indices st ++ (if translatable raw then [i] else []).
Proof.
  unfold batch_step, translatable, all_indices.
  destruct (PyStr.is_empty (PyStr.strip raw)); simpl.
  - now rewrite app_nil_r.
  - destruct (4000 <? _); simpl.
    + rewrite map_app, concat_app. simpl. now rewrite app_nil_r.
    + now rewrite app_assoc.
Qed.

Lemma batch_loop_all_indices texts : forall i st,
  all_indices (batch_loop i texts st)
  = all_indices st
    ++ filter (fun j => translatable (nth (j - i) texts EmptyString))
              (seq i (List.length texts)).
Proof.
  induction texts as [|raw rest IH]; intros i st; simpl.
  - now rewrite app_nil_r.
  - rewrite IH, batch_step_all_indices, <- app_assoc. f_equal.
    rewrite Nat.sub_diag.
    assert (E : filter (fun j => translatable (nth (j - S i) rest EmptyString))
                  (seq (S i) (List.length rest))
                = filter (fun j => translatable
                            match j - i with
                            | 0 => raw
                            | S m => nth m rest EmptyString
                            end)
                    (seq (S i) (List.length rest))).
    { apply filter_ext_in. intros j Hj. apply in_seq in Hj.
      replace (j - i) with (S (j - S i)) by lia. reflexivity. }
    rewrite E. now destruct (translatable raw).
Qed.

Lemma finish_members st :
  List.length (current_batch_text st) = List.length (current_batch_indices st) ->
  members (finish st) = all_indices st.
Proof.
  unfold finish, members, all_indices, commit. intros H.
  destruct (current_batch_text st) as [|t ts].
  - destruct (current_batch_indices st); [|discriminate].
    now rewrite app_nil_r.
  - rewrite map_app, concat_app. simpl. now rewrite app_nil_r.
Qed.

(** The member indices of all batches, in batch order, are the positions of
    the translatable blocks, in order. *)
Lemma make_batches_members texts :
  members (make_batches texts) = translatable_indices texts.
Proof.
  unfold make_batches. rewrite finish_members.
  - rewrite batch_loop_all_indices. simpl. unfold translatable_indices.
    apply filter_ext. intros j. now rewrite Nat.sub_0_r.
  - apply batch_loop_lengths. reflexivity.
Qed.

Lemma sorted_seq n : forall a, StronglySorted lt (seq a n).
Proof.
  induction n as [|n IH]; intros a; simpl; constructor.
  - apply IH.
  - apply Forall_forall. intros x Hx. apply in_seq in Hx. lia.
Qed.

Lemma sorted_filter (f : nat -> bool) l :
  StronglySorted lt l -> StronglySorted lt (filter f l).
Proof.
  induction 1 as [|a l Hs IH Ha]; simpl; [constructor|].
  destruct (f a); [|exact IH].
  constructor; [exact IH|].
  apply Forall_forall. intros x Hx. apply filter_In in Hx.
  rewrite Forall_forall in Ha. apply Ha, Hx.
Qed.

Lemma sorted_app_inv (l1 l2 : list nat) :
  StronglySorted lt (l1 ++ l2) ->
  StronglySorted lt l1 /\ StronglySorted lt l2.
Proof.
  induction l1 as [|a l1 IH]; simpl; intros H.
  - split; [constructor|exact H].
  - apply StronglySorted_inv in H. destruct H as [H Ha].
    destruct (IH H) as [H1 H2]. split; [|exact H2].
    constructor; [exact H1|].
    apply Forall_app in Ha. apply Ha.
Qed.

Lemma sorted_concat_each (ls : list (list nat)) :
  StronglySorted lt (List.concat ls) -> Forall (StronglySorted lt) ls.
Proof.
  induction ls as [|l ls IH]; simpl; intros H; constructor.
  - apply (sorted_app_inv _ _ H).
  - apply IH, (sorted_app_inv _ _ H).
Qed.

Lemma sorted_NoDup (l : list nat) : StronglySorted lt l -> NoDup l.
Proof.
  induction 1 as [|a l Hs IH Ha]; constructor; [|exact IH].
  intros Hin. rewrite Forall_forall in Ha. specialize (Ha a Hin). lia.
Qed.

Lemma translatable_indices_sorted texts :
  StronglySorted lt (translatable_indices texts).
Proof. apply sorted_filter, sorted_seq. Qed.

Lemma translatable_indices_spec texts i :
  In i (translatable_indices texts)
  <-> i < List.length texts /\ translatable (nth i texts EmptyString) = true.
Proof.
  unfold translatable_indices. rewrite filter_In, in_seq. intuition lia.
Qed.

Lemma in_members bs i :
  In i (members bs) <-> exists b, In b bs /\ In i (b_indices b).
Proof.
  unfold members. rewrite in_concat. split.
  - intros [l [Hl Hi]]. apply in_map_iff in Hl.
    destruct Hl as [b [<- Hb]]. now exists b.
  - intros [b [Hb Hi]]. exists (b_indices b). split; [|exact Hi].
    now apply in_map.
Qed.

Lemma make_batches_valid texts b i :
  In b (make_batches texts) -> In i (b_indices b) ->
  i < List.length texts /\ translatable (nth i texts EmptyString) = true.
Proof.
  intros Hb Hi. apply translatable_indices_spec.
  rewrite <- make_batches_members. apply in_members. now exists b.
Qed.

Lemma make_batches_NoDup texts : NoDup (members (make_batches texts)).
Proof.
  rewrite make_batches_members.
  apply sorted_NoDup, translatable_indices_sorted.
Qed.

Lemma text_inv_step texts st i raw :
  nth i texts EmptyString = raw ->
  text_inv texts st -> text_inv texts (batch_step st i raw).
Proof.
  intros Hraw [Hcur Hall]. unfold batch_step.
  destruct (PyStr.is_empty (PyStr.strip raw)); [now split|].
  destruct (4000 <? _); unfold text_inv; simpl.
  - split; [now rewrite Hraw|].
    apply Forall_app. split; [exact Hall|].
    constructor; [|constructor]. unfold joined, commit. simpl. now rewrite Hcur.
  - split; [|exact Hall]. now rewrite map_app, Hcur, <- Hraw.
Qed.

Lemma text_inv_loop texts rest : forall i st,
  (forall k, k < List.length rest ->
             nth (i + k) texts EmptyString = nth k rest EmptyString) ->
  text_inv texts st -> text_inv texts (batch_loop i rest st).
Proof.
  induction rest as [|raw rest IH]; intros i st Hnth H; simpl; [exact H|].
  apply IH.
  - intros k Hk. replace (S i + k) with (i + S k) by lia.
    apply (Hnth (S k)). simpl. lia.
  - apply text_inv_step; [|exact H].
    rewrite <- (Nat.add_0_r i). apply (Hnth 0). simpl. lia.
Qed.

(** The text of every batch is the join of its members' trimmed texts. *)
Lemma make_batches_joined texts : Forall (joined texts) (make_batches texts).
Proof.
  unfold make_batches.
  assert (H : text_inv texts (batch_loop 0 texts bstate_init)).
  { apply text_inv_loop; [reflexivity|]. split; [reflexivity|constructor]. }
  destruct H as [Hcur Hall]. unfold finish.
  destruct (current_batch_text (batch_loop 0 texts bstate_init)) eqn:E;
    [exact Hall|].
  apply Forall_app. split; [exact Hall|].
  constructor; [|constructor]. unfold joined, commit. simpl.
  now rewrite E, Hcur.
Qed.

Lemma length_append (s1 s2 : string) :
  String.length (s1 ++ s2) = String.length s1 + String.length s2.
Proof. induction s1 as [|c s1 IH]; simpl; [reflexivity|]. now rewrite IH. Qed.

Lemma join_snoc_length sep t l :
  String.length (PyStr.join sep (l ++ [t]))
  = match l with
    | [] => String.length t
    | _ :: _ =>
        String.length (PyStr.join sep l) + String.length sep + String.length t
    end.
Proof.
  induction l as [|x l IH]; [reflexivity|].
  destruct l as [|y l].
  - simpl. rewrite !length_append. lia.
  - change (PyStr.join sep ((x :: y :: l) ++ [t]))
      with (x ++ sep ++ PyStr.join sep ((y :: l) ++ [t]))%string.
    change (PyStr.join sep (x :: y :: l))
      with (x ++ sep ++ PyStr.join sep (y :: l))%string.
    rewrite !length_append, IH. lia.
Qed.

Lemma loop_inv_step st i raw : loop_inv st -> loop_inv (batch_step st i raw).
Proof.
  intros (Hlen & Hcount & Hnear & Hall). unfold batch_step.
  destruct (PyStr.is_empty (PyStr.strip raw)); [repeat split; assumption|].
  set (t := PyStr.strip raw) in *.
  assert (Hsep : String.length SEPARATOR = 5) by reflexivity.
  destruct (Nat.ltb_spec 4000 (current_char_count st + String.length t))
    as [Hover|Hfits].
  - unfold loop_inv, near_budget, commit. cbn [batches current_batch_text
      current_batch_indices current_char_count b_text b_indices PyStr.join
      List.length].
    split; [reflexivity|]. split; [lia|]. split; [left; lia|].
    apply Forall_app. split; [exact Hall|]. constructor; [exact Hnear|constructor].
  - unfold loop_inv, near_budget, commit in *. cbn [batches current_batch_text
      current_batch_indices current_char_count b_text b_indices] in *.
    rewrite !length_app. cbn [List.length].
    split; [lia|].
    pose proof (join_snoc_length SEPARATOR t (current_batch_text st)) as J.
    destruct (current_batch_text st) as [|t0 ts] eqn:E.
    + cbn [app]. cbn [app] in J. split; [cbn [PyStr.join]; lia|].
      split; [left; simpl in Hlen; lia|exact Hall].
    + assert (Hcons : (t0 :: ts) ++ [t] = t0 :: (ts ++ [t])) by reflexivity.
      rewrite Hcons in *. rewrite J.
      split; [lia|]. split; [right; lia|exact Hall].
Qed.

Lemma loop_inv_loop texts : forall i st,
  loop_inv st -> loop_inv (batch_loop i texts st).
Proof.
  induction texts as [|raw rest IH]; intros i st H; simpl; [exact H|].
  apply IH, loop_inv_step, H.
Qed.

(** Every batch has at most one member or a joined text of at most 4005
    characters: the threshold and one separator. *)
Lemma make_batches_near_budget texts :
  Forall near_budget (make_batches texts).
Proof.
  unfold make_batches.
  assert (H : loop_inv (batch_loop 0 texts bstate_init)).
  { apply loop_inv_loop. unfold loop_inv, near_budget. simpl.
    repeat split; try reflexivity; [left; lia|constructor]. }
  destruct H as (_ & _ & Hnear & Hall). unfold finish.
  destruct (current_batch_text (batch_loop 0 texts bstate_init));
    [exact Hall|].
  apply Forall_app. split; [exact Hall|]. constructor; [exact Hnear|constructor].
Qed.

(** Two blocks of trimmed length 3000 go to two batches. *)
Lemma two_fragments_of_3000 t0 t1 :
  String.length (PyStr.strip t0) = 3000 ->
  String.length (PyStr.strip t1) = 3000 ->
  make_batches [t0; t1]
  = [Batch (PyStr.strip t0) [0]; Batch (PyStr.strip t1) [1]].
Proof.
  intros H0 H1. unfold make_batches. cbn [batch_loop]. unfold batch_step.
  destruct (PyStr.strip t0) as [|c0 s0] eqn:E0; [discriminate|].
  cbn [PyStr.is_empty bstate_init current_char_count].
  destruct (Nat.ltb_spec 4000 (0 + String.length (String c0 s0))) as [H|_];
    [lia|].
  cbn [batches current_batch_text current_batch_indices current_char_count].
  destruct (PyStr.strip t1) as [|c1 s1] eqn:E1; [discriminate|].
  cbn [PyStr.is_empty].
  destruct (Nat.ltb_spec 4000
              (0 + (String.length (String c0 s0) + String.length SEPARATOR)
               + String.length (String c1 s1))) as [_|H]; [|lia].
  reflexivity.
Qed.

End Batcher.

(** ** A small program logic for the monad *)

Section Logic.

Context {Size St : Type}.

Lemma returns_ret {A} (a : A) : returns (ret a : M Size St A).
Proof. intros w. now exists a. Qed.

Lemma returns_bind {A B} (m : M Size St A) (k : A -> M Size St B) :
  returns m -> (forall a, returns (k a)) -> returns (bind m k).
Proof.
  intros Hm Hk w. unfold bind. destruct (Hm w) as [a Ha].
  destruct (m w) as [r w']. simpl in Ha. subst r. apply Hk.
Qed.

(** A handler that never raises makes the whole [try] with a bare [except:]
    never raise. *)
Lemma returns_try {A} (body handler : M Size St A) :
  returns handler -> returns (try_except body handler).
Proof.
  intros Hh w. unfold try_except. destruct (body w) as [[a| |] w'].
  - now exists a.
  - apply Hh.
  - apply Hh.
Qed.

Lemma returns_for_each {X} (body : X -> M Size St unit) (l : list X) :
  (forall x, returns (body x)) -> returns (for_each l body).
Proof.
  intros Hb. induction l as [|x l IH]; simpl.
  - apply returns_ret.
  - apply returns_bind; [apply Hb|intros _; exact IH].
Qed.

Lemma returns_only_Exception {A} (m : M Size St A) :
  returns m -> raises_Exception_only m.
Proof. intros H w E. destruct (H w) as [a Ha]. congruence. Qed.

Lemma only_Exception_bind {A B} (m : M Size St A) (k : A -> M Size St B) :
  raises_Exception_only m -> (forall a, raises_Exception_only (k a)) ->
  raises_Exception_only (bind m k).
Proof.
  intros Hm Hk w. unfold bind. specialize (Hm w).
  destruct (m w) as [[a| |] w']; simpl in *.
  - apply Hk.
  - discriminate.
  - congruence.
Qed.

Lemma only_Exception_for_each {X} (body : X -> M Size St unit) (l : list X) :
  (forall x, raises_Exception_only (body x)) ->
  raises_Exception_only (for_each l body).
Proof.
  intros Hb. induction l as [|x l IH]; simpl.
  - apply returns_only_Exception, returns_ret.
  - apply only_Exception_bind; [apply Hb|intros _; exact IH].
Qed.

(** What [l[i]] raises is an [IndexError]. *)
Lemma only_Exception_index {A} (l : list A) i :
  raises_Exception_only (index l i : M Size St A).
Proof. intros w. unfold index. destruct (nth_error l i); discriminate. Qed.

(** With [except Exception], the [try] never raises when its body raises
    only [Exception]s and its handler never raises. *)
Lemma returns_try_Exception {A} (body handler : M Size St A) :
  raises_Exception_only body -> returns handler ->
  returns (try_except_Exception body handler).
Proof.
  intros Hb Hh w. unfold try_except_Exception. specialize (Hb w).
  destruct (body w) as [[a| |] w']; simpl in *.
  - now exists a.
  - apply Hh.
  - congruence.
Qed.

Lemma for_each_app {X} (body : X -> M Size St unit) (l1 l2 : list X) :
  forall w,
    for_each (l1 ++ l2) body w
    = match for_each l1 body w with
      | (Returns _, w') => for_each l2 body w'
      | (Raises, w') => (Raises, w')
      | (RaisesBase, w') => (RaisesBase, w')
      end.
Proof.
  induction l1 as [|x l1 IH]; intros w; simpl; [reflexivity|].
  unfold bind. destruct (body x w) as [[[]| |] w']; [apply IH|reflexivity..].
Qed.

Section Respects.

Variable R : world Size St -> world Size St -> Prop.
Hypothesis R_refl : forall w, R w w.
Hypothesis R_trans : forall w1 w2 w3, R w1 w2 -> R w2 w3 -> R w1 w3.

Lemma respects_ret {A} (a : A) : respects R (ret a : M Size St A).
Proof. intros w. apply R_refl. Qed.

Lemma respects_bind {A B} (m : M Size St A) (k : A -> M Size St B) :
  respects R m -> (forall a, respects R (k a)) -> respects R (bind m k).
Proof.
  intros Hm Hk w. unfold bind. specialize (Hm w).
  destruct (m w) as [[a| |] w']; simpl in *.
  - eapply R_trans; [exact Hm|apply Hk].
  - exact Hm.
  - exact Hm.
Qed.

Lemma respects_try {A} (body handler : M Size St A) :
  respects R body -> respects R handler ->
  respects R (try_except body handler).
Proof.
  intros Hb Hh w. unfold try_except. specialize (Hb w).
  destruct (body w) as [[a| |] w']; simpl in *.
  - exact Hb.
  - eapply R_trans; [exact Hb|apply Hh].
  - eapply R_trans; [exact Hb|apply Hh].
Qed.

Lemma respects_try_Exception {A} (body handler : M Size St A) :
  respects R body -> respects R handler ->
  respects R (try_except_Exception body handler).
Proof.
  intros Hb Hh w. unfold try_except_Exception. specialize (Hb w).
  destruct (body w) as [[a| |] w']; simpl in *.
  - exact Hb.
  - eapply R_trans; [exact Hb|apply Hh].
  - exact Hb.
Qed.

Lemma respects_for_each {X} (body : X -> M Size St unit) (l : list X) :
  (forall x, In x l -> respects R (body x)) -> respects R (for_each l body).
Proof.
  induction l as [|x l IH]; simpl; intros Hb.
  - apply respects_ret.
  - apply respects_bind.
    + apply Hb. now left.
    + intros _. apply IH. intros y Hy. apply Hb. now right.
Qed.

Lemma respects_index {A} (l : list A) i : respects R (index l i).
Proof. intros w. unfold index. destruct (nth_error l i); apply R_refl. Qed.

Lemma respects_get_text a : respects R (get_text a).
Proof. intros w. apply R_refl. Qed.

End Respects.

Lemma touches_refl n0 T B (w : world Size St) : touches n0 T B w w.
Proof.
  repeat split; try reflexivity.
  exists []. split; [now rewrite app_nil_r|constructor].
Qed.

Lemma touches_trans n0 T B (w1 w2 w3 : world Size St) :
  touches n0 T B w1 w2 -> touches n0 T B w2 w3 -> touches n0 T B w1 w3.
Proof.
  intros (N1 & S1 & C1 & l1 & L1 & F1) (N2 & S2 & C2 & l2 & L2 & F2).
  split; [congruence|]. split; [intros a; now rewrite S2|].
  split; [intros a Ha; now rewrite C2, C1|].
  exists (l1 ++ l2). split.
  - now rewrite L2, L1, app_assoc.
  - apply Forall_app. now split.
Qed.

Lemma touches_mono n0 (T T' : nat -> Prop) (B B' : string -> Prop)
  (w w' : world Size St) :
  (forall i, T i -> T' i) -> (forall s, B s -> B' s) ->
  touches n0 T B w w' -> touches n0 T' B' w w'.
Proof.
  intros HT HB (N & S & C & l & L & F).
  split; [exact N|]. split; [exact S|]. split.
  - intros a Ha. apply C. intros i Hi. apply Ha, HT, Hi.
  - exists l. split; [exact L|].
    eapply Forall_impl; [|exact F]. intros c [[Hc Hs]|[i [Hi Hc]]].
    + left. split; [exact Hc|apply HB, Hs].
    + right. exists i. split; [apply HT, Hi|exact Hc].
Qed.

End Logic.

(** Discharges the reflexivity and transitivity premises of the rules of
    [respects] at the relation [touches]. *)
Ltac frame_side :=
  lazymatch goal with
  | |- forall w, touches _ _ _ w w => apply touches_refl
  | |- forall w1 w2 w3, touches _ _ _ w1 w2 -> _ => apply touches_trans
  | _ => idtac
  end.

(** ** What the pipeline may change *)

Section Frame.

Context {Size St : Type}.
Variable translate : St -> string -> outcome string * St.

(** The first reference of the result list, and its length. *)
Variables n0 n : nat.
Variable content_blocks : list addr.

Lemma touches_store (T : nat -> Prop) B idx t :
  T idx ->
  respects (touches (St:=St) (Size:=Size) n0 T B) (store_text (n0 + idx) t).
Proof.
  intros HT w. unfold touches, store_text, set_cell. simpl.
  split; [reflexivity|]. split; [|split].
  - intros a. destruct (a =? n0 + idx) eqn:E; [|reflexivity].
    apply Nat.eqb_eq in E. now subst a.
  - intros a Ha. destruct (a =? n0 + idx) eqn:E; [|reflexivity].
    apply Nat.eqb_eq in E. exfalso. exact (Ha idx HT E).
  - exists []. split; [now rewrite app_nil_r|constructor].
Qed.

Lemma touches_assign_part (T : nat -> Prop) B idx part :
  T idx ->
  respects (touches (St:=St) (Size:=Size) n0 T B)
    (assign_part (seq n0 n) idx part).
Proof.
  intros HT w. unfold assign_part, bind, index.
  rewrite nth_error_seq. destruct (idx <? n).
  - apply touches_store, HT.
  - apply touches_refl.
Qed.

Lemma touches_call (T : nat -> Prop) (B : string -> Prop) site s :
  ((site = WholeBatch /\ B s) \/ exists i, T i /\ site = Member i) ->
  respects (touches (Size:=Size) n0 T B) (call_translate translate site s).
Proof.
  intros Hs w. unfold call_translate.
  destruct (translate (w_tr w) s) as [r st']. simpl.
  repeat split; try reflexivity.
  exists [(site, s)]. split; [reflexivity|].
  constructor; [exact Hs|constructor].
Qed.

Lemma touches_assign_translation (T : nat -> Prop) B idx :
  T idx ->
  respects (touches n0 T B)
    (assign_translation (Size:=Size) translate content_blocks (seq n0 n) idx).
Proof.
  intros HT. unfold assign_translation.
  apply respects_bind; frame_side.
  { apply respects_index; frame_side. }
  intros b. apply respects_bind; frame_side.
  { apply respects_get_text; frame_side. }
  intros t. apply respects_bind; frame_side.
  { apply touches_call. right. now exists idx. }
  intros tr. apply touches_assign_part, HT.
Qed.

Lemma touches_fallback (T : nat -> Prop) B indices :
  (forall idx, In idx indices -> T idx) ->
  respects (touches n0 T B)
    (fallback (Size:=Size) translate content_blocks (seq n0 n) indices).
Proof.
  intros HT. unfold fallback.
  apply respects_for_each; frame_side.
  intros idx Hidx.
  apply respects_try; frame_side.
  - apply touches_assign_translation, HT, Hidx.
  - apply respects_ret; frame_side.
Qed.

(** Whether it returns or lets an exception through, one batch changes the
    results of its own members only. *)
Lemma touches_process_batch b :
  respects (touches n0 (fun i => In i (b_indices b)) (fun s => s = b_text b))
    (process_batch (Size:=Size) translate content_blocks (seq n0 n) b).
Proof.
  unfold process_batch.
  apply respects_try_Exception; frame_side.
  - apply respects_bind; frame_side.
    { apply touches_call. left. now split. }
    intros chunk. simpl.
    destruct (_ =? _).
    + apply respects_for_each; frame_side.
      intros [idx part] Hin. simpl.
      apply touches_assign_part. eapply in_combine_l, Hin.
    + apply touches_fallback. auto.
  - apply touches_fallback. auto.
Qed.

Lemma touches_batches bs :
  respects (touches n0 (fun i => In i (members bs))
              (fun s => exists b, In b bs /\ s = b_text b))
    (for_each bs (process_batch (Size:=Size) translate content_blocks (seq n0 n))).
Proof.
  apply respects_for_each; frame_side.
  intros b Hb w. eapply touches_mono; [| |apply touches_process_batch].
  - intros i Hi. apply in_members. now exists b.
  - intros s Hs. now exists b.
Qed.

(** The per-member loop swallows every exception. *)
Lemma fallback_returns results indices :
  returns (fallback (Size:=Size) translate content_blocks results indices).
Proof.
  unfold fallback. apply returns_for_each. intros idx.
  apply returns_try, returns_ret.
Qed.

Lemma only_Exception_assign_part results idx part :
  raises_Exception_only (assign_part (Size:=Size) (St:=St) results idx part).
Proof.
  unfold assign_part. apply only_Exception_bind.
  - apply only_Exception_index.
  - intros r w. discriminate.
Qed.

(** Processing a batch lets one exception through and no other: the one
    that the call on the joined text raises and that is not an
    [Exception]. *)
Lemma process_batch_outcome results b (w : world Size St) :
  fst (process_batch translate content_blocks results b w)
  = batch_outcome translate b w.
Proof.
  unfold batch_outcome.
  set (k := fun translated_chunk : string =>
         let parts := map PyStr.strip (PyStr.split "|||" translated_chunk) in
         if List.length parts =? List.length (b_indices b)
         then for_each (combine (b_indices b) parts)
                (fun ip => assign_part (Size:=Size) (St:=St)
                             results (fst ip) (snd ip))
         else fallback translate content_blocks results (b_indices b)).
  change (process_batch translate content_blocks results b)
    with (try_except_Exception
            (bind (call_translate translate WholeBatch (b_text b)) k)
            (fallback translate content_blocks results (b_indices b))).
  unfold try_except_Exception at 1, bind at 1, call_translate.
  destruct (translate (w_tr w) (b_text b)) as [[chunk| |] st']; cbn [fst].
  - set (w1 := World (w_heap w) st' (w_calls w ++ [(WholeBatch, b_text b)])).
    assert (Hk : returns (try_except_Exception (k chunk)
                            (fallback translate content_blocks results
                               (b_indices b)))).
    { apply returns_try_Exception; [|apply fallback_returns].
      unfold k. cbv zeta. destruct (_ =? _).
      - apply only_Exception_for_each. intros ip.
        apply only_Exception_assign_part.
      - apply returns_only_Exception, fallback_returns. }
    destruct (Hk w1) as [[] Ha]. unfold try_except_Exception in Ha.
    destruct (k chunk w1) as [[[]| |] w2]; [reflexivity|exact Ha|exact Ha].
  - destruct (fallback_returns results (b_indices b)
                (World (w_heap w) st' (w_calls w ++ [(WholeBatch, b_text b)])))
      as [[] Ha].
    destruct (fallback _ _ _ _ _) as [o w2]. simpl in *. now subst o.
  - reflexivity.
Qed.

(** How a loop over batches ends: it returns, or it stops at the first
    batch whose call on the joined text raises an exception that is not an
    [Exception]. *)
Lemma batches_end results bs : forall (w : world Size St) o w',
  for_each bs (process_batch translate content_blocks results) w = (o, w') ->
  o = Returns tt
  \/ (o = RaisesBase
      /\ exists pre b post wp,
           bs = pre ++ b :: post
           /\ for_each pre (process_batch translate content_blocks results) w
              = (Returns tt, wp)
           /\ fst (translate (w_tr wp) (b_text b)) = RaisesBase).
Proof.
  induction bs as [|b bs IH]; intros w o w' H.
  - simpl in H. unfold ret in H. injection H as <- <-. now left.
  - simpl in H. unfold bind in H.
    pose proof (process_batch_outcome results b w) as Ho.
    unfold batch_outcome in Ho.
    destruct (process_batch translate content_blocks results b w)
      as [[[]| |] wb] eqn:Eb; simpl in Ho.
    + destruct (IH wb o w' H) as [->|(-> & pre & b' & post & wp & E & Ep & Hb)];
        [now left|right].
      split; [reflexivity|]. exists (b :: pre), b', post, wp.
      split; [now rewrite E|]. split; [|exact Hb].
      simpl. unfold bind. now rewrite Eb.
    + destruct (fst (translate (w_tr w) (b_text b))); discriminate.
    + injection H as <- <-. right. split; [reflexivity|].
      exists [], b, bs, w. split; [reflexivity|]. split; [reflexivity|].
      destruct (fst (translate (w_tr w) (b_text b)));
        [discriminate|discriminate|reflexivity].
Qed.

End Frame.

(** ** The steps in range: the code as state transformers *)

Section Steps.

Context {Size St : Type}.
Variable translate : St -> string -> outcome string * St.
Variable n0 : nat.
Variable content_blocks : list addr.

Let n := List.length content_blocks.
Let results := seq n0 n.

Lemma assign_part_valid idx part (w : world Size St) :
  idx < n ->
  assign_part results idx part w = (Returns tt, put_text (n0 + idx) part w).
Proof.
  intros H. unfold assign_part, bind, index, results.
  rewrite nth_error_seq. apply Nat.ltb_lt in H. rewrite H. reflexivity.
Qed.

Lemma put_parts_valid ips : forall w : world Size St,
  Forall (fun ip => fst ip < n) ips ->
  for_each ips (fun ip => assign_part results (fst ip) (snd ip)) w
  = (Returns tt, put_parts n0 ips w).
Proof.
  induction ips as [|ip ips IH]; intros w H; simpl; [reflexivity|].
  inversion H; subst. unfold bind.
  rewrite assign_part_valid by assumption. now apply IH.
Qed.

Lemma member_valid idx (w : world Size St) :
  idx < n ->
  try_except (assign_translation translate content_blocks results idx)
             (ret tt) w
  = (Returns tt, after_member translate n0 content_blocks idx w).
Proof.
  intros H. unfold try_except, assign_translation, bind, index, get_text.
  destruct (nth_error content_blocks idx) as [a|] eqn:E.
  2:{ apply nth_error_None in E. unfold n in H. lia. }
  unfold after_member, addr in *. rewrite (nth_error_nth _ _ 0 E).
  unfold call_translate.
  destruct (translate (w_tr w) (text (cells (w_heap w) a))) as [[t| |] st'];
    simpl.
  - fold (note_call (Member idx) (text (cells (w_heap w) a)) st' w).
    fold (bind (A:=addr) (B:=unit) (Size:=Size) (St:=St)).
    change (bind (index results idx) (fun r => store_text r t))
      with (assign_part (Size:=Size) (St:=St) results idx t).
    now rewrite assign_part_valid.
  - reflexivity.
  - reflexivity.
Qed.

Lemma fallback_valid indices : forall w : world Size St,
  Forall (fun idx => idx < n) indices ->
  fallback translate content_blocks results indices w
  = (Returns tt, after_fallback translate n0 content_blocks indices w).
Proof.
  induction indices as [|idx rest IH]; intros w H; [reflexivity|].
  inversion H; subst. unfold fallback. simpl. unfold bind.
  rewrite member_valid by assumption. now apply IH.
Qed.

(** One batch: how it ends, and the state it leaves. *)
Lemma process_batch_valid b (w : world Size St) :
  Forall (fun idx => idx < n) (b_indices b) ->
  process_batch translate content_blocks results b w
  = (batch_outcome translate b w,
     after_batch translate n0 content_blocks b w).
Proof.
  intros H.
  unfold process_batch, try_except_Exception, bind, call_translate,
    after_batch, batch_outcome.
  destruct (translate (w_tr w) (b_text b)) as [[chunk| |] st']; simpl.
  - fold (note_call WholeBatch (b_text b) st' w).
    destruct (_ =? _) eqn:E.
    + rewrite put_parts_valid; [reflexivity|].
      apply Forall_forall. intros [idx part] Hin. simpl.
      rewrite Forall_forall in H. eapply H, in_combine_l, Hin.
    + now rewrite fallback_valid.
  - fold (note_call WholeBatch (b_text b) st' w). now rewrite fallback_valid.
  - reflexivity.
Qed.

(** The loop over batches of a provider that raises nothing but
    [Exception]s on their joined texts. *)
Lemma batches_valid bs : forall w : world Size St,
  Forall (fun idx => idx < n) (members bs) ->
  (forall b st, In b bs -> fst (translate st (b_text b)) <> RaisesBase) ->
  for_each bs (process_batch translate content_blocks results) w
  = (Returns tt, after_batches translate n0 content_blocks bs w).
Proof.
  induction bs as [|b bs IH]; intros w H Hne; [reflexivity|].
  unfold members in H. simpl in H. apply Forall_app in H. destruct H as [Hb Hbs].
  simpl. unfold bind. rewrite process_batch_valid by assumption.
  assert (Ho : batch_outcome translate b w = Returns tt).
  { unfold batch_outcome.
    pose proof (Hne b (w_tr w) (or_introl eq_refl)) as Hb'.
    destruct (fst (translate (w_tr w) (b_text b)));
      [reflexivity|reflexivity|contradiction]. }
  rewrite Ho. apply IH; [exact Hbs|].
  intros b' st Hin. apply Hne. now right.
Qed.

End Steps.

(** ** The whole run *)

Section Run.

Context {Size St : Type}.
Variable translate : St -> string -> outcome string * St.

(** The list comprehension of line 107 creates one new dictionary per block,
    equal to it, and leaves every existing dictionary alone. *)
Lemma copy_all_spec l : forall w : world Size St,
  well_formed w l ->
  exists w',
    copy_all l w = (Returns (seq (next (w_heap w)) (List.length l)), w')
    /\ next (w_heap w') = next (w_heap w) + List.length l
    /\ w_tr w' = w_tr w
    /\ w_calls w' = w_calls w
    /\ (forall a, a < next (w_heap w) ->
          cells (w_heap w') a = cells (w_heap w) a)
    /\ (forall i a, nth_error l i = Some a ->
          cells (w_heap w') (next (w_heap w) + i) = cells (w_heap w) a).
Proof.
  induction l as [|b rest IH]; intros w Hwf.
  - exists w. simpl. rewrite Nat.add_0_r. repeat split; try reflexivity.
    intros [|i] a; discriminate.
  - inversion Hwf as [|b' rest' Hb Hrest]; subst.
    set (w1 := World (snd (alloc (w_heap w) (cells (w_heap w) b)))
                 (w_tr w) (w_calls w)).
    destruct (IH w1) as (w' & E & N & T & C & Old & New).
    { unfold well_formed in *. simpl.
      eapply Forall_impl; [|exact Hrest]. simpl. intros a Ha. lia. }
    exists w'. simpl in *. unfold bind, copy. simpl. fold w1. rewrite E.
    split; [reflexivity|]. split; [lia|]. split; [exact T|].
    split; [exact C|]. split.
    + intros a Ha. rewrite Old by lia.
      destruct (a =? next (w_heap w)) eqn:Ea; [|reflexivity].
      apply Nat.eqb_eq in Ea. lia.
    + intros [|i] a Ea; simpl in Ea.
      * injection Ea as ->. rewrite Nat.add_0_r, Old by lia.
        now rewrite Nat.eqb_refl.
      * replace (next (w_heap w) + S i) with (S (next (w_heap w) + i)) by lia.
        rewrite (New i a Ea).
        destruct (a =? next (w_heap w)) eqn:Ea'; [|reflexivity].
        apply Nat.eqb_eq in Ea'. apply nth_error_In in Ea.
        unfold well_formed in Hrest. rewrite Forall_forall in Hrest.
        specialize (Hrest a Ea). lia.
Qed.

Lemma members_in_range (w0 : world Size St) content_blocks :
  Forall (fun idx => idx < List.length content_blocks)
    (members (make_batches (input_texts w0 content_blocks))).
Proof.
  rewrite make_batches_members. apply Forall_forall. intros i Hi.
  apply translatable_indices_spec in Hi. unfold input_texts in Hi.
  rewrite length_map in Hi. apply Hi.
Qed.

(** The run as a whole, whatever the provider does: the copy, then the
    batches; after the copy only the results of translatable blocks are
    written; the run ends as the loop over the batches does. *)
Lemma run_general (w0 : world Size St) content_blocks :
  well_formed w0 content_blocks ->
  let n0 := next (w_heap w0) in
  let n := List.length content_blocks in
  let texts := input_texts w0 content_blocks in
  exists wc o w1,
    copy_all content_blocks w0 = (Returns (seq n0 n), wc)
    /\ for_each (make_batches texts)
         (process_batch translate content_blocks (seq n0 n)) wc = (o, w1)
    /\ translate_content translate content_blocks w0
       = (outcome_map (fun _ => seq n0 n) o, w1)
    /\ touches n0 (fun i => In i (translatable_indices texts))
         (fun s => exists b, In b (make_batches texts) /\ s = b_text b) wc w1
    /\ run_end translate w0 content_blocks (outcome_map (fun _ => seq n0 n) o).
Proof.
  intros Hwf n0 n texts.
  destruct (copy_all_spec content_blocks w0 Hwf)
    as (wc & E & N & T & C & Old & New).
  fold n0 n in E.
  destruct (for_each (make_batches texts)
              (process_batch translate content_blocks (seq n0 n)) wc)
    as [o w1] eqn:Eb.
  exists wc, o, w1. split; [exact E|]. split; [exact Eb|].
  split; [|split].
  - unfold translate_content, bind, read_texts. cbv beta iota zeta.
    change (map (fun a => text (cells (w_heap w0) a)) content_blocks)
      with texts.
    rewrite E, Eb. destruct o as [[]| |]; reflexivity.
  - pose proof (touches_batches translate n0 n content_blocks
                  (make_batches texts) wc) as F.
    rewrite Eb in F. simpl in F.
    rewrite make_batches_members in F. exact F.
  - destruct (batches_end translate content_blocks (seq n0 n)
                (make_batches texts) wc o w1 Eb)
      as [->|(-> & pre & b & post & wp & Hbs & Ep & Hb)]; [exact I|].
    simpl. exists pre, b, post. split; [exact Hbs|].
    unfold reached, escapes_at, world_before, bind.
    rewrite E, Ep. split; [reflexivity|exact Hb].
Qed.

(** The run of a provider that raises nothing but [Exception]s on the
    joined texts of the batches: it returns, and the batches are processed
    one after the other. *)
Lemma run_spec (w0 : world Size St) content_blocks :
  well_formed w0 content_blocks ->
  let n0 := next (w_heap w0) in
  let n := List.length content_blocks in
  let texts := input_texts w0 content_blocks in
  (forall b st, In b (make_batches texts) ->
     fst (translate st (b_text b)) <> RaisesBase) ->
  exists wc w1,
    copy_all content_blocks w0 = (Returns (seq n0 n), wc)
    /\ translate_content translate content_blocks w0 = (Returns (seq n0 n), w1)
    /\ w1 = after_batches translate n0 content_blocks (make_batches texts) wc
    /\ touches n0 (fun i => In i (translatable_indices texts))
         (fun s => exists b, In b (make_batches texts) /\ s = b_text b) wc w1.
Proof.
  intros Hwf n0 n texts Hne.
  destruct (run_general w0 content_blocks Hwf)
    as (wc & o & w1 & Ec & Eb & E & F & _).
  fold n0 n texts in Ec, Eb, E, F.
  pose proof (batches_valid translate n0 content_blocks (make_batches texts) wc
                (members_in_range w0 content_blocks) Hne) as B.
  fold n in B. rewrite B in Eb. injection Eb as <- <-.
  exists wc, (after_batches translate n0 content_blocks (make_batches texts) wc).
  split; [exact Ec|]. split; [exact E|]. split; [reflexivity|exact F].
Qed.

(** With such a provider every batch is reached. *)
Lemma reached_no_raise (w0 : world Size St) content_blocks pre post :
  well_formed w0 content_blocks ->
  make_batches (input_texts w0 content_blocks) = pre ++ post ->
  (forall b st, In b pre -> fst (translate st (b_text b)) <> RaisesBase) ->
  reached translate content_blocks pre w0.
Proof.
  intros Hwf Hbs Hne.
  destruct (copy_all_spec content_blocks w0 Hwf) as (wc & Ec & _).
  pose proof (members_in_range w0 content_blocks) as V.
  rewrite Hbs in V. unfold members in V.
  rewrite map_app, concat_app in V. apply Forall_app in V. destruct V as [V _].
  unfold reached, bind. rewrite Ec.
  now rewrite (batches_valid translate (next (w_heap w0)) content_blocks pre
                 wc V Hne).
Qed.

End Run.

(** ** The run, seen from the caller *)

Section RunFacts.

Context {Size St : Type}.
Variable translate : St -> string -> outcome string * St.

Lemma nth_input_texts (w : world Size St) content_blocks i a :
  nth_error content_blocks i = Some a ->
  i < List.length (input_texts w content_blocks)
  /\ nth i (input_texts w content_blocks) EmptyString
     = text (cells (w_heap w) a).
Proof.
  intros E. unfold input_texts. split.
  - rewrite length_map. apply nth_error_Some. congruence.
  - apply nth_error_nth. now rewrite nth_error_map, E.
Qed.

(** What holds of every run, however it ends. *)
Lemma run_facts (w0 : world Size St) content_blocks :
  well_formed w0 content_blocks ->
  let n0 := next (w_heap w0) in
  let n := List.length content_blocks in
  let texts := input_texts w0 content_blocks in
  exists r w1,
    translate_content translate content_blocks w0 = (r, w1)
    /\ run_end translate w0 content_blocks r
    /\ (forall results, r = Returns results -> results = seq n0 n)
    /\ (forall a, a < n0 -> cells (w_heap w1) a = cells (w_heap w0) a)
    /\ (forall i a, nth_error content_blocks i = Some a ->
          size (cells (w_heap w1) (n0 + i)) = size (cells (w_heap w0) a))
    /\ (forall i a, nth_error content_blocks i = Some a ->
          translatable (text (cells (w_heap w0) a)) = false ->
          cells (w_heap w1) (n0 + i) = cells (w_heap w0) a)
    /\ exists l, w_calls w1 = w_calls w0 ++ l
         /\ Forall (fun c => (fst c = WholeBatch
                              /\ exists b, In b (make_batches texts)
                                           /\ snd c = b_text b)
                             \/ exists i, In i (translatable_indices texts)
                                          /\ fst c = Member i) l.
Proof.
  intros Hwf n0 n texts.
  destruct (run_general translate w0 content_blocks Hwf)
    as (wc & o & w1 & Ec & _ & E & (N & S & C & l & L & F) & Hend).
  destruct (copy_all_spec content_blocks w0 Hwf)
    as (wc' & Ec' & _ & _ & Cc & Old & New).
  fold n0 n in Ec'. rewrite Ec in Ec'. injection Ec' as <-.
  exists (outcome_map (fun _ => seq n0 n) o), w1.
  split; [exact E|]. split; [exact Hend|]. split; [|split; [|split; [|split]]].
  - intros results Hr. destruct o as [[]| |]; simpl in Hr;
      [injection Hr as <-; reflexivity|discriminate|discriminate].
  - intros a Ha. rewrite C, Old; [reflexivity|exact Ha|].
    intros i _. fold n0 in Ha. lia.
  - intros i a Ea. rewrite S. f_equal. now apply New.
  - intros i a Ea Ht. rewrite C; [now apply New|].
    intros j Hj Heq. assert (j = i) by lia. subst j.
    apply translatable_indices_spec in Hj.
    destruct (nth_input_texts w0 content_blocks i a Ea) as [_ Hn].
    unfold texts in Hj. rewrite Hn in Hj. destruct Hj as [_ Hj]. congruence.
  - exists l. split; [congruence|exact F].
Qed.

(** A run none of whose calls on a joined text raises an exception that is
    not an [Exception] returns. *)
Lemma run_returns (w0 : world Size St) content_blocks r w1 :
  translate_content translate content_blocks w0 = (r, w1) ->
  run_end translate w0 content_blocks r ->
  no_escape translate content_blocks w0 ->
  exists results, r = Returns results.
Proof.
  intros _ Hend Hno. destruct r as [results| |].
  - now exists results.
  - contradiction.
  - destruct Hend as (pre & b & post & Hbs & _ & Hesc).
    exfalso. exact (Hno pre b post Hbs Hesc).
Qed.

Lemma batch_loop_skip texts : forall i st,
  (forall t, In t texts -> translatable t = false) ->
  batch_loop i texts st = st.
Proof.
  induction texts as [|raw rest IH]; intros i st H; simpl; [reflexivity|].
  rewrite IH by (intros t Ht; apply H; now right).
  unfold batch_step. specialize (H raw (or_introl eq_refl)).
  unfold translatable in H. apply negb_false_iff in H. now rewrite H.
Qed.

Lemma no_translatable_no_batches texts :
  (forall t, In t texts -> translatable t = false) ->
  make_batches texts = [].
Proof.
  intros H. unfold make_batches. now rewrite batch_loop_skip.
Qed.

End RunFacts.

(** ** The claims about the run as a whole *)

(** C1 (order preservation), as the code has it.  On a well-formed input,
    whatever the provider does on the texts of single blocks, and when none
    of its calls on the joined text of a batch raises an exception that is
    not an [Exception], [translate_content] returns a list as long as the
    input, and the block at each position is the input block of that
    position with at most its text replaced. *)
Theorem C1_order_preserved :
  forall (Size St : Type) (translate : St -> string -> outcome string * St)
         (w0 : world Size St) (content_blocks : list addr),
    well_formed w0 content_blocks ->
    no_escape translate content_blocks w0 ->
    exists results w1,
      translate_content translate content_blocks w0 = (Returns results, w1)
      /\ List.length results = List.length content_blocks
      /\ forall i a, nth_error content_blocks i = Some a ->
           exists r t,
             nth_error results i = Some r
             /\ cells (w_heap w1) r = Block t (size (cells (w_heap w0) a)).
Proof.
  intros Size St translate w0 cbs Hwf Hno.
  destruct (run_facts translate w0 cbs Hwf)
    as (r & w1 & E & Hend & Hres & _ & S & _).
  destruct (run_returns translate w0 cbs r w1 E Hend Hno) as [results ->].
  rewrite (Hres results eq_refl) in *.
  exists (seq (next (w_heap w0)) (List.length cbs)), w1.
  split; [exact E|]. split; [apply length_seq|].
  intros i a Ea. exists (next (w_heap w0) + i), (text (cells (w_heap w1) (next (w_heap w0) + i))).
  split.
  - rewrite nth_error_seq.
    assert (Hi : i < List.length cbs) by (apply nth_error_Some; congruence).
    apply Nat.ltb_lt in Hi. now rewrite Hi.
  - rewrite <- (S i a Ea). now destruct (cells (w_heap w1) (next (w_heap w0) + i)).
Qed.

Lemma C1_order_preserved_witness :
  well_formed scenario_world [0; 1; 2; 3]
  /\ no_escape upper_adapter [0; 1; 2; 3] scenario_world
  /\ exists results w1,
       translate_content upper_adapter [0; 1; 2; 3] scenario_world
       = (Returns results, w1)
       /\ List.length results = 4
       /\ forall i a, nth_error [0; 1; 2; 3] i = Some a ->
            exists r t,
              nth_error results i = Some r
              /\ cells (w_heap w1) r
                 = Block t (size (cells (w_heap scenario_world) a)).
Proof.
  assert (H : well_formed scenario_world [0; 1; 2; 3]).
  { unfold well_formed. simpl. repeat constructor. }
  assert (Hno : no_escape upper_adapter [0; 1; 2; 3] scenario_world).
  { intros pre b post _ Hesc. unfold escapes_at in Hesc. simpl in Hesc.
    discriminate Hesc. }
  split; [exact H|]. split; [exact Hno|].
  exact (C1_order_preserved Z unit upper_adapter scenario_world [0; 1; 2; 3]
           H Hno).
Defined.

(** C1 as the specification words it fails for a provider that may raise
    anything on any call: when the call on the joined text of the batch
    raises [KeyboardInterrupt], the handler of line 142 does not catch it,
    no call is made for the members, and [translate_content] raises it
    instead of returning a list. *)
Lemma C1_interrupt_counterexample :
  well_formed scenario_world [0; 1; 2; 3]
  /\ fst (translate_content interrupted_adapter [0; 1; 2; 3] scenario_world)
     = RaisesBase
  /\ w_calls (snd (translate_content interrupted_adapter [0; 1; 2; 3]
                     scenario_world))
     = [(WholeBatch, PyStr.join SEPARATOR ["Hello"; "world"; "Test"])]
  /\ run_values interrupted_adapter scenario_world [0; 1; 2; 3] = None.
Proof.
  split; [unfold well_formed; simpl; repeat constructor|].
  split; [vm_compute; reflexivity|].
  split; vm_compute; reflexivity.
Qed.

(** C7 (frame).  However the run ends, it writes to no dictionary that
    existed before it, so the input blocks read the same afterwards; it
    ends with a result list unless a call on the joined text of a batch
    raised an exception that is not an [Exception]; and the result list
    holds new dictionaries only, each with the [size] of its input block.
    (The input list itself is a value here: the code never assigns to it.) *)
Theorem C7_input_untouched :
  forall (Size St : Type) (translate : St -> string -> outcome string * St)
         (w0 : world Size St) (content_blocks : list addr),
    well_formed w0 content_blocks ->
    exists r w1,
      translate_content translate content_blocks w0 = (r, w1)
      /\ run_end translate w0 content_blocks r
      /\ (forall a, a < next (w_heap w0) ->
            cells (w_heap w1) a = cells (w_heap w0) a)
      /\ read_blocks (w_heap w1) content_blocks
         = read_blocks (w_heap w0) content_blocks
      /\ forall results, r = Returns results ->
           Forall (fun r => next (w_heap w0) <= r) results
           /\ forall i a r, nth_error content_blocks i = Some a ->
                nth_error results i = Some r ->
                size (cells (w_heap w1) r) = size (cells (w_heap w0) a).
Proof.
  intros Size St translate w0 cbs Hwf.
  destruct (run_facts translate w0 cbs Hwf)
    as (r & w1 & E & Hend & Hres & Old & S & _).
  exists r, w1.
  split; [exact E|]. split; [exact Hend|]. split; [exact Old|]. split.
  - unfold read_blocks. apply map_ext_in. intros a Ha. apply Old.
    unfold well_formed in Hwf. rewrite Forall_forall in Hwf. now apply Hwf.
  - intros results ->. rewrite (Hres results eq_refl). split.
    + apply Forall_forall. intros r Hr. apply in_seq in Hr. lia.
    + intros i a r Ea Er. rewrite nth_error_seq in Er.
      destruct (i <? List.length cbs); [|discriminate].
      injection Er as <-. now apply S.
Qed.

Lemma C7_input_untouched_witness :
  well_formed scenario_world [0; 1; 2; 3]
  /\ exists r w1,
       translate_content upper_adapter [0; 1; 2; 3] scenario_world = (r, w1)
       /\ run_end upper_adapter scenario_world [0; 1; 2; 3] r
       /\ (forall a, a < next (w_heap scenario_world) ->
             cells (w_heap w1) a = cells (w_heap scenario_world) a)
       /\ read_blocks (w_heap w1) [0; 1; 2; 3]
          = read_blocks (w_heap scenario_world) [0; 1; 2; 3]
       /\ forall results, r = Returns results ->
            Forall (fun r => next (w_heap scenario_world) <= r) results
            /\ forall i a r, nth_error [0; 1; 2; 3] i = Some a ->
                 nth_error results i = Some r ->
                 size (cells (w_heap w1) r)
                 = size (cells (w_heap scenario_world) a).
Proof.
  assert (H : well_formed scenario_world [0; 1; 2; 3]).
  { unfold well_formed. simpl. repeat constructor. }
  split; [exact H|].
  exact (C7_input_untouched Z unit upper_adapter scenario_world [0; 1; 2; 3] H).
Defined.

(** C6 (empty-fragment passthrough).  A block whose text is empty or only
    white space is a member of no batch and, however the run ends, the
    provider is never called for it; the run ends with a result list unless
    a call on the joined text of a batch raised an exception that is not an
    [Exception], and the block's result is equal to it. *)
Theorem C6_blank_passthrough :
  forall (Size St : Type) (translate : St -> string -> outcome string * St)
         (w0 : world Size St) (content_blocks : list addr) (i : nat) (a : addr),
    well_formed w0 content_blocks ->
    nth_error content_blocks i = Some a ->
    PyStr.strip (text (cells (w_heap w0) a)) = EmptyString ->
    (forall b, In b (make_batches (input_texts w0 content_blocks)) ->
               ~ In i (b_indices b))
    /\ exists r w1 calls,
         translate_content translate content_blocks w0 = (r, w1)
         /\ run_end translate w0 content_blocks r
         /\ (forall results, r = Returns results ->
               exists a', nth_error results i = Some a'
                          /\ cells (w_heap w1) a' = cells (w_heap w0) a)
         /\ w_calls w1 = w_calls w0 ++ calls
         /\ Forall (fun c =>
                      (exists j, j <> i /\ fst c = Member j)
                      \/ (fst c = WholeBatch
                          /\ exists b,
                               In b (make_batches
                                       (input_texts w0 content_blocks))
                               /\ ~ In i (b_indices b)
                               /\ snd c
                                  = PyStr.join SEPARATOR
                                      (map (fun j =>
                                              PyStr.strip
                                                (nth j (input_texts w0
                                                          content_blocks)
                                                   EmptyString))
                                         (b_indices b)))) calls.
Proof.
  intros Size St translate w0 cbs i a Hwf Ea Hs.
  assert (Ht : translatable (text (cells (w_heap w0) a)) = false).
  { unfold translatable. now rewrite Hs. }
  assert (Hni : ~ In i (translatable_indices (input_texts w0 cbs))).
  { intros Hi. apply translatable_indices_spec in Hi.
    destruct (nth_input_texts w0 cbs i a Ea) as [_ Hn].
    rewrite Hn in Hi. destruct Hi as [_ Hi]. congruence. }
  assert (Hnb : forall b, In b (make_batches (input_texts w0 cbs)) ->
                          ~ In i (b_indices b)).
  { intros b Hb Hi. apply Hni. rewrite <- make_batches_members.
    apply in_members. now exists b. }
  split; [exact Hnb|].
  - destruct (run_facts translate w0 cbs Hwf)
      as (r & w1 & E & Hend & Hres & _ & _ & Keep & l & L & F).
    exists r, w1, l.
    split; [exact E|]. split; [exact Hend|]. split; [|split].
    + intros results ->. rewrite (Hres results eq_refl).
      exists (next (w_heap w0) + i). split; [|now apply Keep].
      rewrite nth_error_seq.
      assert (Hi : i < List.length cbs) by (apply nth_error_Some; congruence).
      apply Nat.ltb_lt in Hi. now rewrite Hi.
    + exact L.
    + eapply Forall_impl; [|exact F].
      intros c [[Hc [b [Hb Hsnd]]]|[j [Hj Hc]]].
      * right. split; [exact Hc|]. exists b. split; [exact Hb|].
        split; [now apply Hnb|]. rewrite Hsnd.
        pose proof (make_batches_joined (input_texts w0 cbs)) as J.
        rewrite Forall_forall in J. exact (J b Hb).
      * left. exists j. split; [|exact Hc]. intros ->. contradiction.
Qed.

Lemma C6_blank_passthrough_witness :
  well_formed scenario_world [0; 1; 2; 3]
  /\ nth_error [0; 1; 2; 3] 2 = Some 2
  /\ PyStr.strip (text (cells (w_heap scenario_world) 2)) = EmptyString
  /\ (forall b, In b (make_batches (input_texts scenario_world [0; 1; 2; 3])) ->
                ~ In 2 (b_indices b))
  /\ exists r w1 calls,
       translate_content upper_adapter [0; 1; 2; 3] scenario_world = (r, w1)
       /\ run_end upper_adapter scenario_world [0; 1; 2; 3] r
       /\ (forall results, r = Returns results ->
             exists a', nth_error results 2 = Some a'
                        /\ cells (w_heap w1) a'
                           = cells (w_heap scenario_world) 2)
       /\ w_calls w1 = w_calls scenario_world ++ calls
       /\ Forall (fun c =>
                    (exists j, j <> 2 /\ fst c = Member j)
                    \/ (fst c = WholeBatch
                        /\ exists b,
                             In b (make_batches
                                     (input_texts scenario_world [0; 1; 2; 3]))
                             /\ ~ In 2 (b_indices b)
                             /\ snd c
                                = PyStr.join SEPARATOR
                                    (map (fun j =>
                                            PyStr.strip
                                              (nth j (input_texts scenario_world
                                                        [0; 1; 2; 3])
                                                 EmptyString))
                                       (b_indices b)))) calls.
Proof.
  assert (H : well_formed scenario_world [0; 1; 2; 3]).
  { unfold well_formed. simpl. repeat constructor. }
  split; [exact H|]. split; [reflexivity|]. split; [reflexivity|].
  exact (C6_blank_passthrough Z unit upper_adapter scenario_world
           [0; 1; 2; 3] 2 2 H eq_refl eq_refl).
Defined.

Lemma map_cells_seq {Size} (h1 h0 : heap Size) l : forall n0,
  (forall i a, nth_error l i = Some a -> cells h1 (n0 + i) = cells h0 a) ->
  map (cells h1) (seq n0 (List.length l)) = map (cells h0) l.
Proof.
  induction l as [|a l IH]; intros n0 H; simpl; [reflexivity|]. f_equal.
  - rewrite <- (H 0 a eq_refl). f_equal. lia.
  - apply IH. intros i b Hb. rewrite <- (H (S i) b Hb). f_equal. lia.
Qed.

(** C9 (nothing to translate).  When no block has text left after trimming,
    the empty list included, there is no batch, the provider is not called,
    and the run returns a copy equal to the input: a list of new
    dictionaries, as many as the input has blocks, pairwise distinct and
    none of them one that existed before, which reads as the input list
    does; every dictionary that existed before is as it was. *)
Theorem C9_nothing_to_translate :
  forall (Size St : Type) (translate : St -> string -> outcome string * St)
         (w0 : world Size St) (content_blocks : list addr),
    well_formed w0 content_blocks ->
    (forall a, In a content_blocks ->
               PyStr.strip (text (cells (w_heap w0) a)) = EmptyString) ->
    make_batches (input_texts w0 content_blocks) = []
    /\ exists results w1,
         translate_content translate content_blocks w0 = (Returns results, w1)
         /\ w_calls w1 = w_calls w0
         /\ w_tr w1 = w_tr w0
         /\ read_blocks (w_heap w1) results
            = read_blocks (w_heap w0) content_blocks
         /\ List.length results = List.length content_blocks
         /\ NoDup results
         /\ Forall (fun r => next (w_heap w0) <= r /\ ~ In r content_blocks)
              results
         /\ (forall a, a < next (w_heap w0) ->
               cells (w_heap w1) a = cells (w_heap w0) a).
Proof.
  intros Size St translate w0 cbs Hwf Hall.
  assert (Hb : make_batches (input_texts w0 cbs) = []).
  { apply no_translatable_no_batches. intros t Ht.
    unfold input_texts in Ht. apply in_map_iff in Ht.
    destruct Ht as [a [<- Ha]]. unfold translatable. now rewrite Hall. }
  split; [exact Hb|].
  destruct (run_general translate w0 cbs Hwf)
    as (wc & o & w1 & Ec & Eb & E & _).
  destruct (copy_all_spec cbs w0 Hwf) as (wc' & Ec' & _ & T & C & Old & New).
  rewrite Ec in Ec'. injection Ec' as <-.
  rewrite Hb in Eb. simpl in Eb. unfold ret in Eb. injection Eb as <- <-.
  exists (seq (next (w_heap w0)) (List.length cbs)), wc.
  split; [exact E|]. split; [exact C|]. split; [exact T|].
  split; [unfold read_blocks; now apply map_cells_seq|].
  split; [apply length_seq|]. split; [apply seq_NoDup|]. split; [|exact Old].
  apply Forall_forall. intros r Hr. apply in_seq in Hr. split; [lia|].
  intros Hin. unfold well_formed in Hwf. rewrite Forall_forall in Hwf.
  specialize (Hwf r Hin). lia.
Qed.

Lemma C9_nothing_to_translate_witness :
  well_formed blank_world [0; 1]
  /\ (forall a, In a [0; 1] ->
        PyStr.strip (text (cells (w_heap blank_world) a)) = EmptyString)
  /\ make_batches (input_texts blank_world [0; 1]) = []
  /\ exists results w1,
       translate_content upper_adapter [0; 1] blank_world
       = (Returns results, w1)
       /\ w_calls w1 = w_calls blank_world
       /\ w_tr w1 = w_tr blank_world
       /\ read_blocks (w_heap w1) results
          = read_blocks (w_heap blank_world) [0; 1]
       /\ List.length results = List.length [0; 1]
       /\ NoDup results
       /\ Forall (fun r => next (w_heap blank_world) <= r /\ ~ In r [0; 1])
            results
       /\ (forall a, a < next (w_heap blank_world) ->
             cells (w_heap w1) a = cells (w_heap blank_world) a).
Proof.
  assert (H : well_formed blank_world [0; 1]).
  { unfold well_formed. simpl. repeat constructor. }
  assert (B : forall a, In a [0; 1] ->
                PyStr.strip (text (cells (w_heap blank_world) a)) = EmptyString).
  { intros a [<-|[<-|[]]]; reflexivity. }
  split; [exact H|]. split; [exact B|].
  exact (C9_nothing_to_translate Z unit upper_adapter blank_world [0; 1] H B).
Defined.

(** ** The claims about the batches *)

(** C5 (member indices).  In every batch the member indices are strictly
    increasing, distinct and positions of the input; over all batches, in
    batch order, they are the positions of the blocks whose trimmed text is
    not empty, in increasing order, each once. *)
Theorem C5_member_indices :
  forall texts : list string,
    Forall (fun b => StronglySorted lt (b_indices b)
                     /\ NoDup (b_indices b)
                     /\ Forall (fun i => i < List.length texts) (b_indices b))
           (make_batches texts)
    /\ members (make_batches texts)
       = filter (fun i => negb (PyStr.is_empty
                                  (PyStr.strip (nth i texts EmptyString))))
           (seq 0 (List.length texts))
    /\ NoDup (members (make_batches texts)).
Proof.
  intros texts. split; [|split].
  - pose proof (translatable_indices_sorted texts) as Hs.
    rewrite <- make_batches_members in Hs.
    apply sorted_concat_each in Hs. rewrite Forall_map in Hs.
    apply Forall_forall. intros b Hb. rewrite Forall_forall in Hs.
    split; [now apply Hs|]. split; [now apply sorted_NoDup, Hs|].
    apply Forall_forall. intros i Hi.
    now apply (make_batches_valid texts b i).
  - apply make_batches_members.
  - apply make_batches_NoDup.
Qed.

(** C4 (budget), at three blocks of 4000, 2000 and 2000 characters: the
    second batch holds two members and its joined text has 4005 characters,
    more than the threshold of 4000. *)
Theorem C4_budget_exceeded :
  map (fun b => (b_indices b, String.length (b_text b)))
      (make_batches budget_input)
  = [([0], 4000); ([1; 2], 4005)].
Proof. vm_compute. reflexivity. Qed.

(** ** The steps in range: what they write *)

Section StepFacts.

Context {Size St : Type}.
Variable translate : St -> string -> outcome string * St.
Variable n0 : nat.
Variable content_blocks : list addr.

Lemma put_parts_calls ips : forall w : world Size St,
  w_calls (put_parts n0 ips w) = w_calls w
  /\ w_tr (put_parts n0 ips w) = w_tr w.
Proof.
  induction ips as [|ip ips IH]; intros w; simpl; [now split|].
  destruct (IH (put_text (n0 + fst ip) (snd ip) w)) as [-> ->]. now split.
Qed.

Lemma put_parts_other ips idx : forall w : world Size St,
  ~ In idx (map fst ips) ->
  cells (w_heap (put_parts n0 ips w)) (n0 + idx) = cells (w_heap w) (n0 + idx).
Proof.
  induction ips as [|ip ips IH]; intros w H; simpl; [reflexivity|].
  simpl in H. rewrite IH by tauto. simpl.
  destruct (n0 + idx =? n0 + fst ip) eqn:E; [|reflexivity].
  apply Nat.eqb_eq in E. exfalso. apply H. left. lia.
Qed.

Lemma put_parts_text ips idx part : forall w : world Size St,
  NoDup (map fst ips) -> In (idx, part) ips ->
  text (cells (w_heap (put_parts n0 ips w)) (n0 + idx)) = part.
Proof.
  induction ips as [|ip ips IH]; intros w Hnd Hin; [contradiction|].
  simpl in *. inversion Hnd as [|x l Hx Hl]; subst.
  destruct Hin as [->|Hin].
  - rewrite put_parts_other by exact Hx. simpl. now rewrite Nat.eqb_refl.
  - now apply IH.
Qed.

Lemma combine_NoDup_fst {A B} (l : list A) : forall l' : list B,
  NoDup l -> NoDup (map fst (combine l l')).
Proof.
  induction l as [|x l IH]; intros [|y l'] H; simpl; try constructor.
  - inversion H as [|x' l0 Hx Hl]; subst. intros Hin. apply Hx.
    apply in_map_iff in Hin. destruct Hin as [[x' y'] [<- Hin]].
    simpl. eapply in_combine_l, Hin.
  - inversion H; subst. now apply IH.
Qed.

Lemma nth_error_combine_In {A B} (l : list A) : forall (l' : list B) k x y,
  nth_error l k = Some x -> nth_error l' k = Some y -> In (x, y) (combine l l').
Proof.
  induction l as [|a l IH]; intros [|b l'] [|k] x y Hx Hy;
    simpl in *; try discriminate.
  - left. congruence.
  - right. eapply IH; eassumption.
Qed.

End StepFacts.

(** ** One batch within the run *)

Section BatchInRun.

Context {Size St : Type}.
Variable translate : St -> string -> outcome string * St.

Lemma NoDup_app_inv {A} (l1 l2 : list A) :
  NoDup (l1 ++ l2) ->
  NoDup l1 /\ NoDup l2 /\ (forall a, In a l1 -> ~ In a l2).
Proof.
  intros H. split; [eapply NoDup_app_remove_r, H|].
  split; [eapply NoDup_app_remove_l, H|].
  induction l1 as [|x l1 IH]; intros a Ha; [contradiction|].
  simpl in H. inversion H as [|x' l Hx Hl]; subst.
  destruct Ha as [->|Ha].
  - intros Hin. apply Hx, in_or_app. now right.
  - now apply IH.
Qed.

Lemma members_app pre post : members (pre ++ post) = members pre ++ members post.
Proof. unfold members. now rewrite map_app, concat_app. Qed.

Lemma members_cons b post : members (b :: post) = b_indices b ++ members post.
Proof. reflexivity. Qed.

(** The batch [b], reached after [pre] and not letting an exception
    through: the states around it, how the run ends, and what the batches
    after it leave alone, however they end. *)
Lemma batch_context (w0 : world Size St) content_blocks pre b post :
  well_formed w0 content_blocks ->
  make_batches (input_texts w0 content_blocks) = pre ++ b :: post ->
  reached translate content_blocks pre w0 ->
  ~ escapes_at translate content_blocks w0 pre b ->
  let n0 := next (w_heap w0) in
  let wb := world_before translate content_blocks pre w0 in
  let wb' := after_batch translate n0 content_blocks b wb in
  world_before translate content_blocks (pre ++ [b]) w0 = wb'
  /\ NoDup (b_indices b)
  /\ (forall a, a < n0 -> cells (w_heap wb) a = cells (w_heap w0) a)
  /\ (forall idx, In idx (b_indices b) ->
        idx < List.length content_blocks
        /\ nth idx content_blocks 0 < n0
        /\ cells (w_heap wb) (n0 + idx)
           = cells (w_heap w0) (nth idx content_blocks 0))
  /\ exists r w1,
       translate_content translate content_blocks w0 = (r, w1)
       /\ run_end translate w0 content_blocks r
       /\ (forall results, r = Returns results ->
             results = seq n0 (List.length content_blocks))
       /\ forall idx, In idx (b_indices b) ->
            cells (w_heap w1) (n0 + idx) = cells (w_heap wb') (n0 + idx).
Proof.
  intros Hwf Hbs Hreach Hne n0.
  set (n := List.length content_blocks).
  set (texts := input_texts w0 content_blocks) in *.
  destruct (run_general translate w0 content_blocks Hwf)
    as (wc & o & w1 & Ec & Eb & E & _ & Hend).
  fold n0 n texts in Ec, Eb, E, Hend.
  destruct (copy_all_spec content_blocks w0 Hwf)
    as (wc' & Ec' & _ & _ & _ & Old & New).
  fold n0 n in Ec'. rewrite Ec in Ec'. injection Ec' as <-.
  pose proof (members_in_range w0 content_blocks) as V.
  fold texts n in V. rewrite Hbs in V.
  pose proof (make_batches_NoDup texts) as ND. rewrite Hbs in ND.
  rewrite members_app, members_cons in V, ND.
  apply Forall_app in V. destruct V as [Vpre V].
  apply Forall_app in V. destruct V as [Vb Vpost].
  apply NoDup_app_inv in ND. destruct ND as (NDpre & ND & Dpre).
  apply NoDup_app_inv in ND. destruct ND as (NDb & NDpost & Dpost).
  unfold reached, bind in Hreach. rewrite Ec in Hreach.
  destruct (for_each pre (process_batch translate content_blocks (seq n0 n)) wc)
    as [op wp] eqn:Epre.
  simpl in Hreach. subst op.
  intros wb wb'.
  assert (Ewb : wb = wp).
  { unfold wb, world_before, bind. now rewrite Ec, Epre. }
  pose proof (touches_batches translate n0 n content_blocks pre wc) as Fpre.
  rewrite Epre in Fpre. simpl in Fpre. destruct Fpre as (_ & _ & Cpre & _).
  assert (Eb1 : process_batch translate content_blocks (seq n0 n) b wp
                = (Returns tt, wb')).
  { unfold n. rewrite (process_batch_valid translate n0 content_blocks b wp Vb).
    unfold wb'. rewrite Ewb. f_equal.
    unfold batch_outcome. unfold escapes_at in Hne. fold wb in Hne.
    rewrite Ewb in Hne.
    destruct (fst (translate (w_tr wp) (b_text b)));
      [reflexivity|reflexivity|contradiction]. }
  destruct (for_each post (process_batch translate content_blocks (seq n0 n))
              wb') as [opost wpost] eqn:Epost.
  pose proof (touches_batches translate n0 n content_blocks post wb') as Fpost.
  rewrite Epost in Fpost. simpl in Fpost. destruct Fpost as (_ & _ & Cpost & _).
  assert (Eall : (o, w1) = (opost, wpost)).
  { rewrite <- Eb, Hbs, for_each_app, Epre. simpl. unfold bind.
    now rewrite Eb1. }
  injection Eall as -> ->.
  split.
  { unfold world_before, bind. rewrite Ec, for_each_app, Epre. simpl.
    unfold bind. now rewrite Eb1. }
  split; [exact NDb|]. split; [|split].
  - intros a Ha. rewrite Ewb, Cpre, Old; [reflexivity|exact Ha|].
    intros i _. lia.
  - intros idx Hidx. rewrite Forall_forall in Vb. specialize (Vb idx Hidx).
    assert (Ea : nth_error content_blocks idx
                 = Some (nth idx content_blocks 0)).
    { apply nth_error_nth'. exact Vb. }
    split; [exact Vb|]. split.
    + unfold well_formed in Hwf. rewrite Forall_forall in Hwf.
      apply Hwf. eapply nth_error_In, Ea.
    + rewrite Ewb, Cpre; [now apply New|].
      intros j Hj Heq. assert (j = idx) by lia. subst j.
      apply (Dpre idx Hj). apply in_or_app. now left.
  - exists (outcome_map (fun _ => seq n0 n) opost), wpost.
    split; [exact E|]. split; [exact Hend|]. split.
    + intros results Hr. destruct opost as [[]| |]; simpl in Hr;
        [injection Hr as <-; reflexivity|discriminate|discriminate].
    + intros idx Hidx. apply Cpost.
      intros j Hj Heq. assert (j = idx) by lia. subst j.
      exact (Dpost idx Hidx Hj).
Qed.

End BatchInRun.

(** ** The claims about one batch *)

(** C2 (fast path).  When a batch is reached and the provider returns for
    it a text whose parts, cut at ["|||"] and trimmed, are as many as the
    batch's members, the batch costs one call, on its joined text, and in
    the list the run returns the result of the k-th member has the k-th
    part as its text; the run returns unless a call on the joined text of
    a later batch raises an exception that is not an [Exception]. *)
Theorem C2_fast_path :
  forall (Size St : Type) (translate : St -> string -> outcome string * St)
         (w0 : world Size St) (content_blocks : list addr)
         (pre : list batch) (b : batch) (post : list batch) (chunk : string),
    well_formed w0 content_blocks ->
    make_batches (input_texts w0 content_blocks) = pre ++ b :: post ->
    reached translate content_blocks pre w0 ->
    fst (translate (w_tr (world_before translate content_blocks pre w0))
           (b_text b)) = Returns chunk ->
    List.length (map PyStr.strip (PyStr.split "|||" chunk))
    = List.length (b_indices b) ->
    exists r w1,
      translate_content translate content_blocks w0 = (r, w1)
      /\ run_end translate w0 content_blocks r
      /\ (forall results, r = Returns results ->
            forall k idx part,
              nth_error (b_indices b) k = Some idx ->
              nth_error (map PyStr.strip (PyStr.split "|||" chunk)) k
              = Some part ->
              exists a, nth_error results idx = Some a
                        /\ text (cells (w_heap w1) a) = part)
      /\ w_calls (world_before translate content_blocks (pre ++ [b]) w0)
         = w_calls (world_before translate content_blocks pre w0)
           ++ [(WholeBatch, b_text b)].
Proof.
  intros Size St translate w0 cbs pre b post chunk Hwf Hbs Hreach Hchunk Hlen.
  assert (Hne : ~ escapes_at translate cbs w0 pre b).
  { unfold escapes_at. rewrite Hchunk. discriminate. }
  destruct (batch_context translate w0 cbs pre b post Hwf Hbs Hreach Hne)
    as (Eb' & NDb & _ & Hidx & r & w1 & E & Hend & Hres & Hpost).
  set (n0 := next (w_heap w0)) in *.
  set (wb := world_before translate cbs pre w0) in *.
  set (parts := map PyStr.strip (PyStr.split "|||" chunk)) in *.
  assert (Eab : after_batch translate n0 cbs b wb
                = put_parts n0 (combine (b_indices b) parts)
                    (note_call WholeBatch (b_text b)
                       (snd (translate (w_tr wb) (b_text b))) wb)).
  { unfold after_batch. rewrite Hchunk. fold parts.
    now rewrite Hlen, Nat.eqb_refl. }
  rewrite Eab in *.
  exists r, w1. split; [exact E|]. split; [exact Hend|]. split.
  - intros results Hr k idx part Hk Hp. rewrite (Hres results Hr).
    assert (Hin : In idx (b_indices b)) by (eapply nth_error_In, Hk).
    destruct (Hidx idx Hin) as (Hlt & _).
    exists (n0 + idx). split.
    + rewrite nth_error_seq. apply Nat.ltb_lt in Hlt. now rewrite Hlt.
    + rewrite (Hpost idx Hin). apply put_parts_text.
      * now apply combine_NoDup_fst.
      * eapply nth_error_combine_In; eassumption.
  - rewrite Eb'.
    destruct (put_parts_calls n0 (combine (b_indices b) parts)
                (note_call WholeBatch (b_text b)
                   (snd (translate (w_tr wb) (b_text b))) wb)) as [-> _].
    reflexivity.
Qed.

Lemma C2_fast_path_witness :
  well_formed scenario_world [0; 1; 2; 3]
  /\ make_batches (input_texts scenario_world [0; 1; 2; 3])
     = [] ++ scenario_batch :: []
  /\ reached upper_adapter [0; 1; 2; 3] [] scenario_world
  /\ fst (upper_adapter
            (w_tr (world_before upper_adapter [0; 1; 2; 3] [] scenario_world))
            (b_text scenario_batch)) = Returns scenario_chunk
  /\ List.length (map PyStr.strip (PyStr.split "|||" scenario_chunk))
     = List.length (b_indices scenario_batch)
  /\ exists r w1,
       translate_content upper_adapter [0; 1; 2; 3] scenario_world = (r, w1)
       /\ run_end upper_adapter scenario_world [0; 1; 2; 3] r
       /\ (forall results, r = Returns results ->
             forall k idx part,
               nth_error (b_indices scenario_batch) k = Some idx ->
               nth_error (map PyStr.strip (PyStr.split "|||" scenario_chunk)) k
               = Some part ->
               exists a, nth_error results idx = Some a
                         /\ text (cells (w_heap w1) a) = part)
       /\ w_calls (world_before upper_adapter [0; 1; 2; 3]
                     ([] ++ [scenario_batch]) scenario_world)
          = w_calls (world_before upper_adapter [0; 1; 2; 3] [] scenario_world)
            ++ [(WholeBatch, b_text scenario_batch)].
Proof.
  assert (H : well_formed scenario_world [0; 1; 2; 3]).
  { unfold well_formed. simpl. repeat constructor. }
  assert (R : reached upper_adapter [0; 1; 2; 3] [] scenario_world)
    by reflexivity.
  split; [exact H|]. split; [reflexivity|]. split; [exact R|].
  split; [reflexivity|]. split; [reflexivity|].
  exact (C2_fast_path Z unit upper_adapter scenario_world [0; 1; 2; 3]
           [] scenario_batch [] scenario_chunk H eq_refl R eq_refl eq_refl).
Defined.

Section Fallback.

Context {Size St : Type}.
Variable translate : St -> string -> outcome string * St.
Variable n0 : nat.
Variable content_blocks : list addr.

(** The text of the input block at [idx], as the loop finds it. *)
Variable orig : nat -> string.

Lemma after_member_facts idx (w : world Size St) :
  nth idx content_blocks 0 < n0 ->
  text (cells (w_heap w) (nth idx content_blocks 0)) = orig idx ->
  let w' := after_member translate n0 content_blocks idx w in
  w_calls w' = w_calls w ++ [(Member idx, orig idx)]
  /\ w_tr w' = snd (translate (w_tr w) (orig idx))
  /\ (forall a, a <> n0 + idx -> cells (w_heap w') a = cells (w_heap w) a)
  /\ text (cells (w_heap w') (n0 + idx))
     = member_result (fst (translate (w_tr w) (orig idx)))
         (text (cells (w_heap w) (n0 + idx))).
Proof.
  intros Hlt Ho. unfold after_member. rewrite Ho.
  destruct (translate (w_tr w) (orig idx)) as [[t| |] st']; simpl.
  - repeat split; try reflexivity.
    + intros a Ha. apply Nat.eqb_neq in Ha. now rewrite Ha.
    + now rewrite Nat.eqb_refl.
  - repeat split; reflexivity.
  - repeat split; reflexivity.
Qed.

Lemma after_fallback_other indices : forall w : world Size St,
  inputs_read n0 content_blocks orig indices w ->
  forall a, (forall idx, In idx indices -> a <> n0 + idx) ->
    cells (w_heap (after_fallback translate n0 content_blocks indices w)) a
    = cells (w_heap w) a.
Proof.
  induction indices as [|i0 rest IH]; intros w Hr a Ha; [reflexivity|].
  simpl. destruct (Hr i0 (or_introl eq_refl)) as [Hlt Ho].
  destruct (after_member_facts i0 w Hlt Ho) as (_ & _ & C & _).
  rewrite IH.
  - apply C, Ha. now left.
  - intros idx Hidx. destruct (Hr idx (or_intror Hidx)) as [Hlt' Ho'].
    split; [exact Hlt'|]. rewrite C; [exact Ho'|lia].
  - intros idx Hidx. apply Ha. now right.
Qed.

(** The per-member loop: one call per member, on the text of its input
    block, in order; a member ends with the translation, or with its old
    text when its call raised, whatever it raised. *)
Lemma after_fallback_effect indices : forall w : world Size St,
  inputs_read n0 content_blocks orig indices w ->
  NoDup indices ->
  let w' := after_fallback translate n0 content_blocks indices w in
  w_calls w' = w_calls w ++ map (fun idx => (Member idx, orig idx)) indices
  /\ w_tr w' = tr_run translate (w_tr w) (map orig indices)
  /\ forall k idx, nth_error indices k = Some idx ->
       text (cells (w_heap w') (n0 + idx))
       = member_result
           (fst (translate
                   (tr_run translate (w_tr w) (map orig (firstn k indices)))
                   (orig idx)))
           (text (cells (w_heap w) (n0 + idx))).
Proof.
  induction indices as [|i0 rest IH]; intros w Hr Hnd.
  - simpl. split; [now rewrite app_nil_r|]. split; [reflexivity|].
    intros [|k] idx; discriminate.
  - inversion Hnd as [|x l Hx Hl]; subst.
    destruct (Hr i0 (or_introl eq_refl)) as [Hlt Ho].
    destruct (after_member_facts i0 w Hlt Ho) as (Cl & Tr & C & Tx).
    assert (Hr1 : inputs_read n0 content_blocks orig rest
                    (after_member translate n0 content_blocks i0 w)).
    { intros idx Hidx. destruct (Hr idx (or_intror Hidx)) as [Hlt' Ho'].
      split; [exact Hlt'|]. rewrite C; [exact Ho'|lia]. }
    destruct (IH _ Hr1 Hl) as (Cl' & Tr' & Tx').
    simpl. split; [|split].
    + rewrite Cl', Cl, <- app_assoc. reflexivity.
    + now rewrite Tr', Tr.
    + intros [|k] idx Hk; simpl in Hk.
      * injection Hk as <-. simpl.
        rewrite after_fallback_other; [exact Tx|exact Hr1|].
        intros idx Hidx Heq. assert (idx = i0) by lia. subst idx.
        contradiction.
      * rewrite (Tx' k idx Hk). simpl. rewrite Tr. f_equal.
        rewrite C; [reflexivity|].
        intros Heq. assert (idx = i0) by lia. subst idx.
        apply Hx. eapply nth_error_In, Hk.
Qed.

End Fallback.

(** C3 (fallback), as the code has it.  When a batch is reached and the
    provider raises an [Exception] on its joined text, or returns a text
    whose parts are not as many as the members, the batch costs that call
    and then one call per member, in order, each on the text of the
    member's input block as stored (not trimmed).  In the list the run
    returns, which is as long as the input, a member's result has as text
    the translation its call returned, or the text of the input block when
    its call raised, whatever it raised.  The run raises nothing but the
    exception, not an [Exception], of a call on the joined text of a batch,
    and returns otherwise. *)
Theorem C3_fallback :
  forall (Size St : Type) (translate : St -> string -> outcome string * St)
         (w0 : world Size St) (content_blocks : list addr)
         (pre : list batch) (b : batch) (post : list batch),
    well_formed w0 content_blocks ->
    make_batches (input_texts w0 content_blocks) = pre ++ b :: post ->
    reached translate content_blocks pre w0 ->
    ~ escapes_at translate content_blocks w0 pre b ->
    (forall chunk,
        fst (translate (w_tr (world_before translate content_blocks pre w0))
               (b_text b)) = Returns chunk ->
        List.length (map PyStr.strip (PyStr.split "|||" chunk))
        <> List.length (b_indices b)) ->
    exists r w1,
      translate_content translate content_blocks w0 = (r, w1)
      /\ run_end translate w0 content_blocks r
      /\ w_calls (world_before translate content_blocks (pre ++ [b]) w0)
         = w_calls (world_before translate content_blocks pre w0)
           ++ (WholeBatch, b_text b)
              :: map (fun idx =>
                        (Member idx,
                         text (cells (w_heap w0) (nth idx content_blocks 0))))
                   (b_indices b)
      /\ forall results, r = Returns results ->
           List.length results = List.length content_blocks
           /\ forall k idx, nth_error (b_indices b) k = Some idx ->
                exists a,
                  nth_error results idx = Some a
                  /\ text (cells (w_heap w1) a)
                     = member_result
                         (fst (translate
                                 (tr_run translate
                                    (snd (translate
                                            (w_tr (world_before translate
                                                     content_blocks pre w0))
                                            (b_text b)))
                                    (map (fun j =>
                                            text (cells (w_heap w0)
                                                    (nth j content_blocks 0)))
                                         (firstn k (b_indices b))))
                                 (text (cells (w_heap w0)
                                          (nth idx content_blocks 0)))))
                         (text (cells (w_heap w0) (nth idx content_blocks 0))).
Proof.
  intros Size St translate w0 cbs pre b post Hwf Hbs Hreach Hne Hmis.
  destruct (batch_context translate w0 cbs pre b post Hwf Hbs Hreach Hne)
    as (Eb' & NDb & Old & Hidx & r & w1 & E & Hend & Hres & Hpost).
  set (n0 := next (w_heap w0)) in *.
  set (wb := world_before translate cbs pre w0) in *.
  set (orig := fun j => text (cells (w_heap w0) (nth j cbs 0))).
  set (st1 := snd (translate (w_tr wb) (b_text b))).
  set (wn := note_call WholeBatch (b_text b) st1 wb).
  assert (Eab : after_batch translate n0 cbs b wb
                = after_fallback translate n0 cbs (b_indices b) wn).
  { unfold after_batch. fold st1. fold wn. unfold escapes_at in Hne.
    fold wb in Hne.
    destruct (fst (translate (w_tr wb) (b_text b))) as [chunk| |] eqn:Ec;
      [|reflexivity|contradiction].
    specialize (Hmis chunk eq_refl). apply Nat.eqb_neq in Hmis.
    now rewrite Hmis. }
  rewrite Eab in *.
  assert (Hr : inputs_read n0 cbs orig (b_indices b) wn).
  { intros idx Hin. destruct (Hidx idx Hin) as (_ & Hlt & _).
    split; [exact Hlt|]. unfold wn, note_call. simpl. now rewrite Old. }
  destruct (after_fallback_effect translate n0 cbs orig (b_indices b) wn Hr NDb)
    as (Cl & _ & Tx).
  exists r, w1. split; [exact E|]. split; [exact Hend|]. split.
  - rewrite Eb', Cl. unfold wn, note_call. simpl. now rewrite <- app_assoc.
  - intros results Hres'. rewrite (Hres results Hres').
    split; [apply length_seq|].
    intros k idx Hk.
    assert (Hin : In idx (b_indices b)) by (eapply nth_error_In, Hk).
    destruct (Hidx idx Hin) as (Hlt & _ & Hcopy).
    exists (n0 + idx). split.
    + rewrite nth_error_seq. apply Nat.ltb_lt in Hlt. now rewrite Hlt.
    + rewrite (Hpost idx Hin), (Tx k idx Hk). unfold wn, note_call. simpl.
      now rewrite Hcopy.
Qed.

Lemma C3_fallback_witness :
  well_formed padded_world [0]
  /\ make_batches (input_texts padded_world [0]) = [] ++ Batch "a" [0] :: []
  /\ reached suffix_adapter [0] [] padded_world
  /\ ~ escapes_at suffix_adapter [0] padded_world [] (Batch "a" [0])
  /\ (forall chunk,
        fst (suffix_adapter
               (w_tr (world_before suffix_adapter [0] [] padded_world))
               (b_text (Batch "a" [0]))) = Returns chunk ->
        List.length (map PyStr.strip (PyStr.split "|||" chunk))
        <> List.length (b_indices (Batch "a" [0])))
  /\ exists r w1,
       translate_content suffix_adapter [0] padded_world = (r, w1)
       /\ run_end suffix_adapter padded_world [0] r
       /\ w_calls (world_before suffix_adapter [0] ([] ++ [Batch "a" [0]])
                     padded_world)
          = w_calls (world_before suffix_adapter [0] [] padded_world)
            ++ (WholeBatch, b_text (Batch "a" [0]))
               :: map (fun idx =>
                         (Member idx,
                          text (cells (w_heap padded_world) (nth idx [0] 0))))
                    (b_indices (Batch "a" [0]))
       /\ forall results, r = Returns results ->
            List.length results = List.length [0]
            /\ forall k idx,
                 nth_error (b_indices (Batch "a" [0])) k = Some idx ->
                 exists a,
                   nth_error results idx = Some a
                   /\ text (cells (w_heap w1) a)
                      = member_result
                          (fst (suffix_adapter
                                  (tr_run suffix_adapter
                                     (snd (suffix_adapter
                                             (w_tr (world_before suffix_adapter
                                                      [0] [] padded_world))
                                             (b_text (Batch "a" [0]))))
                                     (map (fun j =>
                                             text (cells (w_heap padded_world)
                                                     (nth j [0] 0)))
                                          (firstn k
                                             (b_indices (Batch "a" [0])))))
                                  (text (cells (w_heap padded_world)
                                           (nth idx [0] 0)))))
                          (text (cells (w_heap padded_world) (nth idx [0] 0))).
Proof.
  assert (H : well_formed padded_world [0]).
  { unfold well_formed. simpl. repeat constructor. }
  assert (R : reached suffix_adapter [0] [] padded_world) by reflexivity.
  assert (N : ~ escapes_at suffix_adapter [0] padded_world [] (Batch "a" [0])).
  { unfold escapes_at. simpl. discriminate. }
  assert (M : forall chunk,
             fst (suffix_adapter
                    (w_tr (world_before suffix_adapter [0] [] padded_world))
                    (b_text (Batch "a" [0]))) = Returns chunk ->
             List.length (map PyStr.strip (PyStr.split "|||" chunk))
             <> List.length (b_indices (Batch "a" [0]))).
  { intros chunk Hc. simpl in Hc. injection Hc as <-. vm_compute. lia. }
  split; [exact H|]. split; [reflexivity|]. split; [exact R|].
  split; [exact N|]. split; [exact M|].
  exact (C3_fallback Z unit suffix_adapter padded_world [0]
           [] (Batch "a" [0]) [] H eq_refl R N M).
Defined.

(** C3 as the specification words it fails, twice.  The per-member call
    gets the text of the input block as stored, [" a "], not the trimmed
    ["a"], and the result is the translation of the stored text.  And when
    the call on the joined text raises [KeyboardInterrupt], no call is made
    for the member and [translate_content] raises. *)
Lemma C3_fallback_counterexample :
  (run_values suffix_adapter padded_world [0]
   = Some ([Block " a |||x" 12%Z], [(WholeBatch, "a"); (Member 0, " a ")])
   /\ PyStr.strip (text (cells (w_heap padded_world) 0)) = "a"
   /\ ~ In (Member 0, PyStr.strip (text (cells (w_heap padded_world) 0)))
           [(WholeBatch, "a"); (Member 0, " a ")]
   /\ fst (suffix_adapter tt
             (PyStr.strip (text (cells (w_heap padded_world) 0))))
      <> Returns " a |||x")
  /\ (make_batches (input_texts padded_world [0]) = [Batch "a" [0]]
      /\ fst (interrupted_adapter
                (w_tr (world_before interrupted_adapter [0] [] padded_world))
                "a") = RaisesBase
      /\ fst (translate_content interrupted_adapter [0] padded_world)
         = RaisesBase
      /\ w_calls (snd (translate_content interrupted_adapter [0]
                         padded_world))
         = [(WholeBatch, "a")]).
Proof.
  split.
  - split; [vm_compute; reflexivity|]. split; [reflexivity|]. split.
    + simpl. intros [H|[H|[]]]; discriminate.
    + simpl. discriminate.
  - repeat split; vm_compute; reflexivity.
Qed.

(** ** Two runs with a provider that is a function of its argument *)

Section Determinism.

Context {Size St1 St2 : Type}.
Variable f : string -> outcome string.
Variable translate1 : St1 -> string -> outcome string * St1.
Variable translate2 : St2 -> string -> outcome string * St2.
Hypothesis same1 : forall st s, fst (translate1 st s) = f s.
Hypothesis same2 : forall st s, fst (translate2 st s) = f s.

Variables n01 n02 n : nat.
Variables cbs1 cbs2 : list addr.
Hypothesis below1 : forall idx, idx < n -> nth idx cbs1 0 < n01.
Hypothesis below2 : forall idx, idx < n -> nth idx cbs2 0 < n02.

Local Notation "w ~~ w'" := (agree n01 n02 n cbs1 cbs2 w w') (at level 70).

Lemma agree_put_text idx t (w : world Size St1) (w' : world Size St2) :
  idx < n -> w ~~ w' ->
  put_text (n01 + idx) t w ~~ put_text (n02 + idx) t w'.
Proof.
  intros Hidx [Hin Hres]. split; simpl.
  - intros j Hj. specialize (below1 j Hj). specialize (below2 j Hj).
    destruct (nth j cbs1 0 =? n01 + idx) eqn:E1;
      [apply Nat.eqb_eq in E1; lia|].
    destruct (nth j cbs2 0 =? n02 + idx) eqn:E2;
      [apply Nat.eqb_eq in E2; lia|].
    now apply Hin.
  - intros i Hi. destruct (Nat.eq_dec i idx) as [->|Hne].
    + rewrite !Nat.eqb_refl. now rewrite (Hres idx Hidx).
    + destruct (n01 + i =? n01 + idx) eqn:E1;
        [apply Nat.eqb_eq in E1; lia|].
      destruct (n02 + i =? n02 + idx) eqn:E2;
        [apply Nat.eqb_eq in E2; lia|].
      now apply Hres.
Qed.

Lemma agree_note_call site s st st' (w : world Size St1) (w' : world Size St2) :
  w ~~ w' -> note_call site s st w ~~ note_call site s st' w'.
Proof. intros H. exact H. Qed.

Lemma agree_put_parts ips : forall (w : world Size St1) (w' : world Size St2),
  Forall (fun ip => fst ip < n) ips -> w ~~ w' ->
  put_parts n01 ips w ~~ put_parts n02 ips w'.
Proof.
  induction ips as [|ip ips IH]; intros w w' V H; simpl; [exact H|].
  inversion V; subst. apply IH; [assumption|]. now apply agree_put_text.
Qed.

Lemma agree_after_member idx (w : world Size St1) (w' : world Size St2) :
  idx < n -> w ~~ w' ->
  after_member translate1 n01 cbs1 idx w
  ~~ after_member translate2 n02 cbs2 idx w'.
Proof.
  intros Hidx H. unfold after_member.
  rewrite same1, same2. destruct H as [Hin Hres].
  rewrite <- (Hin idx Hidx).
  destruct (f (text (cells (w_heap w) (nth idx cbs1 0)))) as [t| |].
  - apply agree_put_text; [exact Hidx|]. now split.
  - now split.
  - now split.
Qed.

Lemma agree_after_fallback indices :
  forall (w : world Size St1) (w' : world Size St2),
  Forall (fun idx => idx < n) indices -> w ~~ w' ->
  after_fallback translate1 n01 cbs1 indices w
  ~~ after_fallback translate2 n02 cbs2 indices w'.
Proof.
  induction indices as [|idx rest IH]; intros w w' V H; simpl; [exact H|].
  inversion V; subst. apply IH; [assumption|]. now apply agree_after_member.
Qed.

Lemma agree_after_batch b (w : world Size St1) (w' : world Size St2) :
  Forall (fun idx => idx < n) (b_indices b) -> w ~~ w' ->
  after_batch translate1 n01 cbs1 b w ~~ after_batch translate2 n02 cbs2 b w'.
Proof.
  intros V H. unfold after_batch. rewrite same1, same2.
  destruct (f (b_text b)) as [chunk| |].
  - destruct (_ =? _).
    + apply agree_put_parts; [|now apply agree_note_call].
      apply Forall_forall. intros [idx part] Hin. simpl.
      rewrite Forall_forall in V. eapply V, in_combine_l, Hin.
    + apply agree_after_fallback; [exact V|now apply agree_note_call].
  - apply agree_after_fallback; [exact V|now apply agree_note_call].
  - now apply agree_note_call.
Qed.

(** The two loops over the batches end alike, and in states that agree. *)
Lemma agree_batches bs :
  forall (w : world Size St1) (w' : world Size St2),
  n = List.length cbs1 -> n = List.length cbs2 ->
  Forall (fun idx => idx < n) (members bs) -> w ~~ w' ->
  exists o wa wb,
    for_each bs (process_batch translate1 cbs1 (seq n01 n)) w = (o, wa)
    /\ for_each bs (process_batch translate2 cbs2 (seq n02 n)) w' = (o, wb)
    /\ wa ~~ wb.
Proof.
  induction bs as [|b bs IH]; intros w w' L1 L2 V H.
  - exists (Returns tt), w, w'.
    split; [reflexivity|]. split; [reflexivity|exact H].
  - unfold members in V. simpl in V. apply Forall_app in V.
    destruct V as [Vb Vbs]. simpl. unfold bind.
    assert (Vb1 : Forall (fun idx => idx < List.length cbs1) (b_indices b))
      by now rewrite <- L1.
    assert (Vb2 : Forall (fun idx => idx < List.length cbs2) (b_indices b))
      by now rewrite <- L2.
    pose proof (process_batch_valid translate1 n01 cbs1 b w Vb1) as E1.
    pose proof (process_batch_valid translate2 n02 cbs2 b w' Vb2) as E2.
    rewrite <- L1 in E1. rewrite <- L2 in E2. rewrite E1, E2.
    pose proof (agree_after_batch b w w' Vb H) as Ha.
    unfold batch_outcome. rewrite same1, same2.
    destruct (f (b_text b)) as [chunk| |].
    + apply IH; assumption.
    + apply IH; assumption.
    + eexists. eexists. eexists. split; [reflexivity|].
      split; [reflexivity|exact Ha].
Qed.

End Determinism.

Lemma map_cells_agree {Size} (h1 h2 : heap Size) n : forall a b,
  (forall i, i < n -> cells h1 (a + i) = cells h2 (b + i)) ->
  map (cells h1) (seq a n) = map (cells h2) (seq b n).
Proof.
  induction n as [|n IH]; intros a b H; simpl; [reflexivity|]. f_equal.
  - specialize (H 0 (Nat.lt_0_succ n)). now rewrite !Nat.add_0_r in H.
  - apply IH. intros i Hi. specialize (H (S i) (proj1 (Nat.succ_lt_mono i n) Hi)).
    now rewrite !Nat.add_succ_r in H.
Qed.

(** C10 (determinism).  With a provider whose answer is a function [f] of
    the text alone, whatever its hidden state, two runs on input lists that
    read the same (in stores that may differ) end alike: both return, and
    their result lists read the same, or both raise the exception, not an
    [Exception], that [f] raises on the joined text of a batch. *)
Theorem C10_deterministic :
  forall (Size St1 St2 : Type) (f : string -> outcome string)
         (translate1 : St1 -> string -> outcome string * St1)
         (translate2 : St2 -> string -> outcome string * St2)
         (w1 : world Size St1) (w2 : world Size St2)
         (cbs1 cbs2 : list addr),
    (forall st s, fst (translate1 st s) = f s) ->
    (forall st s, fst (translate2 st s) = f s) ->
    well_formed w1 cbs1 ->
    well_formed w2 cbs2 ->
    read_blocks (w_heap w1) cbs1 = read_blocks (w_heap w2) cbs2 ->
    exists r1 w1' r2 w2',
      translate_content translate1 cbs1 w1 = (r1, w1')
      /\ translate_content translate2 cbs2 w2 = (r2, w2')
      /\ run_end translate1 w1 cbs1 r1
      /\ run_end translate2 w2 cbs2 r2
      /\ outcome_map (read_blocks (w_heap w1')) r1
         = outcome_map (read_blocks (w_heap w2')) r2.
Proof.
  intros Size St1 St2 f tr1 tr2 w1 w2 cbs1 cbs2 S1 S2 Hwf1 Hwf2 Hread.
  assert (Hlen : List.length cbs1 = List.length cbs2).
  { apply (f_equal (@List.length _)) in Hread. unfold read_blocks in Hread.
    now rewrite !length_map in Hread. }
  assert (Hnth : forall idx, idx < List.length cbs1 ->
            cells (w_heap w1) (nth idx cbs1 0) = cells (w_heap w2) (nth idx cbs2 0)).
  { intros idx Hidx. unfold read_blocks in Hread.
    apply (f_equal (fun l => nth_error l idx)) in Hread.
    rewrite !nth_error_map in Hread.
    rewrite (nth_error_nth' cbs1 0 Hidx) in Hread.
    rewrite Hlen in Hidx. rewrite (nth_error_nth' cbs2 0 Hidx) in Hread.
    simpl in Hread. now injection Hread. }
  assert (Htexts : input_texts w1 cbs1 = input_texts w2 cbs2).
  { unfold input_texts. unfold read_blocks in Hread.
    apply (f_equal (map text)) in Hread. now rewrite !map_map in Hread. }
  destruct (run_general tr1 w1 cbs1 Hwf1)
    as (wc1 & o1 & w1' & Ec1 & Eb1 & E1 & _ & Hend1).
  destruct (run_general tr2 w2 cbs2 Hwf2)
    as (wc2 & o2 & w2' & Ec2 & Eb2 & E2 & _ & Hend2).
  destruct (copy_all_spec cbs1 w1 Hwf1) as (wc1' & Ec1' & _ & _ & _ & Old1 & New1).
  destruct (copy_all_spec cbs2 w2 Hwf2) as (wc2' & Ec2' & _ & _ & _ & Old2 & New2).
  rewrite Ec1 in Ec1'. injection Ec1' as <-.
  rewrite Ec2 in Ec2'. injection Ec2' as <-.
  set (n := List.length cbs1) in *.
  set (n01 := next (w_heap w1)) in *.
  set (n02 := next (w_heap w2)) in *.
  assert (B1 : forall idx, idx < n -> nth idx cbs1 0 < n01).
  { intros idx Hidx. unfold well_formed in Hwf1. rewrite Forall_forall in Hwf1.
    apply Hwf1, nth_In, Hidx. }
  assert (B2 : forall idx, idx < n -> nth idx cbs2 0 < n02).
  { intros idx Hidx. unfold well_formed in Hwf2. rewrite Forall_forall in Hwf2.
    apply Hwf2, nth_In. lia. }
  assert (A0 : agree n01 n02 n cbs1 cbs2 wc1 wc2).
  { split.
    - intros idx Hidx. rewrite Old1, Old2 by auto. f_equal. now apply Hnth.
    - intros i Hi.
      rewrite (New1 i (nth i cbs1 0)) by (apply nth_error_nth'; exact Hi).
      rewrite (New2 i (nth i cbs2 0)) by (apply nth_error_nth'; lia).
      now apply Hnth. }
  pose proof (members_in_range w1 cbs1) as V. fold n in V.
  destruct (agree_batches f tr1 tr2 S1 S2 n01 n02 n cbs1 cbs2 B1 B2
              (make_batches (input_texts w1 cbs1)) wc1 wc2 eq_refl Hlen V A0)
    as (o & wa & wb & Ea & Eb & _ & A).
  rewrite Eb1 in Ea. injection Ea as -> ->.
  rewrite <- Hlen, <- Htexts, Eb in Eb2. injection Eb2 as <- <-.
  exists (outcome_map (fun _ => seq n01 n) o), wa,
         (outcome_map (fun _ => seq n02 (List.length cbs2)) o), wb.
  split; [exact E1|]. split; [exact E2|]. split; [exact Hend1|].
  split; [exact Hend2|].
  destruct o as [[]| |]; simpl; [|reflexivity|reflexivity].
  f_equal. unfold read_blocks. rewrite <- Hlen. fold n.
  now apply map_cells_agree.
Qed.

Lemma C10_deterministic_witness :
  (forall st s, fst (upper_adapter st s) = Returns (map_string upper s))
  /\ (forall st s, fst (counting_upper st s) = Returns (map_string upper s))
  /\ well_formed scenario_world [0; 1; 2; 3]
  /\ well_formed shuffled_world [1; 2; 3; 0]
  /\ read_blocks (w_heap scenario_world) [0; 1; 2; 3]
     = read_blocks (w_heap shuffled_world) [1; 2; 3; 0]
  /\ exists r1 w1' r2 w2',
       translate_content upper_adapter [0; 1; 2; 3] scenario_world
       = (r1, w1')
       /\ translate_content counting_upper [1; 2; 3; 0] shuffled_world
          = (r2, w2')
       /\ run_end upper_adapter scenario_world [0; 1; 2; 3] r1
       /\ run_end counting_upper shuffled_world [1; 2; 3; 0] r2
       /\ outcome_map (read_blocks (w_heap w1')) r1
          = outcome_map (read_blocks (w_heap w2')) r2.
Proof.
  assert (S1 : forall st s,
             fst (upper_adapter st s) = Returns (map_string upper s))
    by reflexivity.
  assert (S2 : forall st s,
             fst (counting_upper st s) = Returns (map_string upper s))
    by reflexivity.
  assert (H1 : well_formed scenario_world [0; 1; 2; 3]).
  { unfold well_formed. simpl. repeat constructor. }
  assert (H2 : well_formed shuffled_world [1; 2; 3; 0]).
  { unfold well_formed. simpl. repeat constructor. }
  split; [exact S1|]. split; [exact S2|]. split; [exact H1|].
  split; [exact H2|]. split; [reflexivity|].
  exact (C10_deterministic Z unit nat (fun s => Returns (map_string upper s))
           upper_adapter counting_upper scenario_world shuffled_world
           [0; 1; 2; 3] [1; 2; 3; 0] S1 S2 H1 H2 eq_refl).
Defined.

(** ** [create_docx] *)

Section Docx.

Context {num : Type} {N : Number num}.

Lemma max_from_spec (key : num -> nat) l : forall best,
  In (max_from key best l) (best :: l)
  /\ forall y, In y (best :: l) -> key y <= key (max_from key best l).
Proof.
  induction l as [|x l IH]; intros best; simpl.
  - split; [now left|]. intros y [<-|[]]. lia.
  - destruct (IH (if key best <? key x then x else best)) as [Hin Hmax].
    split.
    + destruct Hin as [Hin|Hin]; [|tauto].
      rewrite <- Hin. destruct (key best <? key x); tauto.
    + intros y Hy.
      assert (Hb : key best <= key (if key best <? key x then x else best)
                   /\ key x <= key (if key best <? key x then x else best)).
      { destruct (Nat.ltb_spec (key best) (key x)); lia. }
      pose proof (Hmax _ (or_introl eq_refl)) as H0.
      destruct Hy as [<-|[<-|Hy]]; [lia|lia|].
      apply Hmax. now right.
Qed.

(** The mode of a non-empty list: one of its sizes, and none is more
    frequent. *)
Lemma mode_size_of_spec set_iter (sizes : list num) :
  set_iter_ok set_iter -> sizes <> [] ->
  exists mode,
    mode_size_of set_iter sizes = Returns mode
    /\ In mode sizes
    /\ forall x, count sizes x <= count sizes mode.
Proof.
  intros Hok Hne. destruct (Hok sizes) as [_ Hin].
  destruct sizes as [|s0 sizes']; [contradiction|].
  set (sizes := s0 :: sizes') in *. unfold mode_size_of. fold sizes.
  change (match sizes with
          | [] => Returns (num_of_Z 12)
          | _ :: _ => py_max (count sizes) (set_iter sizes)
          end) with (py_max (count sizes) (set_iter sizes)).
  destruct (set_iter sizes) as [|x l] eqn:E.
  { exfalso. apply (proj2 (Hin s0)). now left. }
  unfold py_max. exists (max_from (count sizes) x l).
  destruct (max_from_spec (count sizes) l x) as [Hm Hmax].
  split; [reflexivity|]. split; [now apply Hin|].
  intros y. destruct (in_dec num_eq_dec y sizes) as [Hy|Hy].
  - apply Hmax, Hin, Hy.
  - assert (H0 : count sizes y = 0)
      by (unfold count; now apply count_occ_not_In).
    rewrite H0. lia.
Qed.

(** The loop over the blocks when the call of every block returns. *)
Lemma emit_all_returns raises add_paragraph mode (F : block num -> element)
  blocks :
  (forall b, In b blocks -> emit raises add_paragraph mode b = Returns (F b)) ->
  emit_all raises add_paragraph mode blocks = Returns (map F blocks).
Proof.
  induction blocks as [|b blocks IH]; intros H; [reflexivity|].
  simpl. rewrite (H b (or_introl eq_refl)), IH; [reflexivity|].
  intros b' Hb'. apply H. now right.
Qed.

(** When the loop returns, the call of every block returned, and the
    document has the elements in the order of the blocks. *)
Lemma emit_all_nth raises add_paragraph mode blocks : forall doc,
  emit_all raises add_paragraph mode blocks = Returns doc ->
  List.length doc = List.length blocks
  /\ forall i b, nth_error blocks i = Some b ->
       exists e, nth_error doc i = Some e
                 /\ emit raises add_paragraph mode b = Returns e.
Proof.
  induction blocks as [|b0 blocks IH]; intros doc H; simpl in H.
  - injection H as <-. split; [reflexivity|]. intros [|i] b; discriminate.
  - destruct (emit raises add_paragraph mode b0) as [e0| |] eqn:E0;
      try discriminate.
    destruct (emit_all raises add_paragraph mode blocks) as [es| |];
      try discriminate.
    injection H as <-. destruct (IH es eq_refl) as [L Hn].
    split; [simpl; now rewrite L|].
    intros [|i] b Hb; simpl in Hb.
    + injection Hb as <-. now exists e0.
    + now apply Hn.
Qed.

(** What a block's call returns, when it returns, carries the block's
    text. *)
Lemma emit_text raises add_paragraph mode (b : block num) e :
  emit raises add_paragraph mode b = Returns e -> element_text e = text b.
Proof.
  unfold emit, paragraph.
  destruct (num_geb _ _); [destruct (raises _ _)|];
    try (destruct (add_paragraph (text b)); simpl; intros H;
         [injection H as <-; reflexivity|discriminate|discriminate]).
  intros H. injection H as <-. reflexivity.
Qed.

Lemma first_seen_ok : set_iter_ok first_seen.
Proof.
  intros l. unfold first_seen. split.
  - apply NoDup_rev, NoDup_nodup.
  - intros x. rewrite <- in_rev, nodup_In, <- in_rev. reflexivity.
Qed.

End Docx.

(** For sizes of type [int] and when no call on the document raises, the
    tests of lines 173-183 read as bounds on the size. *)
Lemma emit_spec raises add_paragraph (mode : Z) (b : block Z) :
  raises (text b) (heading_level (size b - mode)%Z) = false ->
  add_paragraph (text b) = Returns tt ->
  emit raises add_paragraph mode b
  = Returns (if (mode + 10 <? size b)%Z then Heading 1 (text b)
             else if (mode + 5 <? size b)%Z then Heading 2 (text b)
             else if (mode + 2 <=? size b)%Z then Heading 3 (text b)
             else Paragraph (text b)).
Proof.
  intros Hr Hp. unfold emit, paragraph. cbn [num_geb num_add num_sub num_of_Z Z_Number].
  rewrite Hr, Hp. unfold heading_level. cbn [num_gtb num_of_Z Z_Number outcome_map].
  destruct (Z.leb_spec (mode + 2) (size b));
    destruct (Z.ltb_spec 10 (size b - mode));
    destruct (Z.ltb_spec 5 (size b - mode));
    destruct (Z.ltb_spec (mode + 10) (size b));
    destruct (Z.ltb_spec (mode + 5) (size b));
    try reflexivity; lia.
Qed.

(** C8 (heading levels), as the code has it.  For a non-empty list of
    blocks, whatever the numbers their sizes are, whatever the iteration
    order of the set, and when the calls [add_heading] and [add_paragraph]
    on the blocks' texts do not raise, [create_docx] takes as mode a most
    frequent size and emits each block, in order: as a heading when the
    size is at least mode + 2, of level 1 when size - mode is above 10, of
    level 2 when it is above 5, of level 3 otherwise; and as a body
    paragraph when the size is not at least mode + 2. *)
Theorem C8_heading_levels :
  forall (num : Type) (N : Number num) (set_iter : list num -> list num)
         (add_heading_raises : string -> nat -> bool)
         (add_paragraph : string -> outcome unit)
         (translated_blocks : list (block num)),
    set_iter_ok set_iter ->
    translated_blocks <> [] ->
    (forall b level, In b translated_blocks ->
       add_heading_raises (text b) level = false) ->
    (forall b, In b translated_blocks -> add_paragraph (text b) = Returns tt) ->
    exists mode doc,
      create_docx set_iter add_heading_raises add_paragraph translated_blocks
      = Returns doc
      /\ In mode (map size translated_blocks)
      /\ (forall x, count (map size translated_blocks) x
                    <= count (map size translated_blocks) mode)
      /\ doc = map (fun b =>
                 if num_geb (size b) (num_add mode (num_of_Z 2)) then
                   if num_gtb (num_sub (size b) mode) (num_of_Z 10)
                   then Heading 1 (text b)
                   else if num_gtb (num_sub (size b) mode) (num_of_Z 5)
                   then Heading 2 (text b)
                   else Heading 3 (text b)
                 else Paragraph (text b)) translated_blocks.
Proof.
  intros num N set_iter raises add_paragraph blocks Hok Hne Hr Hp.
  destruct (mode_size_of_spec set_iter (map size blocks) Hok)
    as (mode & Em & Hin & Hmax).
  { destruct blocks; [contradiction|discriminate]. }
  exists mode. eexists.
  unfold create_docx. rewrite Em. split; [|split; [exact Hin|split; [exact Hmax|reflexivity]]].
  apply emit_all_returns. intros b Hb.
  unfold emit, paragraph, heading_level.
  rewrite (Hr b _ Hb), (Hp b Hb).
  destruct (num_geb _ _); [|reflexivity].
  destruct (num_gtb _ _); [reflexivity|].
  destruct (num_gtb _ _); reflexivity.
Qed.

Lemma C8_heading_levels_witness :
  set_iter_ok first_seen
  /\ heading_blocks <> []
  /\ (forall b level, In b heading_blocks ->
        never_raises (text b) level = false)
  /\ (forall b, In b heading_blocks -> paragraph_ok (text b) = Returns tt)
  /\ exists mode doc,
       create_docx first_seen never_raises paragraph_ok heading_blocks
       = Returns doc
       /\ In mode (map size heading_blocks)
       /\ (forall x, count (map size heading_blocks) x
                     <= count (map size heading_blocks) mode)
       /\ doc = map (fun b =>
                  if num_geb (size b) (num_add mode (num_of_Z 2)) then
                    if num_gtb (num_sub (size b) mode) (num_of_Z 10)
                    then Heading 1 (text b)
                    else if num_gtb (num_sub (size b) mode) (num_of_Z 5)
                    then Heading 2 (text b)
                    else Heading 3 (text b)
                  else Paragraph (text b)) heading_blocks.
Proof.
  assert (Hne : heading_blocks <> []) by discriminate.
  assert (Hr : forall b level, In b heading_blocks ->
                 never_raises (text b) level = false) by reflexivity.
  assert (Hp : forall b, In b heading_blocks ->
                 paragraph_ok (text b) = Returns tt) by reflexivity.
  split; [exact first_seen_ok|]. split; [exact Hne|]. split; [exact Hr|].
  split; [exact Hp|].
  exact (C8_heading_levels Z Z_Number first_seen never_raises paragraph_ok
           heading_blocks first_seen_ok Hne Hr Hp).
Defined.

(** C8 as the specification words it fails.  At the boundary: among sizes
    12, 12 and 22 the mode is 12, and the block of size 22 = mode+10 is
    emitted as a level-2 heading, not level 1.  When [add_heading] raises:
    the same block is emitted as a body paragraph.  When [add_paragraph]
    raises, here on a text with a form feed: nothing is emitted, the
    function raises. *)
Lemma C8_boundary_counterexample :
  (create_docx first_seen never_raises paragraph_ok heading_blocks
   = Returns [Paragraph "t"; Paragraph "b"; Heading 2 "h"]
   /\ mode_size_of first_seen (map size heading_blocks) = Returns 12%Z
   /\ (12 + 10 <= 22)%Z)
  /\ create_docx first_seen always_raises paragraph_ok heading_blocks
     = Returns [Paragraph "t"; Paragraph "b"; Paragraph "h"]
  /\ create_docx first_seen strict_heading strict_paragraph form_feed_blocks
     = Raises.
Proof.
  split; [|split; reflexivity].
  split; [reflexivity|]. split; [reflexivity|]. lia.
Qed.

(** The same under every iteration order of the set. *)
Lemma boundary_any_order set_iter :
  set_iter_ok set_iter ->
  create_docx set_iter never_raises paragraph_ok heading_blocks
  = Returns [Paragraph "t"; Paragraph "b"; Heading 2 "h"].
Proof.
  intros Hok.
  destruct (mode_size_of_spec set_iter (map size heading_blocks) Hok)
    as (mode & Em & Hin & Hmax); [discriminate|].
  assert (mode = 12%Z) as ->.
  { simpl in Hin. destruct Hin as [<-|[<-|[<-|[]]]]; try reflexivity.
    specialize (Hmax 12%Z). vm_compute in Hmax. lia. }
  unfold create_docx. rewrite Em. reflexivity.
Qed.

(** ** Trimming, and cutting a joined text *)

Section Strings.

Lemma lstrip_starts s : starts_solid (PyStr.lstrip s).
Proof.
  induction s as [|c s IH]; simpl; [exact I|].
  destruct (PyStr.isspace c) eqn:E; [exact IH|exact E].
Qed.

Lemma lstrip_solid s : starts_solid s -> PyStr.lstrip s = s.
Proof. destruct s as [|c s]; simpl; [reflexivity|]. now intros ->. Qed.

Lemma rstrip_starts s : starts_solid s -> starts_solid (PyStr.rstrip s).
Proof.
  destruct s as [|c s]; simpl; [exact id|]. intros E.
  destruct (PyStr.rstrip s); [rewrite E|]; exact E.
Qed.

Lemma rstrip_idem s : PyStr.rstrip (PyStr.rstrip s) = PyStr.rstrip s.
Proof.
  induction s as [|c s IH]; [reflexivity|]. simpl.
  destruct (PyStr.rstrip s) as [|d r] eqn:E.
  - destruct (PyStr.isspace c) eqn:Ec; [reflexivity|]. simpl. now rewrite Ec.
  - change (PyStr.rstrip (String c (String d r)))
      with (match PyStr.rstrip (String d r) with
            | EmptyString =>
                if PyStr.isspace c then EmptyString else String c EmptyString
            | String _ _ as r0 => String c r0
            end).
    now rewrite IH.
Qed.

(** Trimming twice is trimming once. *)
Lemma strip_idem s : PyStr.strip (PyStr.strip s) = PyStr.strip s.
Proof.
  unfold PyStr.strip.
  rewrite (lstrip_solid (PyStr.rstrip (PyStr.lstrip s))).
  - apply rstrip_idem.
  - apply rstrip_starts, lstrip_starts.
Qed.

Lemma rstrip_newline s :
  PyStr.rstrip (s ++ String PyStr.newline EmptyString) = PyStr.rstrip s.
Proof.
  induction s as [|c s IH]; [reflexivity|].
  change (PyStr.rstrip (String c s ++ String PyStr.newline EmptyString))
    with (match PyStr.rstrip (s ++ String PyStr.newline EmptyString) with
          | EmptyString =>
              if PyStr.isspace c then EmptyString else String c EmptyString
          | String _ _ as r0 => String c r0
          end).
  now rewrite IH.
Qed.

Lemma strip_newline_after s :
  PyStr.strip (s ++ String PyStr.newline EmptyString) = PyStr.strip s.
Proof.
  unfold PyStr.strip. induction s as [|c s IH]; [reflexivity|].
  simpl. destruct (PyStr.isspace c); [exact IH|].
  apply (rstrip_newline (String c s)).
Qed.

Lemma strip_newline_before s :
  PyStr.strip (String PyStr.newline s) = PyStr.strip s.
Proof. reflexivity. Qed.

Lemma prefix_boundary u rest :
  boundary rest -> prefix "|||" (u ++ rest) = prefix "|||" u.
Proof.
  intros [->|[r ->]];
    destruct u as [|c1 [|c2 [|c3 u]]]; cbn [prefix append];
    repeat match goal with
           | |- context [ascii_dec ?a ?b] => destruct (ascii_dec a b)
           end;
    try reflexivity; try (destruct u; reflexivity);
    match goal with
    | H : _ = PyStr.newline |- _ => vm_compute in H; discriminate H
    end.
Qed.

Lemma string_of_list_ascii_app l1 l2 :
  string_of_list_ascii (l1 ++ l2)
  = (string_of_list_ascii l1 ++ string_of_list_ascii l2)%string.
Proof. induction l1 as [|c l1 IH]; simpl; [reflexivity|]. now rewrite IH. Qed.

(** Reading through a text without the token cuts nothing. *)
Lemma split_go_text t : forall cur rest,
  token_free t = true -> boundary rest ->
  PyStr.split_go "|||" 0 cur (t ++ rest)
  = PyStr.split_go "|||" 0 (rev (list_ascii_of_string t) ++ cur) rest.
Proof.
  induction t as [|c t IH]; intros cur rest Hf Hb; [reflexivity|].
  cbn [token_free] in Hf. apply andb_prop in Hf. destruct Hf as [Hp Hf].
  apply negb_true_iff in Hp.
  change ((String c t ++ rest)%string) with (String c (t ++ rest)).
  cbn [PyStr.split_go].
  change (String c (t ++ rest)) with ((String c t ++ rest)%string).
  rewrite (prefix_boundary (String c t) rest Hb), Hp.
  rewrite IH by assumption. cbn [list_ascii_of_string rev].
  now rewrite <- app_assoc.
Qed.

Lemma split_go_separator cur rest :
  PyStr.split_go "|||" 0 cur (SEPARATOR ++ rest)
  = PyStr.rev_string (PyStr.newline :: cur)
    :: PyStr.split_go "|||" 0 [PyStr.newline] rest.
Proof. reflexivity. Qed.

Lemma rev_string_text t cur :
  PyStr.rev_string (rev (list_ascii_of_string t) ++ cur)
  = (string_of_list_ascii (rev cur) ++ t)%string.
Proof.
  unfold PyStr.rev_string.
  now rewrite rev_app_distr, rev_involutive, string_of_list_ascii_app,
    string_of_list_ascii_of_string.
Qed.

Lemma append_assoc (a b c : string) : ((a ++ b) ++ c = a ++ (b ++ c))%string.
Proof. induction a as [|x a IH]; simpl; [reflexivity|]. now rewrite IH. Qed.

Lemma split_join_go ts : forall cur,
  ts <> [] ->
  Forall (fun t => token_free t = true) ts ->
  cur = [] \/ cur = [PyStr.newline] ->
  map PyStr.strip (PyStr.split_go "|||" 0 cur (PyStr.join SEPARATOR ts))
  = map PyStr.strip ts.
Proof.
  induction ts as [|t ts IH]; intros cur Hne Hf Hcur; [contradiction|].
  inversion Hf as [|t' ts' Ht Hts]; subst.
  assert (Hpad : forall s,
             PyStr.strip (string_of_list_ascii (rev cur) ++ s) = PyStr.strip s).
  { intros s. destruct Hcur as [->| ->]; reflexivity. }
  destruct ts as [|t2 ts].
  - cbn [PyStr.join].
    replace t with (t ++ EmptyString)%string at 1
      by (clear; induction t as [|c t IH]; simpl; [|rewrite IH]; reflexivity).
    rewrite split_go_text by (try assumption; now left).
    cbn [PyStr.split_go map]. now rewrite rev_string_text, Hpad.
  - change (PyStr.join SEPARATOR (t :: t2 :: ts))
      with (t ++ SEPARATOR ++ PyStr.join SEPARATOR (t2 :: ts))%string.
    rewrite split_go_text;
      [|assumption|right; eexists; reflexivity].
    rewrite split_go_separator. cbn [map]. f_equal.
    + change (PyStr.newline :: rev (list_ascii_of_string t) ++ cur)
        with (rev (list_ascii_of_string
                     (String PyStr.newline EmptyString)) ++
              rev (list_ascii_of_string t) ++ cur).
      rewrite app_assoc, <- rev_app_distr.
      replace (list_ascii_of_string t
               ++ list_ascii_of_string (String PyStr.newline EmptyString))
        with (list_ascii_of_string (t ++ String PyStr.newline EmptyString)).
      * rewrite rev_string_text, Hpad. apply strip_newline_after.
      * clear. induction t as [|c t IH]; simpl; [|rewrite IH]; reflexivity.
    + apply IH; [discriminate|assumption|now right].
Qed.

Lemma split_join_strip ts :
  ts <> [] ->
  Forall (fun t => token_free t = true) ts ->
  map PyStr.strip (PyStr.split "|||" (PyStr.join SEPARATOR ts))
  = map PyStr.strip ts.
Proof. intros Hne Hf. apply split_join_go; [assumption|assumption|now left]. Qed.

End Strings.

(** X1.  The round trip of the batch protocol: joining texts without the token
    with the separator, cutting the result at the token and trimming gives
    the texts back, trimmed. *)
Theorem split_join_round_trip :
  forall ts : list string,
    ts <> [] ->
    Forall (fun t => token_free t = true) ts ->
    map PyStr.strip (PyStr.split "|||" (PyStr.join SEPARATOR ts))
    = map PyStr.strip ts.
Proof. exact split_join_strip. Qed.

Lemma split_join_round_trip_witness :
  ["Hello"; " wor|ld "; "a||b"] <> []
  /\ Forall (fun t => token_free t = true) ["Hello"; " wor|ld "; "a||b"]
  /\ map PyStr.strip
       (PyStr.split "|||"
          (PyStr.join SEPARATOR ["Hello"; " wor|ld "; "a||b"]))
     = map PyStr.strip ["Hello"; " wor|ld "; "a||b"].
Proof.
  assert (N : ["Hello"; " wor|ld "; "a||b"] <> []) by discriminate.
  assert (F : Forall (fun t => token_free t = true)
                ["Hello"; " wor|ld "; "a||b"])
    by (repeat constructor).
  split; [exact N|]. split; [exact F|].
  exact (split_join_round_trip ["Hello"; " wor|ld "; "a||b"] N F).
Defined.

(** ** The batches and the budget *)

Section Budget.

Lemma join_length sep t ts :
  String.length (PyStr.join sep (t :: ts))
  = list_sum (map String.length (t :: ts)) + String.length sep * List.length ts.
Proof.
  revert t. induction ts as [|t2 ts IH]; intros t.
  - simpl. lia.
  - change (PyStr.join sep (t :: t2 :: ts))
      with (t ++ sep ++ PyStr.join sep (t2 :: ts))%string.
    rewrite !length_append, IH. simpl. lia.
Qed.

Lemma join_length_map {X} (f : X -> string) sep l :
  l <> [] ->
  String.length (PyStr.join sep (map f l))
  = list_sum (map (fun j => String.length (f j)) l)
    + String.length sep * (List.length l - 1).
Proof.
  destruct l as [|x l]; [contradiction|]. intros _.
  cbn [map]. rewrite join_length. cbn [map list_sum List.length].
  rewrite map_map, length_map. f_equal. lia.
Qed.

Lemma list_sum_In x l : In x l -> x <= list_sum l.
Proof.
  induction l as [|y l IH]; simpl; [contradiction|].
  intros [->|H]; [lia|]. specialize (IH H). lia.
Qed.

Lemma batch_budget_bound :
  forall (texts : list string) (b : batch),
    In b (make_batches texts) ->
    2 <= List.length (b_indices b) ->
    String.length (b_text b) <= 4005
    /\ list_sum (map (fun j => String.length
                                 (PyStr.strip (nth j texts EmptyString)))
                   (b_indices b)) <= 4000.
Proof.
  intros texts b Hb Hk.
  pose proof (make_batches_near_budget texts) as N.
  pose proof (make_batches_joined texts) as J.
  rewrite Forall_forall in N, J. specialize (N b Hb). specialize (J b Hb).
  destruct N as [N|N]; [lia|].
  change (String.length SEPARATOR) with 5 in N.
  split; [exact N|].
  unfold joined in J. rewrite J in N.
  rewrite join_length_map in N by (intros E; rewrite E in Hk; simpl in Hk; lia).
  change (String.length SEPARATOR) with 5 in N. lia.
Qed.

(** X4.  A batch of two or more members: its joined text has at most 4005
    characters, and its members' trimmed texts total at most 4000. *)
Theorem batch_budget :
  forall (texts : list string) (b : batch),
    In b (make_batches texts) ->
    2 <= List.length (b_indices b) ->
    String.length (b_text b) <= 4005
    /\ list_sum (map (fun j => String.length
                                 (PyStr.strip (nth j texts EmptyString)))
                   (b_indices b)) <= 4000.
Proof. exact batch_budget_bound. Qed.

Lemma batch_budget_witness :
  In (Batch (PyStr.join SEPARATOR ["Hello"; "world"; "Test"]) [0; 1; 3])
     (make_batches ["Hello"; "world"; ""; " Test "])
  /\ 2 <= List.length [0; 1; 3]
  /\ String.length (PyStr.join SEPARATOR ["Hello"; "world"; "Test"]) <= 4005
  /\ list_sum (map (fun j => String.length
                                (PyStr.strip
                                   (nth j ["Hello"; "world"; ""; " Test "]
                                      EmptyString)))
                 [0; 1; 3]) <= 4000.
Proof.
  assert (H : In (Batch (PyStr.join SEPARATOR ["Hello"; "world"; "Test"])
                    [0; 1; 3])
                 (make_batches ["Hello"; "world"; ""; " Test "]))
    by (left; reflexivity).
  assert (K : 2 <= List.length [0; 1; 3]) by (simpl; lia).
  split; [exact H|]. split; [exact K|].
  exact (batch_budget ["Hello"; "world"; ""; " Test "]
           (Batch (PyStr.join SEPARATOR ["Hello"; "world"; "Test"]) [0; 1; 3])
           H K).
Defined.

(** X5.  A block whose trimmed text is longer than the threshold is never split
    and never shares a batch: it is the only member of its batch, whose text
    is the block's trimmed text. *)
Theorem oversized_block_alone :
  forall (texts : list string) (b : batch) (i : nat),
    In b (make_batches texts) ->
    In i (b_indices b) ->
    4000 < String.length (PyStr.strip (nth i texts EmptyString)) ->
    b_indices b = [i]
    /\ b_text b = PyStr.strip (nth i texts EmptyString).
Proof.
  intros texts b i Hb Hi Hlen.
  pose proof (make_batches_joined texts) as J.
  rewrite Forall_forall in J. specialize (J b Hb). unfold joined in J.
  assert (Hk : List.length (b_indices b) <= 1).
  { destruct (le_lt_dec (List.length (b_indices b)) 1) as [H|H]; [exact H|].
    destruct (batch_budget_bound texts b Hb H) as [_ S].
    assert (Hin : In (String.length (PyStr.strip (nth i texts EmptyString)))
                     (map (fun j => String.length
                                      (PyStr.strip (nth j texts EmptyString)))
                        (b_indices b))).
    { apply in_map_iff. now exists i. }
    apply list_sum_In in Hin. lia. }
  destruct (b_indices b) as [|j [|j2 idxs]]; simpl in Hk; try lia.
  - contradiction.
  - destruct Hi as [->|[]]. split; [reflexivity|exact J].
Qed.

Lemma oversized_block_alone_witness :
  In (Batch (PyStr.replicate 4001 "a") [0])
     (make_batches [PyStr.replicate 4001 "a"])
  /\ In 0 [0]
  /\ 4000 < String.length
              (PyStr.strip (nth 0 [PyStr.replicate 4001 "a"] EmptyString))
  /\ [0] = [0]
  /\ PyStr.replicate 4001 "a"
     = PyStr.strip (nth 0 [PyStr.replicate 4001 "a"] EmptyString).
Proof.
  assert (H : In (Batch (PyStr.replicate 4001 "a") [0])
                 (make_batches [PyStr.replicate 4001 "a"]))
    by (right; left; vm_compute; reflexivity).
  assert (K : In 0 [0]) by (left; reflexivity).
  assert (L : 4000 < String.length
                       (PyStr.strip
                          (nth 0 [PyStr.replicate 4001 "a"] EmptyString)))
    by (vm_compute; repeat constructor).
  split; [exact H|]. split; [exact K|]. split; [exact L|].
  exact (oversized_block_alone [PyStr.replicate 4001 "a"]
           (Batch (PyStr.replicate 4001 "a") [0]) 0 H K L).
Defined.

End Budget.

(** ** Provider calls, outages, and what one batch may change *)

Section Calls.

Context {Size St : Type}.
Variable translate : St -> string -> outcome string * St.
Variable n0 : nat.
Variable content_blocks : list addr.

Lemma after_member_calls idx (w : world Size St) :
  exists c, w_calls (after_member translate n0 content_blocks idx w)
            = w_calls w ++ [c].
Proof.
  unfold after_member.
  destruct (fst (translate (w_tr w) _)); eexists; reflexivity.
Qed.

Lemma after_fallback_calls indices : forall w : world Size St,
  exists l,
    w_calls (after_fallback translate n0 content_blocks indices w)
    = w_calls w ++ l
    /\ List.length l = List.length indices.
Proof.
  induction indices as [|idx rest IH]; intros w; simpl.
  - exists []. now rewrite app_nil_r.
  - destruct (after_member_calls idx w) as [c Hc].
    destruct (IH (after_member translate n0 content_blocks idx w))
      as (l & Hl & Hn).
    exists (c :: l). rewrite Hl, Hc, <- app_assoc. split; [reflexivity|].
    simpl. now rewrite Hn.
Qed.

Lemma after_batch_calls b (w : world Size St) :
  exists l,
    w_calls (after_batch translate n0 content_blocks b w)
    = w_calls w ++ (WholeBatch, b_text b) :: l
    /\ List.length l <= List.length (b_indices b).
Proof.
  unfold after_batch.
  set (w1 := note_call WholeBatch (b_text b) _ w).
  assert (F : exists l,
            w_calls (after_fallback translate n0 content_blocks
                       (b_indices b) w1)
            = w_calls w ++ (WholeBatch, b_text b) :: l
            /\ List.length l <= List.length (b_indices b)).
  { destruct (after_fallback_calls (b_indices b) w1) as (l & Hl & Hn).
    exists l. rewrite Hl. unfold w1, note_call. simpl.
    rewrite <- app_assoc. split; [reflexivity|lia]. }
  destruct (fst (translate (w_tr w) (b_text b))) as [chunk| |]; [|exact F|].
  - destruct (_ =? _); [|exact F].
    exists []. destruct (put_parts_calls n0 (combine (b_indices b)
                           (map PyStr.strip (PyStr.split "|||" chunk))) w1)
      as [-> _].
    split; [reflexivity|simpl; lia].
  - exists []. split; [reflexivity|simpl; lia].
Qed.

(** The calls of a loop over batches, however it ends: at most one per
    batch and one more per member; at least one per batch when it
    returns. *)
Lemma batches_calls bs : forall (w : world Size St) o w',
  Forall (fun idx => idx < List.length content_blocks) (members bs) ->
  for_each bs
    (process_batch translate content_blocks
       (seq n0 (List.length content_blocks))) w = (o, w') ->
  exists l,
    w_calls w' = w_calls w ++ l
    /\ List.length l <= List.length bs + List.length (members bs)
    /\ (o = Returns tt -> List.length bs <= List.length l).
Proof.
  induction bs as [|b bs IH]; intros w o w' V H.
  - simpl in H. unfold ret in H. injection H as <- <-.
    exists []. rewrite app_nil_r. simpl. repeat split; lia.
  - unfold members in V. simpl in V. apply Forall_app in V.
    destruct V as [Vb Vbs]. simpl in H. unfold bind in H.
    rewrite (process_batch_valid translate n0 content_blocks b w Vb) in H.
    destruct (after_batch_calls b w) as (lb & Hb & Nb).
    rewrite members_cons, length_app.
    destruct (batch_outcome translate b w) as [[]| |].
    + destruct (IH _ o w' Vbs H) as (l & Hl & N1 & N2).
      exists ((WholeBatch, b_text b) :: lb ++ l).
      rewrite Hl, Hb, <- app_assoc. split; [reflexivity|].
      simpl. rewrite length_app. split; [lia|].
      intros Ho. specialize (N2 Ho). lia.
    + injection H as <- <-. exists ((WholeBatch, b_text b) :: lb).
      split; [exact Hb|]. simpl. split; [lia|discriminate].
    + injection H as <- <-. exists ((WholeBatch, b_text b) :: lb).
      split; [exact Hb|]. simpl. split; [lia|discriminate].
Qed.

(** When every call raises, nothing is written. *)
Lemma outage_after_batches bs : forall w : world Size St,
  (forall st s, fst (translate st s) = Raises) ->
  w_heap (after_batches translate n0 content_blocks bs w) = w_heap w.
Proof.
  intros w Hout. revert w.
  assert (Hf : forall indices (w : world Size St),
             w_heap (after_fallback translate n0 content_blocks indices w)
             = w_heap w).
  { induction indices as [|idx rest IH]; intros w; simpl; [reflexivity|].
    rewrite IH. unfold after_member. now rewrite Hout. }
  induction bs as [|b bs IH]; intros w; simpl; [reflexivity|].
  rewrite IH. unfold after_batch. rewrite Hout. now rewrite Hf.
Qed.

End Calls.

(** X8.  However the run ends, the provider is called at most once per batch
    and once more per translatable block; when the run returns, it was
    called at least once per batch.  The run returns unless a call on the
    joined text of a batch raises an exception that is not an
    [Exception]. *)
Theorem provider_call_bounds :
  forall (Size St : Type) (translate : St -> string -> outcome string * St)
         (w0 : world Size St) (content_blocks : list addr),
    well_formed w0 content_blocks ->
    exists r w1 calls,
      translate_content translate content_blocks w0 = (r, w1)
      /\ run_end translate w0 content_blocks r
      /\ w_calls w1 = w_calls w0 ++ calls
      /\ List.length calls
         <= List.length (make_batches (input_texts w0 content_blocks))
            + List.length (translatable_indices
                             (input_texts w0 content_blocks))
      /\ ((exists results, r = Returns results) ->
          List.length (make_batches (input_texts w0 content_blocks))
          <= List.length calls).
Proof.
  intros Size St translate w0 cbs Hwf.
  destruct (run_general translate w0 cbs Hwf)
    as (wc & o & w1 & Ec & Eb & E & _ & Hend).
  destruct (copy_all_spec cbs w0 Hwf) as (wc' & Ec' & _ & _ & C & _).
  rewrite Ec in Ec'. injection Ec' as <-.
  destruct (batches_calls translate (next (w_heap w0)) cbs
              (make_batches (input_texts w0 cbs)) wc o w1
              (members_in_range w0 cbs) Eb) as (l & Hl & N1 & N2).
  exists (outcome_map (fun _ => seq (next (w_heap w0)) (List.length cbs)) o),
         w1, l.
  split; [exact E|]. split; [exact Hend|]. rewrite Hl, C.
  split; [reflexivity|]. rewrite make_batches_members in N1.
  split; [exact N1|].
  intros [results Hr]. apply N2.
  destruct o as [[]| |]; [reflexivity|discriminate|discriminate].
Qed.

Lemma provider_call_bounds_witness :
  well_formed scenario_world [0; 1; 2; 3]
  /\ exists r w1 calls,
       translate_content upper_adapter [0; 1; 2; 3] scenario_world = (r, w1)
       /\ run_end upper_adapter scenario_world [0; 1; 2; 3] r
       /\ w_calls w1 = w_calls scenario_world ++ calls
       /\ List.length calls
          <= List.length (make_batches
                            (input_texts scenario_world [0; 1; 2; 3]))
             + List.length (translatable_indices
                              (input_texts scenario_world [0; 1; 2; 3]))
       /\ ((exists results, r = Returns results) ->
           List.length (make_batches (input_texts scenario_world [0; 1; 2; 3]))
           <= List.length calls).
Proof.
  assert (H : well_formed scenario_world [0; 1; 2; 3]).
  { unfold well_formed. simpl. repeat constructor. }
  split; [exact H|].
  exact (provider_call_bounds Z unit upper_adapter scenario_world
           [0; 1; 2; 3] H).
Defined.

(** X9.  A provider outage leaves the document intact: when every call raises
    an [Exception], the run still returns, and the result list reads as the
    input list. *)
Theorem outage_keeps_document :
  forall (Size St : Type) (translate : St -> string -> outcome string * St)
         (w0 : world Size St) (content_blocks : list addr),
    well_formed w0 content_blocks ->
    (forall st s, fst (translate st s) = Raises) ->
    exists results w1,
      translate_content translate content_blocks w0 = (Returns results, w1)
      /\ read_blocks (w_heap w1) results
         = read_blocks (w_heap w0) content_blocks.
Proof.
  intros Size St translate w0 cbs Hwf Hout.
  assert (Hne : forall b st,
             In b (make_batches (input_texts w0 cbs)) ->
             fst (translate st (b_text b)) <> RaisesBase).
  { intros b st _. rewrite Hout. discriminate. }
  destruct (run_spec translate w0 cbs Hwf Hne) as (wc & w1 & Ec & E & Ew & _).
  destruct (copy_all_spec cbs w0 Hwf) as (wc' & Ec' & _ & _ & _ & _ & New).
  rewrite Ec in Ec'. injection Ec' as <-.
  exists (seq (next (w_heap w0)) (List.length cbs)), w1.
  split; [exact E|]. rewrite Ew, outage_after_batches by exact Hout.
  unfold read_blocks. now apply map_cells_seq.
Qed.

Lemma outage_keeps_document_witness :
  well_formed scenario_world [0; 1; 2; 3]
  /\ (forall st s, fst (failing_adapter st s) = Raises)
  /\ exists results w1,
       translate_content failing_adapter [0; 1; 2; 3] scenario_world
       = (Returns results, w1)
       /\ read_blocks (w_heap w1) results
          = read_blocks (w_heap scenario_world) [0; 1; 2; 3].
Proof.
  assert (H : well_formed scenario_world [0; 1; 2; 3]).
  { unfold well_formed. simpl. repeat constructor. }
  assert (O : forall st s, fst (failing_adapter st s) = Raises)
    by reflexivity.
  split; [exact H|]. split; [exact O|].
  exact (outage_keeps_document Z unit failing_adapter scenario_world
           [0; 1; 2; 3] H O).
Defined.

(** X10.  Processing one batch raises nothing but the exception, not an
    [Exception], of its call on the joined text, and returns otherwise;
    however it ends, it changes no [size] and writes only to the results of
    the batch's own members: the results of every other batch stay as they
    are, also when the batch falls back. *)
Theorem batch_touches_own_members :
  forall (Size St : Type) (translate : St -> string -> outcome string * St)
         (content_blocks : list addr) (n0 n : nat) (b : batch)
         (w : world Size St),
    exists o w',
      process_batch translate content_blocks (seq n0 n) b w = (o, w')
      /\ o = match fst (translate (w_tr w) (b_text b)) with
             | RaisesBase => RaisesBase
             | _ => Returns tt
             end
      /\ (forall a, size (cells (w_heap w') a) = size (cells (w_heap w) a))
      /\ (forall a, (forall i, In i (b_indices b) -> a <> n0 + i) ->
            cells (w_heap w') a = cells (w_heap w) a).
Proof.
  intros Size St translate cbs n0 n b w.
  pose proof (process_batch_outcome translate cbs (seq n0 n) b w) as Ho.
  pose proof (touches_process_batch translate n0 n cbs b w) as (_ & S & C & _).
  destruct (process_batch translate cbs (seq n0 n) b w) as [o w'] eqn:E.
  simpl in *. exists o, w'. split; [reflexivity|]. split; [|now split].
  rewrite Ho. unfold batch_outcome.
  destruct (fst (translate (w_tr w) (b_text b))); reflexivity.
Qed.

(** ** A provider that translates member by member *)

Section Memberwise.

Context {Size St : Type}.
Variable translate : St -> string -> outcome string * St.

(** What the provider does to one text. *)
Variable g : string -> string.

(** It keeps the separators of a joined text and translates between them. *)
Hypothesis keeps_separators : forall st ts,
  fst (translate st (PyStr.join SEPARATOR ts))
  = Returns (PyStr.join SEPARATOR (map g ts)).

Variable n0 : nat.
Variable content_blocks : list addr.
Variable texts : list string.

Lemma in_combine_map {X Y} (F : X -> Y) l x :
  In x l -> In (x, F x) (combine l (map F l)).
Proof.
  induction l as [|y l IH]; simpl; [exact id|].
  intros [->|H]; [now left|right; now apply IH].
Qed.

Lemma memberwise_after_batch b (w : world Size St) :
  joined texts b ->
  (forall j, In j (b_indices b) ->
     token_free (g (PyStr.strip (nth j texts EmptyString))) = true) ->
  after_batch translate n0 content_blocks b w
  = put_parts n0
      (combine (b_indices b)
         (map (fun j => PyStr.strip (g (PyStr.strip (nth j texts EmptyString))))
            (b_indices b)))
      (note_call WholeBatch (b_text b)
         (snd (translate (w_tr w) (b_text b))) w).
Proof.
  intros J Hf. unfold after_batch.
  pose proof (keeps_separators (w_tr w)
                (map (fun j => PyStr.strip (nth j texts EmptyString))
                   (b_indices b))) as E.
  unfold joined in J. rewrite <- J in E. rewrite E. clear E.
  destruct (b_indices b) as [|i idxs] eqn:Ei; [reflexivity|].
  rewrite split_join_strip.
  - rewrite !map_map, !length_map, Nat.eqb_refl. reflexivity.
  - discriminate.
  - rewrite map_map. apply Forall_forall. intros t Ht.
    apply in_map_iff in Ht. destruct Ht as [j [<- Hj]]. now apply Hf.
Qed.

Lemma memberwise_calls bs : forall w : world Size St,
  Forall (joined texts) bs ->
  (forall j, In j (members bs) ->
     token_free (g (PyStr.strip (nth j texts EmptyString))) = true) ->
  w_calls (after_batches translate n0 content_blocks bs w)
  = w_calls w ++ map (fun b => (WholeBatch, b_text b)) bs.
Proof.
  induction bs as [|b bs IH]; intros w J Hf; simpl.
  - now rewrite app_nil_r.
  - inversion J as [|b' bs' Jb Jbs]; subst.
    rewrite IH.
    + rewrite memberwise_after_batch.
      * destruct (put_parts_calls n0
                    (combine (b_indices b)
                       (map (fun j => PyStr.strip
                                        (g (PyStr.strip
                                              (nth j texts EmptyString))))
                          (b_indices b)))
                    (note_call WholeBatch (b_text b)
                       (snd (translate (w_tr w) (b_text b))) w)) as [-> _].
        unfold note_call. simpl. now rewrite <- app_assoc.
      * exact Jb.
      * intros j Hj. apply Hf. rewrite members_cons. apply in_or_app. now left.
    + exact Jbs.
    + intros j Hj. apply Hf. rewrite members_cons. apply in_or_app. now right.
Qed.

End Memberwise.

Lemma map_cells_seq_fun {Size} (F : block Size -> block Size)
  (h1 h0 : heap Size) l : forall n0,
  (forall i a, nth_error l i = Some a -> cells h1 (n0 + i) = F (cells h0 a)) ->
  map (cells h1) (seq n0 (List.length l)) = map F (map (cells h0) l).
Proof.
  induction l as [|a l IH]; intros n0 H; simpl; [reflexivity|]. f_equal.
  - rewrite <- (H 0 a eq_refl). f_equal. lia.
  - apply IH. intros i b Hb. rewrite <- (H (S i) b Hb). f_equal. lia.
Qed.

(** X2.  Fast-path correctness, end to end.  With a provider that keeps the
    separators of a joined text and turns each text between them into [g]
    of it, and when no translation contains the token, every block with
    text to translate comes back with the trimmed translation of its
    trimmed text, every other block comes back as it is, and the run costs
    exactly one call per batch. *)
Theorem memberwise_provider :
  forall (Size St : Type) (translate : St -> string -> outcome string * St)
         (g : string -> string)
         (w0 : world Size St) (content_blocks : list addr),
    well_formed w0 content_blocks ->
    (forall st ts,
        fst (translate st (PyStr.join SEPARATOR ts))
        = Returns (PyStr.join SEPARATOR (map g ts))) ->
    (forall a, In a content_blocks ->
        token_free (g (PyStr.strip (text (cells (w_heap w0) a)))) = true) ->
    exists results w1,
      translate_content translate content_blocks w0 = (Returns results, w1)
      /\ read_blocks (w_heap w1) results
         = map (fun b =>
                  if translatable (text b)
                  then Block (PyStr.strip (g (PyStr.strip (text b)))) (size b)
                  else b)
             (read_blocks (w_heap w0) content_blocks)
      /\ w_calls w1
         = w_calls w0
           ++ map (fun b => (WholeBatch, b_text b))
                (make_batches (input_texts w0 content_blocks)).
Proof.
  intros Size St translate g w0 cbs Hwf Hkeep Hfree.
  set (texts := input_texts w0 cbs).
  set (n0 := next (w_heap w0)).
  assert (Hf : forall j, In j (members (make_batches texts)) ->
             token_free (g (PyStr.strip (nth j texts EmptyString))) = true).
  { intros j Hj. rewrite make_batches_members in Hj.
    apply translatable_indices_spec in Hj. destruct Hj as [Hj _].
    unfold texts, input_texts in Hj. rewrite length_map in Hj.
    unfold texts.
    destruct (nth_input_texts w0 cbs j (nth j cbs 0)
                (nth_error_nth' cbs 0 Hj)) as [_ ->].
    apply Hfree, nth_In, Hj. }
  assert (Hne : forall b st, In b (make_batches texts) ->
             fst (translate st (b_text b)) <> RaisesBase).
  { intros b st Hb. pose proof (make_batches_joined texts) as J.
    rewrite Forall_forall in J. rewrite (J b Hb), Hkeep. discriminate. }
  destruct (run_spec translate w0 cbs Hwf Hne) as (wc & w1 & Ec & E & Ew & _).
  destruct (run_facts translate w0 cbs Hwf)
    as (r & w1' & E' & _ & _ & _ & S & Keep & _).
  rewrite E in E'. injection E' as <- <-.
  destruct (copy_all_spec cbs w0 Hwf) as (wc' & Ec' & _ & _ & C & _).
  rewrite Ec in Ec'. injection Ec' as <-.
  exists (seq n0 (List.length cbs)), w1.
  split; [exact E|]. split.
  - unfold read_blocks. apply map_cells_seq_fun. intros i a Ea.
    destruct (translatable (text (cells (w_heap w0) a))) eqn:Et;
      [|now apply Keep].
    destruct (nth_input_texts w0 cbs i a Ea) as [Hi Hn]. fold texts in Hi, Hn.
    assert (Hm : In i (members (make_batches texts))).
    { rewrite make_batches_members. apply translatable_indices_spec.
      split; [exact Hi|]. now rewrite Hn. }
    apply in_members in Hm. destruct Hm as (b & Hb & Hib).
    destruct (in_split b _ Hb) as (pre & post & Hbs).
    assert (Hreach : reached translate cbs pre w0).
    { apply (reached_no_raise translate w0 cbs pre (b :: post) Hwf Hbs).
      intros b' st Hb'. apply Hne. fold texts in Hbs. rewrite Hbs.
      apply in_or_app. now left. }
    assert (Hnb : ~ escapes_at translate cbs w0 pre b).
    { unfold escapes_at. now apply Hne. }
    destruct (batch_context translate w0 cbs pre b post Hwf Hbs Hreach Hnb)
      as (_ & NDb & _ & _ & r & w1' & E' & _ & _ & Hpost).
    rewrite E in E'. injection E' as <- <-.
    specialize (Hpost i Hib). fold n0 in Hpost.
    assert (Jb : joined texts b).
    { pose proof (make_batches_joined texts) as J.
      rewrite Forall_forall in J. now apply J. }
    rewrite (memberwise_after_batch translate g Hkeep n0 cbs texts b _ Jb)
      in Hpost
      by (intros j Hj; apply Hf; apply in_members; now exists b).
    assert (Ht : text (cells (w_heap w1) (n0 + i))
                 = PyStr.strip (g (PyStr.strip (text (cells (w_heap w0) a))))).
    { rewrite Hpost, <- Hn.
      apply (put_parts_text n0
               (combine (b_indices b)
                  (map (fun j => PyStr.strip
                                   (g (PyStr.strip (nth j texts EmptyString))))
                     (b_indices b)))
               i (PyStr.strip (g (PyStr.strip (nth i texts EmptyString))))).
      - now apply combine_NoDup_fst.
      - now apply (in_combine_map
                     (fun j => PyStr.strip
                                 (g (PyStr.strip (nth j texts EmptyString))))). }
    specialize (S i a Ea). fold n0 in S.
    destruct (cells (w_heap w1) (n0 + i)) as [t s]. simpl in *. now subst.
  - rewrite Ew.
    rewrite (memberwise_calls translate g Hkeep n0 cbs texts).
    + now rewrite C.
    + apply make_batches_joined.
    + exact Hf.
Qed.

Lemma map_string_app f (a b : string) :
  map_string f (a ++ b) = (map_string f a ++ map_string f b)%string.
Proof. induction a as [|c a IH]; simpl; [reflexivity|]. now rewrite IH. Qed.

Lemma upper_join ts :
  map_string upper (PyStr.join SEPARATOR ts)
  = PyStr.join SEPARATOR (map (map_string upper) ts).
Proof.
  induction ts as [|t ts IH]; [reflexivity|].
  destruct ts as [|t2 ts]; [reflexivity|].
  change (PyStr.join SEPARATOR (t :: t2 :: ts))
    with (t ++ SEPARATOR ++ PyStr.join SEPARATOR (t2 :: ts))%string.
  rewrite !map_string_app, IH. reflexivity.
Qed.

Lemma memberwise_provider_witness :
  well_formed scenario_world [0; 1; 2; 3]
  /\ (forall st ts,
        fst (upper_adapter st (PyStr.join SEPARATOR ts))
        = Returns (PyStr.join SEPARATOR (map (map_string upper) ts)))
  /\ (forall a, In a [0; 1; 2; 3] ->
        token_free (map_string upper
                      (PyStr.strip (text (cells (w_heap scenario_world) a))))
        = true)
  /\ exists results w1,
       translate_content upper_adapter [0; 1; 2; 3] scenario_world
       = (Returns results, w1)
       /\ read_blocks (w_heap w1) results
          = map (fun b =>
                   if translatable (text b)
                   then Block (PyStr.strip
                                 (map_string upper (PyStr.strip (text b))))
                          (size b)
                   else b)
              (read_blocks (w_heap scenario_world) [0; 1; 2; 3])
       /\ w_calls w1
          = w_calls scenario_world
            ++ map (fun b => (WholeBatch, b_text b))
                 (make_batches (input_texts scenario_world [0; 1; 2; 3])).
Proof.
  assert (H : well_formed scenario_world [0; 1; 2; 3]).
  { unfold well_formed. simpl. repeat constructor. }
  assert (K : forall st ts,
             fst (upper_adapter st (PyStr.join SEPARATOR ts))
             = Returns (PyStr.join SEPARATOR (map (map_string upper) ts))).
  { intros st ts. unfold upper_adapter. simpl. now rewrite upper_join. }
  assert (F : forall a, In a [0; 1; 2; 3] ->
             token_free (map_string upper
                           (PyStr.strip
                              (text (cells (w_heap scenario_world) a))))
             = true).
  { intros a [<-|[<-|[<-|[<-|[]]]]]; reflexivity. }
  split; [exact H|]. split; [exact K|]. split; [exact F|].
  exact (memberwise_provider Z unit upper_adapter (map_string upper)
           scenario_world [0; 1; 2; 3] H K F).
Defined.

(** ** More of [create_docx] *)

Section DocxMore.

Context {num : Type} {N : Number num}.

Lemma last_seen_ok : set_iter_ok last_seen.
Proof.
  intros l. unfold last_seen. split; [apply NoDup_nodup|].
  intros x. apply nodup_In.
Qed.

Lemma emit_all_texts raises add_paragraph (mode : num) blocks : forall doc,
  emit_all raises add_paragraph mode blocks = Returns doc ->
  map element_text doc = map text blocks.
Proof.
  induction blocks as [|b blocks IH]; intros doc H; simpl in H.
  - now injection H as <-.
  - destruct (emit raises add_paragraph mode b) as [e| |] eqn:E;
      try discriminate.
    destruct (emit_all raises add_paragraph mode blocks) as [es| |];
      try discriminate.
    injection H as <-. simpl. now rewrite (emit_text _ _ _ _ _ E), (IH es).
Qed.

(** A block whose text [add_paragraph] takes gets its element. *)
Lemma emit_returns raises add_paragraph (mode : num) b :
  add_paragraph (text b) = Returns tt ->
  exists e, emit raises add_paragraph mode b = Returns e.
Proof.
  intros Hp. unfold emit, paragraph. rewrite Hp.
  destruct (num_geb _ _); [destruct (raises _ _)|]; eexists; reflexivity.
Qed.

Lemma emit_all_total raises add_paragraph (mode : num) blocks :
  (forall b, In b blocks -> add_paragraph (text b) = Returns tt) ->
  exists doc, emit_all raises add_paragraph mode blocks = Returns doc.
Proof.
  induction blocks as [|b blocks IH]; intros Hp; [now exists []|].
  destruct (emit_returns raises add_paragraph mode b
              (Hp b (or_introl eq_refl))) as [e He].
  destruct IH as [es Hes]; [intros b' Hb'; apply Hp; now right|].
  exists (e :: es). simpl. now rewrite He, Hes.
Qed.

(** With a document that takes in a paragraph no text it refuses in a
    heading, an element that was emitted is the heading its size stands
    for. *)
Lemma emit_heading raises add_paragraph (mode : num) b e :
  (forall t level, raises t level = true -> add_paragraph t <> Returns tt) ->
  emit raises add_paragraph mode b = Returns e ->
  heading_of e = heading_for mode (size b).
Proof.
  intros Hc. unfold emit, paragraph, heading_for.
  destruct (num_geb _ _).
  - destruct (raises _ _) eqn:Er.
    + specialize (Hc _ _ Er).
      destruct (add_paragraph (text b)) as [[]| |]; simpl;
        [contradiction|discriminate|discriminate].
    + intros H. now injection H as <-.
  - destruct (add_paragraph (text b)); simpl; intros H;
      [injection H as <-; reflexivity|discriminate|discriminate].
Qed.

Lemma emit_all_headings raises add_paragraph (mode : num) blocks : forall doc,
  (forall t level, raises t level = true -> add_paragraph t <> Returns tt) ->
  emit_all raises add_paragraph mode blocks = Returns doc ->
  map heading_of doc = map (heading_for mode) (map size blocks).
Proof.
  induction blocks as [|b blocks IH]; intros doc Hc H; simpl in H.
  - now injection H as <-.
  - destruct (emit raises add_paragraph mode b) as [e| |] eqn:E;
      try discriminate.
    destruct (emit_all raises add_paragraph mode blocks) as [es| |];
      try discriminate.
    injection H as <-. simpl.
    now rewrite (emit_heading _ _ _ _ _ Hc E), (IH es Hc eq_refl).
Qed.

Lemma map_seq_ext {B} (F1 F0 : nat -> B) (l : list nat) : forall n0,
  (forall i a, nth_error l i = Some a -> F1 (n0 + i) = F0 a) ->
  map F1 (seq n0 (List.length l)) = map F0 l.
Proof.
  induction l as [|a l IH]; intros n0 H; simpl; [reflexivity|]. f_equal.
  - rewrite <- (H 0 a eq_refl). f_equal. lia.
  - apply IH. intros i b Hb. rewrite <- (H (S i) b Hb). f_equal. lia.
Qed.

End DocxMore.

(** X11.  When [create_docx] returns, the document has one element per block,
    in order, carrying the block's text, also for the headings whose
    [add_heading] raised; and it returns, the empty list included, when
    [add_paragraph] raises on none of the blocks' texts. *)
Theorem docx_keeps_texts :
  forall (num : Type) (N : Number num) (set_iter : list num -> list num)
         (add_heading_raises : string -> nat -> bool)
         (add_paragraph : string -> outcome unit)
         (translated_blocks : list (block num)),
    set_iter_ok set_iter ->
    (forall doc,
        create_docx set_iter add_heading_raises add_paragraph translated_blocks
        = Returns doc ->
        map element_text doc = map text translated_blocks)
    /\ ((forall b, In b translated_blocks ->
           add_paragraph (text b) = Returns tt) ->
        exists doc,
          create_docx set_iter add_heading_raises add_paragraph
            translated_blocks
          = Returns doc).
Proof.
  intros num N set_iter raises add_paragraph blocks Hok. split.
  - intros doc H. unfold create_docx in H.
    destruct (mode_size_of set_iter (map size blocks)) as [mode| |];
      try discriminate.
    exact (emit_all_texts raises add_paragraph mode blocks doc H).
  - intros Hp. unfold create_docx.
    destruct blocks as [|b blocks]; [now exists []|].
    destruct (mode_size_of_spec set_iter (map size (b :: blocks)) Hok)
      as (mode & Em & _); [discriminate|].
    rewrite Em. now apply emit_all_total.
Qed.

Lemma docx_keeps_texts_witness :
  set_iter_ok first_seen
  /\ (forall doc,
        create_docx first_seen always_raises paragraph_ok heading_blocks
        = Returns doc ->
        map element_text doc = map text heading_blocks)
  /\ ((forall b, In b heading_blocks -> paragraph_ok (text b) = Returns tt) ->
      exists doc,
        create_docx first_seen always_raises paragraph_ok heading_blocks
        = Returns doc).
Proof.
  split; [exact first_seen_ok|].
  exact (docx_keeps_texts Z Z_Number first_seen always_raises paragraph_ok
           heading_blocks first_seen_ok).
Defined.

(** X12.  A document in a single size has no headings: when [add_paragraph]
    does not raise on the blocks' texts, every block is a body paragraph. *)
Theorem uniform_size_all_body :
  forall (set_iter : list Z -> list Z)
         (add_heading_raises : string -> nat -> bool)
         (add_paragraph : string -> outcome unit)
         (translated_blocks : list (block Z)) (s : Z),
    set_iter_ok set_iter ->
    (forall b, In b translated_blocks -> size b = s) ->
    (forall b, In b translated_blocks -> add_paragraph (text b) = Returns tt) ->
    create_docx set_iter add_heading_raises add_paragraph translated_blocks
    = Returns (map (fun b => Paragraph (text b)) translated_blocks).
Proof.
  intros set_iter raises add_paragraph blocks s Hok Hs Hp.
  destruct blocks as [|b0 blocks]; [reflexivity|].
  destruct (mode_size_of_spec set_iter (map size (b0 :: blocks)) Hok)
    as (mode & Em & Hin & _); [discriminate|].
  unfold create_docx. rewrite Em.
  apply in_map_iff in Hin. destruct Hin as (bm & Hbm & Hin).
  apply emit_all_returns. intros b Hb. unfold emit, paragraph.
  rewrite (Hs b Hb), <- Hbm, (Hs bm Hin), (Hp b Hb).
  cbn [num_geb num_add num_of_Z Z_Number].
  destruct (Z.leb_spec (s + 2) s); [lia|reflexivity].
Qed.

Lemma uniform_size_all_body_witness :
  set_iter_ok first_seen
  /\ (forall b, In b [Block "a" 11%Z; Block "b" 11%Z] -> size b = 11%Z)
  /\ (forall b, In b [Block "a" 11%Z; Block "b" 11%Z] ->
        paragraph_ok (text b) = Returns tt)
  /\ create_docx first_seen never_raises paragraph_ok
       [Block "a" 11%Z; Block "b" 11%Z]
     = Returns (map (fun b => Paragraph (text b))
                  [Block "a" 11%Z; Block "b" 11%Z]).
Proof.
  assert (U : forall b, In b [Block "a" 11%Z; Block "b" 11%Z] ->
                        size b = 11%Z).
  { intros b [<-|[<-|[]]]; reflexivity. }
  assert (P : forall b, In b [Block "a" 11%Z; Block "b" 11%Z] ->
                        paragraph_ok (text b) = Returns tt) by reflexivity.
  split; [exact first_seen_ok|]. split; [exact U|]. split; [exact P|].
  exact (uniform_size_all_body first_seen never_raises paragraph_ok
           [Block "a" 11%Z; Block "b" 11%Z] 11%Z first_seen_ok U P).
Defined.

(** X13.  A larger block never stands out less: when [add_heading] does not
    raise, of two blocks the one with the larger size gets a heading at
    least as prominent (body, then levels 3, 2, 1). *)
Theorem larger_size_more_prominent :
  forall (set_iter : list Z -> list Z)
         (add_heading_raises : string -> nat -> bool)
         (add_paragraph : string -> outcome unit)
         (translated_blocks : list (block Z)) (doc : list element)
         (i j : nat) (bi bj : block Z) (ei ej : element),
    (forall t level, add_heading_raises t level = false) ->
    create_docx set_iter add_heading_raises add_paragraph translated_blocks
    = Returns doc ->
    nth_error translated_blocks i = Some bi ->
    nth_error translated_blocks j = Some bj ->
    nth_error doc i = Some ei ->
    nth_error doc j = Some ej ->
    (size bi <= size bj)%Z ->
    prominence ei <= prominence ej.
Proof.
  intros set_iter raises add_paragraph blocks doc i j bi bj ei ej
    Hr E Hi Hj Hei Hej Hle.
  unfold create_docx in E.
  destruct (mode_size_of set_iter (map size blocks)) as [mode| |];
    try discriminate.
  destruct (emit_all_nth raises add_paragraph mode blocks doc E) as [_ Hn].
  destruct (Hn i bi Hi) as (ei' & Hei' & Ei).
  destruct (Hn j bj Hj) as (ej' & Hej' & Ej).
  rewrite Hei in Hei'. injection Hei' as <-.
  rewrite Hej in Hej'. injection Hej' as <-.
  unfold emit, paragraph, heading_level in Ei, Ej. rewrite !Hr in Ei, Ej.
  cbn [num_geb num_gtb num_add num_sub num_of_Z Z_Number] in Ei, Ej.
  destruct (Z.leb_spec (mode + 2) (size bi));
    destruct (Z.leb_spec (mode + 2) (size bj));
    destruct (Z.ltb_spec 10 (size bi - mode));
    destruct (Z.ltb_spec 10 (size bj - mode));
    destruct (Z.ltb_spec 5 (size bi - mode));
    destruct (Z.ltb_spec 5 (size bj - mode));
    try lia;
    repeat match goal with
           | H : Returns _ = Returns _ |- _ => injection H as <-
           | H : outcome_map _ ?o = Returns _ |- _ =>
               destruct o; simpl in H; try discriminate H
           end;
    simpl; lia.
Qed.

Lemma larger_size_more_prominent_witness :
  (forall t level, never_raises t level = false)
  /\ create_docx first_seen never_raises paragraph_ok heading_blocks
     = Returns [Paragraph "t"; Paragraph "b"; Heading 2 "h"]
  /\ nth_error heading_blocks 0 = Some (Block "t" 12%Z)
  /\ nth_error heading_blocks 2 = Some (Block "h" 22%Z)
  /\ nth_error [Paragraph "t"; Paragraph "b"; Heading 2 "h"] 0
     = Some (Paragraph "t")
  /\ nth_error [Paragraph "t"; Paragraph "b"; Heading 2 "h"] 2
     = Some (Heading 2 "h")
  /\ (size (Block "t" 12%Z) <= size (Block "h" 22%Z))%Z
  /\ prominence (Paragraph "t") <= prominence (Heading 2 "h").
Proof.
  assert (Hr : forall t level, never_raises t level = false) by reflexivity.
  assert (Hle : (size (Block "t" 12%Z) <= size (Block "h" 22%Z))%Z)
    by (simpl; lia).
  split; [exact Hr|]. repeat (split; [reflexivity|]). split; [exact Hle|].
  exact (larger_size_more_prominent first_seen never_raises paragraph_ok
           heading_blocks
           [Paragraph "t"; Paragraph "b"; Heading 2 "h"] 0 2
           (Block "t" 12%Z) (Block "h" 22%Z) (Paragraph "t") (Heading 2 "h")
           Hr eq_refl eq_refl eq_refl eq_refl eq_refl Hle).
Defined.

(** X14.  When one size is strictly the most frequent, the document does not
    depend on the order in which the set of sizes is iterated. *)
Theorem unique_mode_any_order :
  forall (set_iter1 set_iter2 : list Z -> list Z)
         (add_heading_raises : string -> nat -> bool)
         (add_paragraph : string -> outcome unit)
         (translated_blocks : list (block Z)) (m : Z),
    set_iter_ok set_iter1 ->
    set_iter_ok set_iter2 ->
    In m (map size translated_blocks) ->
    (forall x, In x (map size translated_blocks) -> x <> m ->
       count (map size translated_blocks) x
       < count (map size translated_blocks) m) ->
    create_docx set_iter1 add_heading_raises add_paragraph translated_blocks
    = create_docx set_iter2 add_heading_raises add_paragraph translated_blocks.
Proof.
  intros it1 it2 raises add_paragraph blocks m Ok1 Ok2 Hm Hu.
  assert (Hne : map size blocks <> []) by (intros E; now rewrite E in Hm).
  assert (Hmode : forall it, set_iter_ok it ->
             mode_size_of it (map size blocks) = Returns m).
  { intros it Ok.
    destruct (mode_size_of_spec it (map size blocks) Ok Hne)
      as (mode & Em & Hin & Hmax).
    rewrite Em. f_equal.
    destruct (Z.eq_dec mode m) as [->|Hneq]; [reflexivity|].
    specialize (Hu mode Hin Hneq). specialize (Hmax m). lia. }
  unfold create_docx. now rewrite (Hmode it1 Ok1), (Hmode it2 Ok2).
Qed.

Lemma unique_mode_any_order_witness :
  set_iter_ok first_seen
  /\ set_iter_ok last_seen
  /\ In 12%Z (map size heading_blocks)
  /\ (forall x, In x (map size heading_blocks) -> x <> 12%Z ->
        count (map size heading_blocks) x
        < count (map size heading_blocks) 12%Z)
  /\ create_docx first_seen never_raises paragraph_ok heading_blocks
     = create_docx last_seen never_raises paragraph_ok heading_blocks.
Proof.
  assert (Hm : In 12%Z (map size heading_blocks)) by (left; reflexivity).
  assert (Hu : forall x, In x (map size heading_blocks) -> x <> 12%Z ->
                count (map size heading_blocks) x
                < count (map size heading_blocks) 12%Z).
  { intros x [<-|[<-|[<-|[]]]] Hx; try contradiction.
    vm_compute. repeat constructor. }
  split; [exact first_seen_ok|]. split; [exact last_seen_ok|].
  split; [exact Hm|]. split; [exact Hu|].
  exact (unique_mode_any_order first_seen last_seen never_raises paragraph_ok
           heading_blocks 12%Z first_seen_ok last_seen_ok Hm Hu).
Defined.

(** X15.  Translation does not change the document's structure.  With a
    document that takes in a paragraph no text it refuses in a heading (as
    one that fails by the text does), whenever the run returns and
    [create_docx] returns a document both for the input blocks and for the
    translated blocks, the two documents have the same headings, of the
    same levels, at the same positions. *)
Theorem translation_keeps_headings :
  forall (num : Type) (N : Number num) (St : Type)
         (translate : St -> string -> outcome string * St)
         (w0 : world num St) (content_blocks : list addr)
         (set_iter : list num -> list num)
         (add_heading_raises : string -> nat -> bool)
         (add_paragraph : string -> outcome unit)
         (results : list addr) (w1 : world num St) (doc doc' : list element),
    well_formed w0 content_blocks ->
    (forall t level,
        add_heading_raises t level = true -> add_paragraph t <> Returns tt) ->
    translate_content translate content_blocks w0 = (Returns results, w1) ->
    create_docx set_iter add_heading_raises add_paragraph
      (read_blocks (w_heap w0) content_blocks) = Returns doc ->
    create_docx set_iter add_heading_raises add_paragraph
      (read_blocks (w_heap w1) results) = Returns doc' ->
    map heading_of doc' = map heading_of doc.
Proof.
  intros num N St translate w0 cbs set_iter raises add_paragraph
    results w1 doc doc' Hwf Hc E D D'.
  destruct (run_facts translate w0 cbs Hwf)
    as (r & w1' & E' & _ & Hres & _ & S & _).
  rewrite E in E'. injection E' as <- <-.
  rewrite (Hres results eq_refl) in D'.
  assert (Hs : map size (read_blocks (w_heap w1)
                           (seq (next (w_heap w0)) (List.length cbs)))
               = map size (read_blocks (w_heap w0) cbs)).
  { unfold read_blocks. rewrite !map_map. unfold addr in *.
    exact (map_seq_ext (fun x => size (cells (w_heap w1) x))
             (fun a => size (cells (w_heap w0) a)) cbs (next (w_heap w0)) S). }
  unfold create_docx in D, D'. rewrite Hs in D'.
  destruct (mode_size_of set_iter (map size (read_blocks (w_heap w0) cbs)))
    as [mode| |]; try discriminate.
  rewrite (emit_all_headings raises add_paragraph mode _ doc Hc D).
  rewrite (emit_all_headings raises add_paragraph mode _ doc' Hc D').
  now rewrite Hs.
Qed.

Lemma translation_keeps_headings_witness :
  well_formed scenario_world [0; 1; 2; 3]
  /\ (forall t level,
        never_raises t level = true -> paragraph_ok t <> Returns tt)
  /\ translate_content upper_adapter [0; 1; 2; 3] scenario_world
     = (Returns [4; 5; 6; 7],
        snd (translate_content upper_adapter [0; 1; 2; 3] scenario_world))
  /\ create_docx first_seen never_raises paragraph_ok
       (read_blocks (w_heap scenario_world) [0; 1; 2; 3])
     = Returns [Heading 1 "Hello"; Paragraph "world"; Paragraph "";
                Paragraph "Test"]
  /\ create_docx first_seen never_raises paragraph_ok
       (read_blocks
          (w_heap (snd (translate_content upper_adapter [0; 1; 2; 3]
                          scenario_world)))
          [4; 5; 6; 7])
     = Returns [Heading 1 "HELLO"; Paragraph "WORLD"; Paragraph "";
                Paragraph "TEST"]
  /\ map heading_of [Heading 1 "HELLO"; Paragraph "WORLD"; Paragraph "";
                     Paragraph "TEST"]
     = map heading_of [Heading 1 "Hello"; Paragraph "world"; Paragraph "";
                       Paragraph "Test"].
Proof.
  assert (H : well_formed scenario_world [0; 1; 2; 3]).
  { unfold well_formed. simpl. repeat constructor. }
  assert (R : forall t level,
             never_raises t level = true -> paragraph_ok t <> Returns tt)
    by discriminate.
  assert (E : translate_content upper_adapter [0; 1; 2; 3] scenario_world
              = (Returns [4; 5; 6; 7],
                 snd (translate_content upper_adapter [0; 1; 2; 3]
                        scenario_world))) by reflexivity.
  assert (D : create_docx first_seen never_raises paragraph_ok
                (read_blocks (w_heap scenario_world) [0; 1; 2; 3])
              = Returns [Heading 1 "Hello"; Paragraph "world"; Paragraph "";
                         Paragraph "Test"]) by reflexivity.
  assert (D' : create_docx first_seen never_raises paragraph_ok
                 (read_blocks
                    (w_heap (snd (translate_content upper_adapter [0; 1; 2; 3]
                                    scenario_world)))
                    [4; 5; 6; 7])
               = Returns [Heading 1 "HELLO"; Paragraph "WORLD"; Paragraph "";
                          Paragraph "TEST"]) by (vm_compute; reflexivity).
  split; [exact H|]. split; [exact R|]. split; [exact E|].
  split; [exact D|]. split; [exact D'|].
  exact (translation_keeps_headings Z Z_Number unit upper_adapter
           scenario_world [0; 1; 2; 3] first_seen never_raises paragraph_ok
           [4; 5; 6; 7]
           (snd (translate_content upper_adapter [0; 1; 2; 3] scenario_world))
           [Heading 1 "Hello"; Paragraph "world"; Paragraph "";
            Paragraph "Test"]
           [Heading 1 "HELLO"; Paragraph "WORLD"; Paragraph "";
            Paragraph "TEST"]
           H R E D D').
Defined.

(** ** [extract_text_from_pdf] *)

Section ExtractFacts.

Context {num : Type}.
Variable far : num -> num -> bool.
Variable num_max : num -> num -> num.
Variable zero : num.

Lemma commit_line_app (content : list (block num)) texts sz :
  commit_line content texts sz = content ++ commit_line [] texts sz.
Proof.
  unfold commit_line. destruct (PyStr.is_empty _); simpl;
    [now rewrite app_nil_r|reflexivity].
Qed.

Lemma commit_line_nil (content : list (block num)) sz :
  commit_line content [] sz = content.
Proof. reflexivity. Qed.

Lemma commit_line_length (content : list (block num)) texts sz :
  List.length (commit_line content texts sz)
  <= List.length content + match texts with [] => 0 | _ :: _ => 1 end.
Proof.
  destruct texts as [|t ts]; [rewrite commit_line_nil; lia|].
  unfold commit_line. destruct (PyStr.is_empty _); [lia|].
  rewrite length_app. simpl. lia.
Qed.

Lemma commit_line_Forall (P : block num -> Prop) content texts sz :
  Forall P content ->
  (forall t, PyStr.is_empty t = false -> PyStr.strip t = t -> P (Block t sz)) ->
  Forall P (commit_line content texts sz).
Proof.
  intros Hc HP. unfold commit_line.
  destruct (PyStr.is_empty _) eqn:E; [exact Hc|].
  apply Forall_app. split; [exact Hc|]. constructor; [|constructor].
  apply HP; [exact E|apply strip_idem].
Qed.

Lemma word_step_app (c : list (block num)) st w :
  word_step far num_max zero
    (LState (c ++ structured_content st) (current_line_y st)
       (current_line_text st) (max_size_in_line st)) w
  = LState (c ++ structured_content (word_step far num_max zero st w))
      (current_line_y (word_step far num_max zero st w))
      (current_line_text (word_step far num_max zero st w))
      (max_size_in_line (word_step far num_max zero st w)).
Proof.
  unfold word_step.
  cbn [structured_content current_line_y current_line_text max_size_in_line].
  destruct (far (wd_top w) (current_line_y st));
    cbn [structured_content current_line_y current_line_text max_size_in_line];
    [|reflexivity].
  rewrite (commit_line_app (c ++ structured_content st)), <- app_assoc,
    <- commit_line_app.
  reflexivity.
Qed.

(** The words loop moves the blocks it was given along unchanged. *)
Lemma word_fold_app words : forall (c : list (block num)) st,
  fold_left (word_step far num_max zero) words
    (LState (c ++ structured_content st) (current_line_y st)
       (current_line_text st) (max_size_in_line st))
  = LState
      (c ++ structured_content
              (fold_left (word_step far num_max zero) words st))
      (current_line_y (fold_left (word_step far num_max zero) words st))
      (current_line_text (fold_left (word_step far num_max zero) words st))
      (max_size_in_line (fold_left (word_step far num_max zero) words st)).
Proof.
  induction words as [|w words IH]; intros c st; [reflexivity|].
  cbn [fold_left]. rewrite word_step_app. apply IH.
Qed.

Lemma page_step_app content words :
  page_step far num_max zero content words
  = content ++ page_step far num_max zero [] words.
Proof.
  destruct words as [|w0 words]; [simpl; now rewrite app_nil_r|].
  unfold page_step.
  pose proof (word_fold_app (w0 :: words) content
                (LState [] (wd_top w0) [] zero)) as H.
  cbn [structured_content current_line_y current_line_text max_size_in_line]
    in H.
  rewrite app_nil_r in H. rewrite H.
  cbn [structured_content current_line_y current_line_text max_size_in_line].
  now rewrite commit_line_app, <- app_assoc, <- commit_line_app.
Qed.

Lemma extract_fold pages : forall content,
  fold_left (page_step far num_max zero) pages content
  = content ++ extract_text_from_pdf far num_max zero pages.
Proof.
  unfold extract_text_from_pdf.
  induction pages as [|p pages IH]; intros content; simpl;
    [now rewrite app_nil_r|].
  rewrite IH, (IH (page_step far num_max zero [] p)), page_step_app.
  now rewrite app_assoc.
Qed.

Lemma word_fold_Forall (P : block num -> Prop) words : forall st,
  (forall t sz, PyStr.is_empty t = false -> PyStr.strip t = t ->
                P (Block t sz)) ->
  Forall P (structured_content st) ->
  Forall P (structured_content
              (fold_left (word_step far num_max zero) words st)).
Proof.
  induction words as [|w words IH]; intros st HP Hc; [exact Hc|].
  simpl. apply IH; [exact HP|]. unfold word_step.
  destruct (far _ _); simpl; [|exact Hc].
  apply commit_line_Forall; [exact Hc|]. intros t. apply HP.
Qed.

Lemma word_fold_length words : forall st,
  let st' := fold_left (word_step far num_max zero) words st in
  List.length (structured_content st')
  + match current_line_text st' with [] => 0 | _ :: _ => 1 end
  <= List.length (structured_content st)
     + match current_line_text st with [] => 0 | _ :: _ => 1 end
     + List.length words.
Proof.
  induction words as [|w words IH]; intros st; [simpl; lia|].
  simpl. specialize (IH (word_step far num_max zero st w)). simpl in IH.
  assert (H : List.length (structured_content
                             (word_step far num_max zero st w))
              + match current_line_text (word_step far num_max zero st w)
                with [] => 0 | _ :: _ => 1 end
              <= List.length (structured_content st)
                 + match current_line_text st with [] => 0 | _ :: _ => 1 end
                 + 1).
  { unfold word_step. destruct (far _ _); simpl.
    - pose proof (commit_line_length (structured_content st)
                    (current_line_text st) (max_size_in_line st)). lia.
    - destruct (current_line_text st); simpl; lia. }
  lia.
Qed.

(** Words that are all near the line's first word stay on one line. *)
Lemma word_fold_one_line words : forall c y t m,
  (forall w, In w words -> far (wd_top w) y = false) ->
  fold_left (word_step far num_max zero) words (LState c y t m)
  = LState c y (t ++ map wd_text words)
      (fold_left num_max (map (size_or_zero zero) words) m).
Proof.
  induction words as [|w words IH]; intros c y t m H; simpl.
  - now rewrite app_nil_r.
  - unfold word_step at 2. simpl. rewrite (H w (or_introl eq_refl)).
    rewrite IH by (intros w' Hw'; apply H; now right).
    now rewrite <- app_assoc.
Qed.

Lemma extract_Forall (P : block num -> Prop) pages :
  (forall t sz, PyStr.is_empty t = false -> PyStr.strip t = t ->
                P (Block t sz)) ->
  Forall P (extract_text_from_pdf far num_max zero pages).
Proof.
  intros HP. unfold extract_text_from_pdf.
  assert (H : forall content, Forall P content ->
                Forall P (fold_left (page_step far num_max zero) pages content)).
  { induction pages as [|p pages IH]; intros content Hc; [exact Hc|].
    simpl. apply IH. destruct p as [|w0 ws]; [exact Hc|].
    unfold page_step. apply commit_line_Forall; [|intros t; apply HP].
    apply word_fold_Forall; [exact HP|exact Hc]. }
  apply H. constructor.
Qed.

Lemma extract_trimmed pages :
  Forall (fun b : block num =>
            text b <> EmptyString /\ PyStr.strip (text b) = text b)
         (extract_text_from_pdf far num_max zero pages).
Proof.
  apply extract_Forall. intros t sz He Hs. split; [|exact Hs].
  simpl. intros ->. discriminate.
Qed.

End ExtractFacts.

(** X16.  Every extracted block has text, with no white space around it. *)
Theorem extracted_blocks_trimmed :
  forall (num : Type) (far : num -> num -> bool)
         (num_max : num -> num -> num) (zero : num)
         (pages : list (list (word num))),
    Forall (fun b => text b <> EmptyString /\ PyStr.strip (text b) = text b)
           (extract_text_from_pdf far num_max zero pages).
Proof. intros. apply extract_trimmed. Qed.

(** X17.  Pages are extracted one after the other: the blocks of a document are
    the blocks of its first pages followed by those of the rest. *)
Theorem extract_pages_app :
  forall (num : Type) (far : num -> num -> bool)
         (num_max : num -> num -> num) (zero : num)
         (pages1 pages2 : list (list (word num))),
    extract_text_from_pdf far num_max zero (pages1 ++ pages2)
    = extract_text_from_pdf far num_max zero pages1
      ++ extract_text_from_pdf far num_max zero pages2.
Proof.
  intros num far num_max zero pages1 pages2.
  unfold extract_text_from_pdf at 1. rewrite fold_left_app.
  fold (extract_text_from_pdf far num_max zero pages1).
  apply extract_fold.
Qed.

Lemma extract_cons {num} (far : num -> num -> bool)
  (num_max : num -> num -> num) (zero : num) p pages :
  extract_text_from_pdf far num_max zero (p :: pages)
  = page_step far num_max zero [] p
    ++ extract_text_from_pdf far num_max zero pages.
Proof.
  unfold extract_text_from_pdf at 1. simpl. apply extract_fold.
Qed.

(** X18.  There are never more blocks than words; a page without words gives
    none. *)
Theorem extract_at_most_one_block_per_word :
  forall (num : Type) (far : num -> num -> bool)
         (num_max : num -> num -> num) (zero : num)
         (pages : list (list (word num))),
    List.length (extract_text_from_pdf far num_max zero pages)
    <= list_sum (map (@List.length (word num)) pages).
Proof.
  intros num far num_max zero pages.
  induction pages as [|p pages IH]; [simpl; lia|].
  rewrite extract_cons, length_app. simpl.
  assert (Hp : List.length (page_step far num_max zero [] p)
               <= List.length p).
  { destruct p as [|w0 ws]; [simpl; lia|].
    unfold page_step.
    pose proof (word_fold_length far num_max zero (w0 :: ws)
                  (LState [] (wd_top w0) [] zero)) as H.
    cbv zeta in H.
    set (st := fold_left (word_step far num_max zero) (w0 :: ws)
                 (LState [] (wd_top w0) [] zero)) in *.
    pose proof (commit_line_length (structured_content st)
                  (current_line_text st) (max_size_in_line st)) as C.
    simpl in H. simpl. lia. }
  lia.
Qed.

(** A page whose words are all within the tolerance of its first word is
    one line: its words joined by spaces and trimmed, with the largest size
    met, starting from 0; or nothing when no text is left. *)
Theorem one_line_page :
  forall (num : Type) (far : num -> num -> bool)
         (num_max : num -> num -> num) (zero : num)
         (w0 : word num) (ws : list (word num)),
    (forall w, In w (w0 :: ws) -> far (wd_top w) (wd_top w0) = false) ->
    extract_text_from_pdf far num_max zero [w0 :: ws]
    = if PyStr.is_empty (PyStr.strip (PyStr.join " " (map wd_text (w0 :: ws))))
      then []
      else [Block (PyStr.strip (PyStr.join " " (map wd_text (w0 :: ws))))
              (fold_left num_max (map (size_or_zero zero) (w0 :: ws)) zero)].
Proof.
  intros num far num_max zero w0 ws H.
  unfold extract_text_from_pdf. cbn [fold_left]. unfold page_step.
  rewrite word_fold_one_line by exact H. reflexivity.
Qed.

Lemma one_line_page_witness :
  (forall w, In w line_words ->
     far_z (wd_top w) (wd_top (Word "Hello" 100%Z (Some 12%Z))) = false)
  /\ extract_text_from_pdf far_z Z.max 0%Z [line_words]
     = if PyStr.is_empty
            (PyStr.strip (PyStr.join " " (map wd_text line_words)))
       then []
       else [Block (PyStr.strip (PyStr.join " " (map wd_text line_words)))
               (fold_left Z.max (map (size_or_zero 0%Z) line_words) 0%Z)].
Proof.
  assert (H : forall w, In w line_words ->
                far_z (wd_top w) (wd_top (Word "Hello" 100%Z (Some 12%Z)))
                = false).
  { intros w [<-|[<-|[<-|[]]]]; reflexivity. }
  split; [exact H|].
  exact (one_line_page Z far_z Z.max 0%Z (Word "Hello" 100%Z (Some 12%Z))
           [Word "big" 102%Z (Some 14%Z); Word "world " 99%Z None] H).
Defined.

Example one_line_page_ex :
  extract_text_from_pdf far_z Z.max 0%Z [line_words]
  = [Block "Hello big world" 14%Z].
Proof. reflexivity. Qed.

(** X20.  Extraction feeds translation whole: every extracted block is a member
    of exactly one batch, and every batch's text is its members' texts, as
    extracted, joined by the separator. *)
Theorem extracted_blocks_all_batched :
  forall (num : Type) (far : num -> num -> bool)
         (num_max : num -> num -> num) (zero : num)
         (pages : list (list (word num))),
    members (make_batches
               (map text (extract_text_from_pdf far num_max zero pages)))
    = seq 0 (List.length (extract_text_from_pdf far num_max zero pages))
    /\ Forall (fun b =>
                 b_text b
                 = PyStr.join SEPARATOR
                     (map (fun j =>
                             nth j (map text
                                      (extract_text_from_pdf far num_max zero
                                         pages))
                               EmptyString)
                        (b_indices b)))
              (make_batches
                 (map text (extract_text_from_pdf far num_max zero pages))).
Proof.
  intros num far num_max zero pages.
  set (blocks := extract_text_from_pdf far num_max zero pages).
  set (texts := map text blocks).
  assert (T : Forall (fun t => t <> EmptyString /\ PyStr.strip t = t) texts).
  { unfold texts. apply Forall_map. apply extract_trimmed. }
  assert (Hnth : forall j, j < List.length texts ->
             nth j texts EmptyString <> EmptyString
             /\ PyStr.strip (nth j texts EmptyString)
                = nth j texts EmptyString).
  { intros j Hj. rewrite Forall_forall in T. apply T, nth_In, Hj. }
  split.
  - rewrite make_batches_members. unfold translatable_indices.
    replace (List.length blocks) with (List.length texts)
      by (unfold texts; apply length_map).
    rewrite <- (filter_ext_in (fun _ => true)).
    + clear. induction (seq 0 (List.length texts)) as [|x l IH];
        simpl; [|rewrite IH]; reflexivity.
    + intros j Hj. apply in_seq in Hj. destruct (Hnth j) as [Hne Hs]; [lia|].
      unfold translatable. rewrite Hs.
      destruct (nth j texts EmptyString); [contradiction|reflexivity].
  - pose proof (make_batches_joined texts) as J.
    apply Forall_forall. intros b Hb. rewrite Forall_forall in J.
    rewrite (J b Hb). f_equal. apply map_ext_in. intros j Hj.
    destruct (make_batches_valid texts b j Hb Hj) as [Hlt _].
    apply (Hnth j Hlt).
Qed.

(** ** The empty batch *)

Section EmptyBatch.

Lemma batch_step_nonempty st i raw :
  List.length (current_batch_text st) = List.length (current_batch_indices st) ->
  (current_batch_text st <> [] \/ batches st = []) ->
  Forall (fun b => b_indices b <> []) (tl (batches st)) ->
  (current_batch_text (batch_step st i raw) <> []
   \/ batches (batch_step st i raw) = [])
  /\ Forall (fun b => b_indices b <> []) (tl (batches (batch_step st i raw))).
Proof.
  intros Hlen Hq Ht. unfold batch_step.
  destruct (PyStr.is_empty (PyStr.strip raw)); [now split|].
  destruct (4000 <? _); simpl.
  - split; [left; discriminate|].
    destruct (batches st) as [|b0 bs] eqn:E; [constructor|].
    simpl in *. apply Forall_app. split; [exact Ht|].
    constructor; [|constructor]. unfold commit. simpl.
    destruct Hq as [Hq|Hq]; [|discriminate].
    destruct (current_batch_text st); [contradiction|].
    destruct (current_batch_indices st); [discriminate|discriminate].
  - split; [|exact Ht]. left. destruct (current_batch_text st); discriminate.
Qed.

Lemma batch_loop_nonempty texts : forall i st,
  List.length (current_batch_text st) = List.length (current_batch_indices st) ->
  (current_batch_text st <> [] \/ batches st = []) ->
  Forall (fun b => b_indices b <> []) (tl (batches st)) ->
  let st' := batch_loop i texts st in
  (current_batch_text st' <> [] \/ batches st' = [])
  /\ Forall (fun b => b_indices b <> []) (tl (batches st')).
Proof.
  induction texts as [|raw rest IH]; intros i st Hlen Hq Ht; simpl;
    [now split|].
  destruct (batch_step_nonempty st i raw Hlen Hq Ht) as [Hq' Ht'].
  apply IH; [now apply batch_step_lengths|exact Hq'|exact Ht'].
Qed.

Lemma batch_loop_keeps_batches texts : forall i st,
  exists more, batches (batch_loop i texts st) = batches st ++ more.
Proof.
  induction texts as [|raw rest IH]; intros i st; simpl.
  - exists []. now rewrite app_nil_r.
  - destruct (IH (S i) (batch_step st i raw)) as [more Hm].
    rewrite Hm. unfold batch_step.
    destruct (PyStr.is_empty _); [now exists more|].
    destruct (4000 <? _); simpl.
    + exists (commit st :: more). now rewrite <- app_assoc.
    + now exists more.
Qed.

End EmptyBatch.

(** X6.  Only the first batch can be without members: every later batch has at
    least one. *)
Theorem later_batches_have_members :
  forall texts : list string,
    Forall (fun b => b_indices b <> []) (tl (make_batches texts)).
Proof.
  intros texts. unfold make_batches.
  destruct (batch_loop_nonempty texts 0 bstate_init eq_refl
              (or_intror eq_refl) (Forall_nil _)) as [Hq Ht].
  pose proof (batch_loop_lengths texts 0 bstate_init eq_refl) as Hlen.
  set (st := batch_loop 0 texts bstate_init) in *.
  unfold finish. destruct (current_batch_text st) as [|t ts] eqn:E;
    [exact Ht|].
  destruct (batches st) as [|b0 bs]; [constructor|].
  simpl in *. apply Forall_app. split; [exact Ht|].
  constructor; [|constructor]. unfold commit. simpl.
  destruct (current_batch_indices st); discriminate.
Qed.

(** X7.  When the first block with text to translate is longer than the
    threshold, the first batch is empty: no members and the empty text. *)
Theorem oversized_first_block_empty_batch :
  forall (blanks : list string) (t : string) (rest : list string),
    (forall x, In x blanks -> PyStr.strip x = EmptyString) ->
    4000 < String.length (PyStr.strip t) ->
    exists bs, make_batches (blanks ++ t :: rest) = Batch EmptyString [] :: bs.
Proof.
  intros blanks t rest Hb Ht. unfold make_batches.
  assert (E : forall i st,
             batch_loop i (blanks ++ t :: rest) st
             = batch_loop (S (i + List.length blanks)) rest
                 (batch_step st (i + List.length blanks) t)).
  { induction blanks as [|x blanks IH]; intros i st.
    - simpl. now rewrite Nat.add_0_r.
    - assert (Hx : batch_step st i x = st).
      { unfold batch_step. now rewrite (Hb x (or_introl eq_refl)). }
      cbn [app batch_loop List.length]. rewrite Hx.
      rewrite IH by (intros y Hy; apply Hb; now right).
      replace (S i + List.length blanks) with (i + S (List.length blanks))
        by lia.
      reflexivity. }
  rewrite E. clear E.
  assert (S0 : batch_step bstate_init (0 + List.length blanks) t
               = BState [Batch EmptyString []] [PyStr.strip t]
                   [0 + List.length blanks] (String.length (PyStr.strip t))).
  { unfold batch_step.
    destruct (PyStr.strip t) as [|c s] eqn:Es; [simpl in Ht; lia|].
    cbn [PyStr.is_empty bstate_init current_char_count].
    destruct (Nat.ltb_spec 4000 (0 + String.length (String c s))); [|lia].
    reflexivity. }
  rewrite S0.
  destruct (batch_loop_keeps_batches rest (S (0 + List.length blanks))
              (BState [Batch EmptyString []] [PyStr.strip t]
                 [0 + List.length blanks] (String.length (PyStr.strip t))))
    as [more Hm].
  unfold finish. rewrite Hm. simpl.
  destruct (current_batch_text _); eexists; reflexivity.
Qed.

Lemma oversized_first_block_empty_batch_witness :
  (forall x, In x [" "] -> PyStr.strip x = EmptyString)
  /\ 4000 < String.length (PyStr.strip (PyStr.replicate 4001 "a"))
  /\ exists bs,
       make_batches ([" "] ++ PyStr.replicate 4001 "a" :: ["b"])
       = Batch EmptyString [] :: bs.
Proof.
  assert (B : forall x, In x [" "] -> PyStr.strip x = EmptyString).
  { intros x [<-|[]]. reflexivity. }
  assert (L : 4000 < String.length (PyStr.strip (PyStr.replicate 4001 "a")))
    by (vm_compute; repeat constructor).
  split; [exact B|]. split; [exact L|].
  exact (oversized_first_block_empty_batch [" "] (PyStr.replicate 4001 "a")
           ["b"] B L).
Defined.

(** ** The language pair *)

(** X21.  Whatever the direction, the target language is Indonesian or English
    and differs from the source language, which is never translated into
    itself. *)
Theorem language_pair_distinct :
  forall direction : string,
    fst (languages_of direction) <> snd (languages_of direction)
    /\ (snd (languages_of direction) = "id"
        \/ snd (languages_of direction) = "en").
Proof.
  intros direction. unfold languages_of.
  repeat match goal with
         | |- context [(direction =? ?s)%string] =>
             destruct (direction =? s)%string
         end;
    simpl; (split; [discriminate|auto]).
Qed.

(** ** The text of a batch *)

(** X3.  The text of every batch is the trimmed texts of its members, in order,
    joined by the separator. *)
Theorem batch_text_is_join :
  forall texts : list string,
    Forall (fun b =>
              b_text b
              = PyStr.join SEPARATOR
                  (map (fun j => PyStr.strip (nth j texts EmptyString))
                     (b_indices b)))
           (make_batches texts).
Proof. exact make_batches_joined. Qed.

(** ** The lines of a page *)

Section Lines.

Context {num : Type}.
Variable far : num -> num -> bool.
Variable num_max : num -> num -> num.
Variable zero : num.

Lemma word_fold_lines ls : forall c y t m,
  lines_ok far y ls ->
  let st := fold_left (word_step far num_max zero) (List.concat ls)
              (LState c y t m) in
  commit_line (structured_content st) (current_line_text st)
    (max_size_in_line st)
  = fold_left (fun content l =>
                 commit_line content (map wd_text l)
                   (later_line_size num_max zero l))
      ls (commit_line c t m).
Proof.
  induction ls as [|l rest IH]; intros c y t m Hok; [reflexivity|].
  destruct l as [|h r]; [contradiction|].
  destruct Hok as (Hfar & Hnear & Hrest).
  assert (Hs : word_step far num_max zero (LState c y t m) h
               = LState (commit_line c t m) (wd_top h) [wd_text h]
                   (size_or_zero zero h)).
  { unfold word_step.
    cbn [structured_content current_line_y current_line_text
         max_size_in_line].
    now rewrite Hfar. }
  cbv zeta. cbn [List.concat]. rewrite <- app_comm_cons.
  cbn [fold_left]. rewrite fold_left_app, Hs.
  rewrite word_fold_one_line by exact Hnear.
  apply (IH _ _ _ _ Hrest).
Qed.

End Lines.

(** X19.  How a page is cut into lines.  A page made of a first line, whose words
    are all near its first word, and of later lines, each starting with a
    word far from the first word of the line before and going on with words
    near its own first word, gives one block per line with text left, in
    order: the line's words joined by spaces and trimmed, with the largest
    size of the line, counted from 0 on the first line of the page and from
    the first word's size on the others. *)
Theorem page_lines :
  forall (num : Type) (far : num -> num -> bool)
         (num_max : num -> num -> num) (zero : num)
         (h0 : word num) (r0 : list (word num))
         (ls : list (list (word num))),
    (forall w, In w (h0 :: r0) -> far (wd_top w) (wd_top h0) = false) ->
    lines_ok far (wd_top h0) ls ->
    extract_text_from_pdf far num_max zero [(h0 :: r0) ++ List.concat ls]
    = fold_left (fun content l =>
                   commit_line content (map wd_text l)
                     (later_line_size num_max zero l))
        ls
        (commit_line [] (map wd_text (h0 :: r0))
           (first_line_size num_max zero (h0 :: r0))).
Proof.
  intros num far num_max zero h0 r0 ls Hnear Hok.
  unfold extract_text_from_pdf. cbn [fold_left].
  assert (E : page_step far num_max zero [] ((h0 :: r0) ++ List.concat ls)
              = let st := fold_left (word_step far num_max zero)
                            ((h0 :: r0) ++ List.concat ls)
                            (LState [] (wd_top h0) [] zero) in
                commit_line (structured_content st) (current_line_text st)
                  (max_size_in_line st)) by reflexivity.
  rewrite E. cbv zeta.
  rewrite fold_left_app, word_fold_one_line by exact Hnear.
  apply (word_fold_lines far num_max zero ls _ _ _ _ Hok).
Qed.

Lemma page_lines_witness :
  (forall w, In w [Word "Title" 50%Z (Some 24%Z)] ->
     far_z (wd_top w) (wd_top (Word "Title" 50%Z (Some 24%Z))) = false)
  /\ lines_ok far_z (wd_top (Word "Title" 50%Z (Some 24%Z))) [line_words]
  /\ extract_text_from_pdf far_z Z.max 0%Z
       [[Word "Title" 50%Z (Some 24%Z)] ++ List.concat [line_words]]
     = fold_left (fun content l =>
                    commit_line content (map wd_text l)
                      (later_line_size Z.max 0%Z l))
         [line_words]
         (commit_line [] (map wd_text [Word "Title" 50%Z (Some 24%Z)])
            (first_line_size Z.max 0%Z [Word "Title" 50%Z (Some 24%Z)])).
Proof.
  assert (N : forall w, In w [Word "Title" 50%Z (Some 24%Z)] ->
                far_z (wd_top w) (wd_top (Word "Title" 50%Z (Some 24%Z)))
                = false).
  { intros w [<-|[]]. reflexivity. }
  assert (L : lines_ok far_z (wd_top (Word "Title" 50%Z (Some 24%Z)))
                [line_words]).
  { simpl. split; [reflexivity|]. split; [|exact I].
    intros w [<-|[<-|[]]]; reflexivity. }
  split; [exact N|]. split; [exact L|].
  exact (page_lines Z far_z Z.max 0%Z (Word "Title" 50%Z (Some 24%Z)) []
           [line_words] N L).
Defined.

Example page_lines_ex :
  extract_text_from_pdf far_z Z.max 0%Z
    [[Word "Title" 50%Z (Some 24%Z)] ++ List.concat [line_words]]
  = [Block "Title" 24%Z; Block "Hello big world" 14%Z].
Proof. reflexivity. Qed.
